(** * Praveshan: the music aggregation layer of [main.py]

    A shallow embedding of the [MusicAPI] class (session lifecycle, the five
    provider adapters), of the query parsing done by [lyrics_command] and of
    the chat commands built on them, followed by the properties the
    specification states about them and by properties of the commands.

    Conventions of the embedding.
    - A Python [str] is the list of its Unicode code points ([pystr]).
    - A value decoded by [response.json()] is a [json]; Python's [None] is
      [JNull], so "absent" results are [JNull] (or [None] of an [option]
      where the function returns a record).
    - A computation that may raise is a [py A]: [Ok a] or [Raise e].  The
      classes of [exn] are all subclasses of Python's [Exception]; task
      cancellation is outside the model.
    - The network is a function [network] from the request to what
      [session.get] and [response.json()] do with it.
    - Logging and [print] are a diagnostic side channel and are left out.
    - [ctx.send] is a [channel]: for each message, whether it is delivered
      or which exception the call raises.
    - A run of a command is a [ran]: the state it leaves, the messages
      delivered through [ctx.send], in order, and how it ended. *)

From Stdlib Require Import String Ascii DecimalString.
From Stdlib Require DecimalZ.
From Stdlib Require Import ZArith NArith Bool Lia Floats List.
Import ListNotations.

Set Warnings "-register-all".
Set Implicit Arguments.

(* ================================================================= *)
(** ** Python strings *)

Definition pystr := list N.

(** A literal of the source, as code points. *)
Definition lit (s : string) : pystr := map N_of_ascii (list_ascii_of_string s).
Arguments lit s%_string.

(** The double quote character, [chr(34)]. *)
Definition dquote : pystr := [34%N].

Fixpoint str_eqb (a b : pystr) : bool :=
  match a, b with
  | [], [] => true
  | x :: a', y :: b' => (x =? y)%N && str_eqb a' b'
  | _, _ => false
  end.

(** [Py_UNICODE_ISSPACE]: the code points [str.strip()] removes. *)
Definition isspace (c : N) : bool :=
  (((9 <=? c) && (c <=? 13)) || ((28 <=? c) && (c <=? 32))
   || (c =? 133) || (c =? 160) || (c =? 5760)
   || ((8192 <=? c) && (c <=? 8202))
   || (c =? 8232) || (c =? 8233) || (c =? 8239) || (c =? 8287)
   || (c =? 12288))%N.

Fixpoint lstrip (s : pystr) : pystr :=
  match s with
  | [] => []
  | c :: s' => if isspace c then lstrip s' else s
  end.

Definition rstrip (s : pystr) : pystr := rev (lstrip (rev s)).

(** [s.strip()] *)
Definition strip (s : pystr) : pystr := rstrip (lstrip s).

(** [s.startswith(p)] *)
Fixpoint startswith (p s : pystr) : bool :=
  match p, s with
  | [], _ => true
  | _ :: _, [] => false
  | a :: p', c :: s' => (a =? c)%N && startswith p' s'
  end.

(** [sub in s] for two strings. *)
Fixpoint str_in (sub s : pystr) : bool :=
  startswith sub s
  || match s with
     | [] => false
     | _ :: s' => str_in sub s'
     end.

(** The split budget of [str.split(sep, maxsplit)]: [None] is "no limit". *)
Definition may_split (budget : option nat) : bool :=
  match budget with
  | Some O => false
  | _ => true
  end.

Definition spend (budget : option nat) : option nat :=
  match budget with
  | Some n => Some (pred n)
  | None => None
  end.

(** The left-to-right scan of [str.split]: [cur] is the piece being built
    (reversed), [skip] the number of characters of a separator just matched
    that are still to be passed over. *)
Fixpoint split_scan (sep : pystr) (budget : option nat) (skip : nat)
         (cur : pystr) (s : pystr) : list pystr :=
  match s with
  | [] => [rev cur]
  | c :: s' =>
      match skip with
      | S k => split_scan sep budget k cur s'
      | O =>
          if may_split budget && startswith sep s
          then rev cur :: split_scan sep (spend budget) (length sep - 1) [] s'
          else split_scan sep budget 0 (c :: cur) s'
      end
  end.

(* ================================================================= *)
(** ** Exceptions *)

Inductive exn : Type :=
| TimeoutError      (* asyncio.TimeoutError *)
| ClientError       (* aiohttp transport errors *)
| ContentTypeError  (* response.json() on a body that is not JSON *)
| KeyError
| IndexError
| TypeError
| AttributeError
| ValueError
| OverflowError
| RuntimeError
| HTTPException.    (* discord.HTTPException *)

Inductive py (A : Type) : Type :=
| Ok (a : A)
| Raise (e : exn).

Arguments Ok {A} a.
Arguments Raise {A} e.

Definition ret {A} (a : A) : py A := Ok a.

Definition bind {A B} (c : py A) (k : A -> py B) : py B :=
  match c with
  | Ok a => k a
  | Raise e => Raise e
  end.

Declare Scope py_scope.
Delimit Scope py_scope with py.
Notation "x <- c ;; k" := (bind c (fun x => k))
  (at level 100, c at next level, right associativity) : py_scope.
Notation "' p <- c ;; k" := (bind c (fun p => k))
  (at level 100, p pattern, c at next level, right associativity) : py_scope.
Open Scope py_scope.

(** [try: body / except Exception: handler] *)
Definition try_except {A} (body : py A) (handler : exn -> py A) : py A :=
  match body with
  | Ok a => Ok a
  | Raise e => handler e
  end.

Fixpoint py_map {A B} (f : A -> py B) (l : list A) : py (list B) :=
  match l with
  | [] => ret []
  | x :: l' => y <- f x ;; ys <- py_map f l' ;; ret (y :: ys)
  end.

(** [s.split(sep, maxsplit)]; an empty separator is a [ValueError]. *)
Definition str_split (sep : pystr) (budget : option nat) (s : pystr)
  : py (list pystr) :=
  match sep with
  | [] => Raise ValueError
  | _ :: _ => ret (split_scan sep budget 0 [] s)
  end.

(** [l[i]] on a Python list. *)
Definition list_index {A} (l : list A) (i : nat) : py A :=
  match nth_error l i with
  | Some x => ret x
  | None => Raise IndexError
  end.

(* ================================================================= *)
(** ** JSON values and the Python operations applied to them *)

(** What [response.json()] returns: [None], [bool], [int], [float], [str],
    [list] and [dict] (the items of a dict in insertion order; a key is
    looked up at its first binding). *)
Inductive json : Type :=
| JNull
| JBool (b : bool)
| JInt (z : Z)
| JFloat (f : float)
| JStr (s : pystr)
| JArr (items : list json)
| JObj (fields : list (pystr * json)).

Definition dict := list (pystr * json).

Fixpoint dict_lookup (key : pystr) (d : dict) : option json :=
  match d with
  | [] => None
  | (k, v) :: d' => if str_eqb k key then Some v else dict_lookup key d'
  end.

(** [bool(v)], the test of [if v:], [not v] and [a and b]. *)
Definition py_truthy (v : json) : bool :=
  match v with
  | JNull => false
  | JBool b => b
  | JInt z => negb (z =? 0)%Z
  | JFloat f => negb (PrimFloat.eqb f PrimFloat.zero)
  | JStr s => negb (Nat.eqb (length s) 0)
  | JArr items => negb (Nat.eqb (length items) 0)
  | JObj fields => negb (Nat.eqb (length fields) 0)
  end.

Definition is_the_str (key : pystr) (v : json) : bool :=
  match v with
  | JStr s => str_eqb s key
  | _ => false
  end.

(** [key in v] for a string [key]. *)
Definition py_in (key : pystr) (v : json) : py bool :=
  match v with
  | JObj fields =>
      ret (match dict_lookup key fields with Some _ => true | None => false end)
  | JArr items => ret (existsb (is_the_str key) items)
  | JStr s => ret (str_in key s)
  | _ => Raise TypeError
  end.

(** [v[key]] for a string [key]. *)
Definition py_getitem (v : json) (key : pystr) : py json :=
  match v with
  | JObj fields =>
      match dict_lookup key fields with
      | Some x => ret x
      | None => Raise KeyError
      end
  | _ => Raise TypeError
  end.

(** [v[0]]. The keys of a decoded object are strings, so [0] is never one. *)
Definition py_first (v : json) : py json :=
  match v with
  | JArr items => list_index items 0
  | JStr s => c <- list_index s 0 ;; ret (JStr [c])
  | JObj _ => Raise KeyError
  | _ => Raise TypeError
  end.

(** [v.get(key, default)]: only a dict has the method. *)
Definition py_get (v : json) (key : pystr) (default : json) : py json :=
  match v with
  | JObj fields =>
      ret (match dict_lookup key fields with Some x => x | None => default end)
  | _ => Raise AttributeError
  end.

(** [v[:n]].  A slice is no key of a dict ([TypeError]; a [KeyError] from
    Python 3.12 on, caught by the same handlers). *)
Definition py_slice_to (n : nat) (v : json) : py json :=
  match v with
  | JArr items => ret (JArr (firstn n items))
  | JStr s => ret (JStr (firstn n s))
  | _ => Raise TypeError
  end.

(** The values [for x in v] visits. *)
Definition py_iter (v : json) : py (list json) :=
  match v with
  | JArr items => ret items
  | JStr s => ret (map (fun c => JStr [c]) s)
  | JObj fields => ret (map (fun kv => JStr (fst kv)) fields)
  | _ => Raise TypeError
  end.

(** [int(f)] for a float: truncation toward zero. *)
Definition int_of_float (f : float) : py Z :=
  match Prim2SF f with
  | S754_zero _ => ret 0%Z
  | S754_infinity _ => Raise OverflowError
  | S754_nan => Raise ValueError
  | S754_finite s m e =>
      let mag := if (0 <=? e)%Z then Z.shiftl (Z.pos m) e
                 else Z.shiftr (Z.pos m) (- e) in
      ret (if s then (- mag)%Z else mag)
  end.

(** The two conversions of the interpreter that are kept abstract: the text
    [str()] gives a float, a list or a dict, and the integer [int()] reads
    from a string. *)
Class Builtins : Type := {
  str_of_compound : json -> pystr;
  int_of_str : pystr -> py Z
}.

Definition str_of_Z (z : Z) : pystr :=
  lit (NilEmpty.string_of_int (Z.to_int z)).

Section WithBuiltins.
Context {builtins : Builtins}.

(** [int(v)] *)
Definition py_int (v : json) : py Z :=
  match v with
  | JInt z => ret z
  | JBool b => ret (if b then 1 else 0)%Z
  | JFloat f => int_of_float f
  | JStr s => int_of_str s
  | _ => Raise TypeError
  end.

(** [f"{v}"] *)
Definition py_format (v : json) : pystr :=
  match v with
  | JStr s => s
  | JNull => lit "None"
  | JBool true => lit "True"
  | JBool false => lit "False"
  | JInt z => str_of_Z z
  | _ => str_of_compound v
  end.

End WithBuiltins.

(* ================================================================= *)
(** ** The session: [MusicAPI.__init__], [create_session], [close_session] *)

(** An [aiohttp.ClientSession]: its [closed] flag and the timeout it was
    built with. *)
Record ClientSession : Type := {
  closed : bool;
  client_timeout : Z
}.

(** The attributes of a [MusicAPI] object; [session] is [None] or a
    reference to a [ClientSession] object. *)
Record MusicAPI : Type := {
  base_url : pystr;
  lyrics_url : pystr;
  search_url : pystr;
  trending_url : pystr;
  lastfm_url : pystr;
  session : option nat;
  timeout : Z
}.

(** The process: the [music_api] object, every [ClientSession] constructed
    so far (a reference is an index into this list) and what
    [os.getenv('LASTFM_API_KEY')] returns. *)
Record world : Type := {
  api : MusicAPI;
  sessions : list ClientSession;
  lastfm_api_key : option pystr
}.

(** [MusicAPI.__init__], lines 20-27. *)
Definition MusicAPI_init : MusicAPI := {|
  base_url := lit "https://musicbrainz.org/ws/2/";
  lyrics_url := lit "https://api.lyrics.ovh/v1/";
  search_url := lit "https://api.deezer.com/search";
  trending_url := lit "https://api.deezer.com/editorial/0/charts";
  lastfm_url := lit "http://ws.audioscrobbler.com/2.0/";
  session := None;
  timeout := 10
|}.

Definition startup (key : option pystr) : world := {|
  api := MusicAPI_init;
  sessions := [];
  lastfm_api_key := key
|}.

Definition with_session (a : MusicAPI) (s : option nat) : MusicAPI := {|
  base_url := base_url a;
  lyrics_url := lyrics_url a;
  search_url := search_url a;
  trending_url := trending_url a;
  lastfm_url := lastfm_url a;
  session := s;
  timeout := timeout a
|}.

(** The object [self.session] refers to, if any. *)
Definition the_session (w : world) : option ClientSession :=
  match session (api w) with
  | Some i => nth_error (sessions w) i
  | None => None
  end.

(** [self.session = aiohttp.ClientSession(connector=..., timeout=self.timeout)] *)
Definition new_session (w : world) : world := {|
  api := with_session (api w) (Some (length (sessions w)));
  sessions := sessions w
              ++ [ {| closed := false; client_timeout := timeout (api w) |} ];
  lastfm_api_key := lastfm_api_key w
|}.

(** [MusicAPI.create_session], lines 29-32:
    [if not self.session or self.session.closed: ...] *)
Definition create_session (w : world) : world :=
  match the_session w with
  | None => new_session w
  | Some s => if closed s then new_session w else w
  end.

Fixpoint set_nth {A} (i : nat) (x : A) (l : list A) : list A :=
  match l, i with
  | [], _ => []
  | _ :: l', O => x :: l'
  | y :: l', S j => y :: set_nth j x l'
  end.

(** [MusicAPI.close_session], lines 34-36:
    [if self.session and not self.session.closed: await self.session.close()] *)
Definition close_session (w : world) : world :=
  match session (api w), the_session w with
  | Some i, Some s =>
      if closed s then w
      else {| api := api w;
              sessions := set_nth i {| closed := true;
                                       client_timeout := client_timeout s |}
                                  (sessions w);
              lastfm_api_key := lastfm_api_key w |}
  | _, _ => w
  end.

(** Pools ever allocated, and pools still open. *)
Definition allocations (w : world) : nat := length (sessions w).

Definition live_pools (w : world) : nat :=
  length (filter (fun s => negb (closed s)) (sessions w)).

Definition session_open (w : world) : bool :=
  match the_session w with
  | Some s => negb (closed s)
  | None => false
  end.

(* ================================================================= *)
(** ** The transport *)

Record request : Type := {
  req_url : pystr;
  req_params : option (list (pystr * json))
}.

(** What a GET does: [session.get] raises, or a response arrives with its
    status and with what [await response.json()] will do. *)
Inductive http_outcome : Type :=
| GetRaises (e : exn)
| Replied (status : Z) (body : py json).

Definition network := request -> http_outcome.

Record response : Type := {
  status : Z;
  json_body : py json
}.

(** [session.get] builds the URL with its query string before anything is
    sent, and refuses a parameter whose value is [None] with [TypeError].
    (The values this program passes are strings, the integers of [limit]
    and, for an unset API key, [None].) *)
Definition sendable (r : request) : bool :=
  match req_params r with
  | None => true
  | Some params =>
      forallb (fun kv => match snd kv with JNull => false | _ => true end)
              params
  end.

(** What a GET of [r] does: the request reaches the network only when it
    can be built. *)
Definition answer (net : network) (r : request) : http_outcome :=
  if sendable r then net r else GetRaises TypeError.

(** [self.session.get(url, params=params)] *)
Definition session_get (net : network) (w : world) (r : request) : py response :=
  match session (api w) with
  | None => Raise AttributeError
  | Some _ =>
      match the_session w with
      | None => Raise AttributeError
      | Some s =>
          if closed s then Raise RuntimeError
          else match answer net r with
               | GetRaises e => Raise e
               | Replied st body => ret {| status := st; json_body := body |}
               end
      end
  end.

Section Adapters.
Context {builtins : Builtins}.
Variable net : network.

(** [MusicAPI.fetch_json], lines 38-52. *)
Definition fetch_json (w : world) (url : pystr)
           (params : option (list (pystr * json))) : world * py json :=
  let w := create_session w in
  (w,
   try_except
     (response <- session_get net w {| req_url := url; req_params := params |} ;;
      if (status response =? 200)%Z
      then json_body response
      else ret JNull)
     (fun e =>
        match e with
        | TimeoutError => ret JNull    (* except asyncio.TimeoutError *)
        | _ => ret JNull               (* except Exception *)
        end)).

(** [data and key in data] *)
Definition truthy_and_in (data : json) (key : pystr) : py bool :=
  if py_truthy data then py_in key data else ret false.

(** [MusicAPI.get_lyrics], lines 54-63. *)
Definition get_lyrics (w : world) (artist title : pystr) : world * py json :=
  let url := lyrics_url (api w) ++ artist ++ lit "/" ++ title in
  let '(w, fetched) := fetch_json w url None in
  (w,
   data <- fetched ;;
   has_lyrics <- truthy_and_in data (lit "lyrics") ;;
   if has_lyrics then py_getitem data (lit "lyrics")
   else
     has_error <- truthy_and_in data (lit "error") ;;
     if has_error
     then e <- py_getitem data (lit "error") ;;
          ret (JStr (lit "Error: " ++ py_format e))
     else ret JNull).

(** The dict [_format_track] builds. *)
Record TrackRecord : Type := {
  track_title : json;
  track_artist : json;
  track_album : pystr;
  track_duration : Z;
  track_url : pystr;
  track_tags : list json
}.

(** [MusicAPI._format_track], lines 91-109.  The values of the dict are
    computed in the order of the source: [artist] at line 100, then the
    entries of the dict display from top to bottom. *)
Definition _format_track (recording : json) : py TrackRecord :=
  let album := JStr (lit "Unknown Album") in
  let release_date := lit "" in
  has_releases <- py_in (lit "releases") recording ;;
  nonempty <- (if has_releases
               then r <- py_getitem recording (lit "releases") ;; ret (py_truthy r)
               else ret false) ;;
  '(album, release_date) <-
     (if nonempty
      then releases <- py_getitem recording (lit "releases") ;;
           release <- py_first releases ;;
           album <- py_get release (lit "title") album ;;
           has_date <- py_in (lit "date") release ;;
           if has_date
           then d <- py_getitem release (lit "date") ;;
                ret (album, lit " (" ++ py_format d ++ lit ")")
           else ret (album, release_date)
      else ret (album, release_date)) ;;
  credit <- py_get recording (lit "artist-credit") (JArr [JObj []]) ;;
  first_credit <- py_first credit ;;
  artist <- py_get first_credit (lit "name") (JStr (lit "Unknown Artist")) ;;
  title <- py_get recording (lit "title") (JStr (lit "Unknown Track")) ;;
  length_ms <- py_get recording (lit "length") (JInt 0) ;;
  ms <- py_int length_ms ;;
  id <- py_getitem recording (lit "id") ;;
  tags <- py_get recording (lit "tags") (JArr []) ;;
  first_tags <- py_slice_to 3 tags ;;
  tag_list <- py_iter first_tags ;;
  names <- py_map (fun tag => py_getitem tag (lit "name")) tag_list ;;
  ret {| track_title := title;
         track_artist := artist;
         track_album := py_format album ++ release_date;
         track_duration := (ms / 1000)%Z;
         track_url := lit "https://musicbrainz.org/recording/" ++ py_format id;
         track_tags := names |}.

Definition search_params (artist title : pystr) : list (pystr * json) :=
  [ (lit "query",
     JStr (lit "artist:" ++ dquote ++ artist ++ dquote
           ++ lit " AND recording:" ++ dquote ++ title ++ dquote));
    (lit "fmt", JStr (lit "json"));
    (lit "limit", JInt 1) ].

(** [MusicAPI.search_track], lines 65-89. *)
Definition search_track (w : world) (artist title : pystr)
  : world * py (option TrackRecord) :=
  let w := create_session w in
  let params := search_params artist title in
  (w,
   try_except
     (response <- session_get net w
                    {| req_url := base_url (api w) ++ lit "recording/";
                       req_params := Some params |} ;;
      if (status response =? 200)%Z
      then data <- json_body response ;;
           recordings <- py_get data (lit "recordings") JNull ;;
           if py_truthy recordings
           then all <- py_getitem data (lit "recordings") ;;
                recording <- py_first all ;;
                track <- _format_track recording ;;
                ret (Some track)
           else ret None
      else ret None)
     (fun _ => ret None)).

(** [MusicAPI.get_trending], lines 111-120. *)
Definition get_trending (w : world) : world * py json :=
  let w := create_session w in
  (w,
   try_except
     (response <- session_get net w
                    {| req_url := trending_url (api w); req_params := None |} ;;
      if (status response =? 200)%Z
      then data <- json_body response ;;
           tracks <- py_get data (lit "tracks") (JObj []) ;;
           entries <- py_get tracks (lit "data") (JArr []) ;;
           py_slice_to 10 entries
      else ret (JArr []))
     (fun _ => ret (JArr []))).

(** The [params] dict of [get_recommendations] (lines 125-131) and of
    [get_mood_songs] (lines 143-149): the two are the same text. *)
Definition top_tracks_params (w : world) (tag : pystr) : list (pystr * json) :=
  [ (lit "method", JStr (lit "tag.gettoptracks"));
    (lit "tag", JStr tag);
    (lit "api_key",
     match lastfm_api_key w with Some k => JStr k | None => JNull end);
    (lit "format", JStr (lit "json"));
    (lit "limit", JInt 5) ].

(** [MusicAPI.get_recommendations], lines 122-138. *)
Definition get_recommendations (w : world) (genre : pystr)
  : world * py (list json) :=
  let w := create_session w in
  (w,
   try_except
     (let params := top_tracks_params w genre in
      response <- session_get net w
                    {| req_url := lastfm_url (api w);
                       req_params := Some params |} ;;
      if (status response =? 200)%Z
      then data <- json_body response ;;
           tracks <- py_get data (lit "tracks") (JObj []) ;;
           track <- py_get tracks (lit "track") (JArr []) ;;
           each <- py_iter track ;;
           py_map (fun track => py_getitem track (lit "name")) each
      else ret [])
     (fun _ => ret [])).

(** [MusicAPI.get_mood_songs], lines 140-159. *)
Definition get_mood_songs (w : world) (mood : pystr)
  : world * py (list pystr) :=
  let w := create_session w in
  (w,
   try_except
     (let params := top_tracks_params w mood in
      response <- session_get net w
                    {| req_url := lastfm_url (api w);
                       req_params := Some params |} ;;
      if (status response =? 200)%Z
      then data <- json_body response ;;
           tracks <- py_get data (lit "tracks") (JObj []) ;;
           track <- py_get tracks (lit "track") (JArr []) ;;
           each <- py_iter track ;;
           py_map (fun track =>
                     name <- py_getitem track (lit "name") ;;
                     artist <- py_getitem track (lit "artist") ;;
                     artist_name <- py_getitem artist (lit "name") ;;
                     ret (py_format name ++ lit " - " ++ py_format artist_name))
                  each
      else ret [])
     (fun _ => ret [])).

End Adapters.

(* ================================================================= *)
(** ** The query parsing of [lyrics_command] *)

Definition separators : list pystr := [lit " by "; lit " - "; lit " | "].

(** Lines 175-182: the [for sep in separators] loop, returning
    [(artist, title)]; both are [None] when no separator matched. *)
Fixpoint split_query (seps : list pystr) (query : pystr)
  : py (option pystr * option pystr) :=
  match seps with
  | [] => ret (None, None)
  | sep :: rest =>
      if str_in sep query
      then parts <- str_split sep (Some 1) query ;;
           part0 <- list_index parts 0 ;;
           part1 <- list_index parts 1 ;;
           let title := strip part0 in
           let artist := strip part1 in
           ret (Some artist, Some title)
      else split_query rest query
  end.

(** [not artist] where [artist] is [None] or a string. *)
Definition py_not (v : option pystr) : bool :=
  match v with
  | None => true
  | Some s => Nat.eqb (length s) 0
  end.

(** [artist.split(' ft.')[0].split(' feat.')[0].strip()] *)
Definition clean_artist (artist : pystr) : py pystr :=
  by_ft <- str_split (lit " ft.") None artist ;;
  head <- list_index by_ft 0 ;;
  by_feat <- str_split (lit " feat.") None head ;;
  head <- list_index by_feat 0 ;;
  ret (strip head).

(** [title.split(' (')[0].strip()] *)
Definition clean_title (title : pystr) : py pystr :=
  by_paren <- str_split (lit " (") None title ;;
  head <- list_index by_paren 0 ;;
  ret (strip head).

Inductive parse_result : Type :=
| Parsed (title artist : pystr)
| ParseFailure.

(** Lines 174-184 and 193-194 of [lyrics_command]: the loop, the test
    [if not artist] whose true branch leaves the parser for the provider
    lookup, and the two clean-up assignments. *)
Definition parse_query (query : pystr) : py parse_result :=
  '(artist, title) <- split_query separators query ;;
  if py_not artist then ret ParseFailure
  else
    match artist, title with
    | Some artist, Some title =>
        artist <- clean_artist artist ;;
        title <- clean_title title ;;
        ret (Parsed title artist)
    | _, _ => Raise AttributeError
    end.

(** A call of [search_track] binds its positional arguments to the
    parameters [(artist, title)] before the body runs. *)
Definition bind_search_track (args : list pystr) : py (pystr * pystr) :=
  match args with
  | [artist; title] => ret (artist, title)
  | _ => Raise TypeError
  end.

(** Line 185, [music_api.search_track(query)], reached on a parse failure. *)
Definition lookup_call (query : pystr) : py (pystr * pystr) :=
  bind_search_track [query].

(** The [(title, artist)] that reach [get_lyrics] at line 198. *)
Definition lyrics_query (query : pystr) : py (pystr * pystr) :=
  parsed <- parse_query query ;;
  match parsed with
  | Parsed title artist => ret (title, artist)
  | ParseFailure => lookup_call query
  end.

(* ================================================================= *)
(** ** The specification's vocabulary *)

(** [s] is [before ++ sep ++ after] and this is the first occurrence of
    [sep] in [s]. *)
Definition first_occurrence (sep s before after : pystr) : Prop :=
  s = before ++ sep ++ after
  /\ forall i, i < length before -> startswith sep (skipn i s) = false.

(** [sep] is the separator of highest priority that occurs in [query]. *)
Definition chosen_separator (sep query : pystr) : Prop :=
  exists earlier later,
    separators = earlier ++ sep :: later
    /\ str_in sep query = true
    /\ forall s, In s earlier -> str_in s query = false.

Definition has_separator (query : pystr) : bool :=
  existsb (fun sep => str_in sep query) separators.

(** [s] cut at the first place where one of [marks] starts. *)
Fixpoint truncate_at (marks : list pystr) (s : pystr) : pystr :=
  if existsb (fun m => startswith m s) marks then []
  else match s with
       | [] => []
       | c :: s' => c :: truncate_at marks s'
       end.

(** The parser as section 4.6 of the specification words it. *)
Definition spec_title (before : pystr) : pystr :=
  strip (truncate_at [lit " ("] (strip before)).

Definition spec_artist (after : pystr) : pystr :=
  strip (truncate_at [lit " ft."; lit " feat."] (strip after)).

(** A "title - artist" string whose two sides are already clean. *)
Definition well_formed_dash (title artist : pystr) : Prop :=
  strip title = title /\ strip artist = artist /\ artist <> []
  /\ str_in (lit " by ") (title ++ lit " - " ++ artist) = false
  /\ first_occurrence (lit " - ") (title ++ lit " - " ++ artist) title artist
  /\ str_in (lit " (") title = false
  /\ str_in (lit " ft.") artist = false
  /\ str_in (lit " feat.") artist = false.

(* ----------------------------------------------------------------- *)
(** *** Requests and provider responses, as the specification names them *)

Definition recording_request (w : world) (artist title : pystr) : request :=
  {| req_url := base_url (api w) ++ lit "recording/";
     req_params := Some (search_params artist title) |}.

Definition lyrics_request (w : world) (artist title : pystr) : request :=
  {| req_url := lyrics_url (api w) ++ artist ++ lit "/" ++ title;
     req_params := None |}.

Definition chart_request (w : world) : request :=
  {| req_url := trending_url (api w); req_params := None |}.

Definition top_tracks_request (w : world) (tag : pystr) : request :=
  {| req_url := lastfm_url (api w);
     req_params := Some (top_tracks_params w tag) |}.

(** The call failed: the GET raised, the status is not 200, or the body
    could not be decoded. *)
Definition failed (o : http_outcome) : Prop :=
  match o with
  | GetRaises _ => True
  | Replied st body =>
      st <> 200%Z \/ exists e, body = Raise e
  end.

(** The body lists [recs] under ["recordings"]. *)
Definition recordings_of (body : json) (recs : list json) : Prop :=
  exists d, body = JObj d
            /\ dict_lookup (lit "recordings") d = Some (JArr recs).

(** The body lists [entries] under [outer] then [inner]. *)
Definition listed_under (outer inner : pystr) (body : json)
           (entries : list json) : Prop :=
  exists d t, body = JObj d
              /\ dict_lookup outer d = Some (JObj t)
              /\ dict_lookup inner t = Some (JArr entries).

Definition chart_of := listed_under (lit "tracks") (lit "data").
Definition top_tracks_of := listed_under (lit "tracks") (lit "track").

Definition field_or (key : pystr) (d : dict) (default : json) : json :=
  match dict_lookup key d with
  | Some v => v
  | None => default
  end.

Definition has_field (key : pystr) (d : dict) : bool :=
  match dict_lookup key d with
  | Some _ => true
  | None => false
  end.

(** A tag that carries a name. *)
Definition named_tag (tag : json) : bool :=
  match tag with
  | JObj t => has_field (lit "name") t
  | _ => false
  end.

Definition tag_name (tag : json) : json :=
  match tag with
  | JObj t => field_or (lit "name") t JNull
  | _ => JNull
  end.

(** A recording as the provider sends it: an identifier, and where the
    optional fields are present they have the provider's shapes. *)
Definition provider_recording (r : dict) : bool :=
  has_field (lit "id") r
  && match dict_lookup (lit "length") r with
     | None | Some (JInt _) => true
     | _ => false
     end
  && match dict_lookup (lit "releases") r with
     | None => true
     | Some v => negb (py_truthy v)
                 || match v with
                    | JArr (JObj _ :: _) => true
                    | _ => false
                    end
     end
  && match dict_lookup (lit "artist-credit") r with
     | None | Some (JArr (JObj _ :: _)) => true
     | _ => false
     end
  && match dict_lookup (lit "tags") r with
     | None => true
     | Some (JArr tags) => forallb named_tag (firstn 3 tags)
     | _ => false
     end.

Definition first_release (r : dict) : option dict :=
  match dict_lookup (lit "releases") r with
  | Some (JArr (JObj release :: _)) => Some release
  | _ => None
  end.

Definition expected_duration (r : dict) : Z :=
  match dict_lookup (lit "length") r with
  | Some (JInt ms) => (ms / 1000)%Z
  | _ => 0%Z
  end.

Definition expected_artist (r : dict) : json :=
  match dict_lookup (lit "artist-credit") r with
  | Some (JArr (JObj credit :: _)) =>
      field_or (lit "name") credit (JStr (lit "Unknown Artist"))
  | _ => JStr (lit "Unknown Artist")
  end.

Definition expected_tags (r : dict) : list json :=
  match dict_lookup (lit "tags") r with
  | Some (JArr tags) => map tag_name (firstn 3 tags)
  | _ => []
  end.

(** The name of a top-tracks entry and of its artist, when they are strings. *)
Definition entry_name (e : json) : option pystr :=
  match e with
  | JObj f =>
      match dict_lookup (lit "name") f with
      | Some (JStr s) => Some s
      | _ => None
      end
  | _ => None
  end.

Definition entry_artist (e : json) : option pystr :=
  match e with
  | JObj f =>
      match dict_lookup (lit "artist") f with
      | Some (JObj a) =>
          match dict_lookup (lit "name") a with
          | Some (JStr s) => Some s
          | _ => None
          end
      | _ => None
      end
  | _ => None
  end.

Definition is_some {A} (o : option A) : bool :=
  match o with
  | Some _ => true
  | None => false
  end.

Definition well_formed_track (e : json) : bool :=
  is_some (entry_name e) && is_some (entry_artist e).

Definition or_empty (o : option pystr) : pystr :=
  match o with
  | Some s => s
  | None => []
  end.

Definition bare_name (e : json) : json := JStr (or_empty (entry_name e)).

Definition name_dash_artist (e : json) : pystr :=
  or_empty (entry_name e) ++ lit " - " ++ or_empty (entry_artist e).

(** The shape section 3 of the specification gives a trending entry. *)
Definition reduced_entry (e : json) : Prop :=
  exists title artist_name,
    e = JObj [(lit "title", title); (lit "artistName", artist_name)].

Section SpecRecords.
Context {builtins : Builtins}.

Definition expected_album (r : dict) : pystr :=
  match first_release r with
  | Some release =>
      py_format (field_or (lit "title") release (JStr (lit "Unknown Album")))
      ++ match dict_lookup (lit "date") release with
         | Some d => lit " (" ++ py_format d ++ lit ")"
         | None => []
         end
  | None => lit "Unknown Album"
  end.

(** The record section 4.2 of the specification describes. *)
Definition normalized (r : dict) : TrackRecord := {|
  track_title := field_or (lit "title") r (JStr (lit "Unknown Track"));
  track_artist := expected_artist r;
  track_album := expected_album r;
  track_duration := expected_duration r;
  track_url := lit "https://musicbrainz.org/recording/"
               ++ py_format (field_or (lit "id") r JNull);
  track_tags := expected_tags r
|}.

End SpecRecords.

(** The states the process can be in: it starts with no session, and the
    session only changes through [create_session] and [close_session]. *)
Inductive reachable : world -> Prop :=
| reach_startup : forall key, reachable (startup key)
| reach_create : forall w, reachable w -> reachable (create_session w)
| reach_close : forall w, reachable w -> reachable (close_session w).

(** An entry of the top-tracks list that lacks its name, or its artist. *)
Definition nameless (e : json) : Prop :=
  exists f, e = JObj f /\ dict_lookup (lit "name") f = None.

Definition artistless (e : json) : Prop :=
  exists f, e = JObj f /\ dict_lookup (lit "artist") f = None.

(** Every pool that is still open is the one [self.session] refers to. *)
Definition only_current_open (w : world) : Prop :=
  forall i s, nth_error (sessions w) i = Some s -> closed s = false ->
              session (api w) = Some i.

(* ================================================================= *)
(** ** The chat commands *)

Set Warnings "-abstract-large-number".

(** Characters of the source that are not ASCII, and the line feed. *)
Definition newline : pystr := [10%N].
Definition cross_mark : pystr := [10060%N].      (* U+274C *)
Definition check_mark : pystr := [9989%N].       (* U+2705 *)
Definition musical_note : pystr := [127925%N].   (* U+1F3B5 *)
Definition headphone : pystr := [127911%N].      (* U+1F3A7 *)
Definition musical_notes : pystr := [127926%N].  (* U+1F3B6 *)

(** [discord.Color.blue()] and the like. *)
Inductive colour : Type := blue | gold | green | purple | blurple.

(** A field added with [embed.add_field(name=..., value=..., inline=...)];
    the library stores [str(name)] and [str(value)]. *)
Record EmbedField : Type := {
  field_name : pystr;
  field_value : pystr;
  field_inline : bool
}.

(** A [discord.Embed]. *)
Record Embed : Type := {
  embed_title : pystr;
  embed_description : option pystr;
  embed_color : colour;
  embed_url : option pystr;
  embed_timestamp : option Z;
  embed_footer : option pystr;
  embed_fields : list EmbedField
}.

(** What [ctx.send] is given: a text or an embed. *)
Inductive message : Type :=
| Text (content : pystr)
| Rich (embed : Embed).

(** What [ctx.send] does with a message: [None] when the message is
    delivered, [Some e] when the call raises [e] and nothing is delivered
    ([discord.HTTPException] when Discord refuses the message, as it does
    for a content of more than 2000 characters or an embed of more than 25
    fields). *)
Definition channel := message -> option exn.

(** The channel that delivers every message. *)
Definition delivering : channel := fun _ => None.

(** A run of a command from a state [S]: the state it leaves, the messages
    it sent, in order, and how it ended.  A message sent before an exception
    stays sent. *)
Record ran (S A : Type) : Type := {
  ran_state : S;
  ran_sent : list message;
  ran_outcome : py A
}.

Definition cmd (S A : Type) : Type := S -> ran S A.

Definition cmd_ret {S A} (a : A) : cmd S A :=
  fun s => {| ran_state := s; ran_sent := []; ran_outcome := Ok a |}.

Definition cmd_bind {S A B} (c : cmd S A) (k : A -> cmd S B) : cmd S B :=
  fun s =>
    let r := c s in
    match ran_outcome r with
    | Ok a =>
        let r' := k a (ran_state r) in
        {| ran_state := ran_state r';
           ran_sent := ran_sent r ++ ran_sent r';
           ran_outcome := ran_outcome r' |}
    | Raise e =>
        {| ran_state := ran_state r;
           ran_sent := ran_sent r;
           ran_outcome := Raise e |}
    end.

(** [await ctx.send(m)] *)
Definition send {S} (ch : channel) (m : message) : cmd S unit :=
  fun s =>
    match ch m with
    | None => {| ran_state := s; ran_sent := [m]; ran_outcome := Ok tt |}
    | Some e => {| ran_state := s; ran_sent := []; ran_outcome := Raise e |}
    end.

(** A computation that touches neither the state nor the channel. *)
Definition lift {S A} (c : py A) : cmd S A :=
  fun s => {| ran_state := s; ran_sent := []; ran_outcome := c |}.

(** A call of a method of [music_api]. *)
Definition call {S A} (f : S -> S * py A) : cmd S A :=
  fun s => {| ran_state := fst (f s); ran_sent := []; ran_outcome := snd (f s) |}.

Definition get_state {S} : cmd S S :=
  fun s => {| ran_state := s; ran_sent := []; ran_outcome := Ok s |}.

Definition put_state {S} (s : S) : cmd S unit :=
  fun _ => {| ran_state := s; ran_sent := []; ran_outcome := Ok tt |}.

Declare Scope cmd_scope.
Delimit Scope cmd_scope with cmd.
Notation "x <- c ;; k" := (cmd_bind c (fun x => k))
  (at level 100, c at next level, right associativity) : cmd_scope.
Notation "' p <- c ;; k" := (cmd_bind c (fun p => k))
  (at level 100, p pattern, c at next level, right associativity) : cmd_scope.
Notation "c ;;; k" := (cmd_bind c (fun _ => k))
  (at level 100, right associativity) : cmd_scope.

(** [for m in ms: await ctx.send(m)] *)
Fixpoint send_each {S} (ch : channel) (ms : list message) : cmd S unit :=
  match ms with
  | [] => cmd_ret tt
  | m :: ms' => cmd_bind (send ch m) (fun _ => send_each ch ms')
  end.

(** [len(v)] *)
Definition py_len (v : json) : py nat :=
  match v with
  | JStr s => ret (length s)
  | JArr items => ret (length items)
  | JObj fields => ret (length fields)
  | _ => Raise TypeError
  end.

(** [v[i:j]] for [0 <= i <= j]. *)
Definition py_slice (v : json) (i j : nat) : py json :=
  match v with
  | JStr s => ret (JStr (firstn (j - i) (skipn i s)))
  | JArr items => ret (JArr (firstn (j - i) (skipn i items)))
  | _ => Raise TypeError
  end.

(** [range(start, stop, step)] for a positive [step]: its length is
    [(stop - start + step - 1) // step]. *)
Definition py_range (start stop step : nat) : list nat :=
  map (fun k => start + k * step) (seq 0 ((stop - start + (step - 1)) / step)).

(** [enumerate(l, 1)] *)
Definition enumerate_from_1 {A} (l : list A) : list (nat * A) :=
  combine (seq 1 (length l)) l.

(** [f"{i}"] for a loop counter. *)
Definition str_of_nat (i : nat) : pystr := str_of_Z (Z.of_nat i).

(** [sep.join(l)] for strings. *)
Fixpoint join (sep : pystr) (l : list pystr) : pystr :=
  match l with
  | [] => []
  | [s] => s
  | s :: l' => s ++ sep ++ join sep l'
  end.

(** [sep.join(l)] for decoded values: every item must be a [str]. *)
Definition py_join (sep : pystr) (l : list json) : py pystr :=
  strs <- py_map (fun v => match v with
                           | JStr s => ret s
                           | _ => Raise TypeError
                           end) l ;;
  ret (join sep strs).

(** [format(n, "02d")]: decimal, sign first, zeros up to two characters. *)
Definition format_02d (n : Z) : pystr :=
  let sign := if (n <? 0)%Z then lit "-" else [] in
  let digits := str_of_Z (Z.abs n) in
  sign ++ repeat 48%N (2 - length sign - length digits) ++ digits.

(** The two methods of [str] whose tables are kept abstract. *)
Class Casing : Type := {
  str_lower : pystr -> pystr;
  str_title : pystr -> pystr
}.

(** The numbers of lines 203 and 206. *)
Definition chunk_size : nat := 1900.
Definition lyrics_limit : nat := 5700.

(** Line 203:
    [[lyrics[i:i+1900] for i in range(0, min(len(lyrics), 5700), 1900)]] *)
Definition lyrics_chunks (lyrics : json) : py (list json) :=
  n <- py_len lyrics ;;
  py_map (fun i => py_slice lyrics i (i + chunk_size))
         (py_range 0 (Nat.min n lyrics_limit) chunk_size).

(** The split of [track_info], lines 211-213, returning [(title, artist)]. *)
Definition track_parse (query : pystr) : py (pystr * option pystr) :=
  parts <- (if str_in (lit " - ") query
            then str_split (lit " - ") (Some 1) query
            else str_split (lit " by ") (Some 1) query) ;;
  part0 <- list_index parts 0 ;;
  let title := strip part0 in
  artist <- (if Nat.ltb 1 (length parts)
             then part1 <- list_index parts 1 ;; ret (Some (strip part1))
             else ret None) ;;
  ret (title, artist).

(** Lines 236-237: [mins, secs = divmod(duration, 60)] and
    [f"{mins}:{secs:02d}"]. *)
Definition duration_text (duration : Z) : pystr :=
  let mins := (duration / 60)%Z in
  let secs := (duration mod 60)%Z in
  str_of_Z mins ++ lit ":" ++ format_02d secs.

Definition add_field (e : Embed) (name value : pystr) (inline : bool) : Embed :=
  {| embed_title := embed_title e;
     embed_description := embed_description e;
     embed_color := embed_color e;
     embed_url := embed_url e;
     embed_timestamp := embed_timestamp e;
     embed_footer := embed_footer e;
     embed_fields := embed_fields e
                     ++ [ {| field_name := name; field_value := value;
                             field_inline := inline |} ] |}.

(** The fields [1.], [2.], ... of a numbered list. *)
Definition numbered_fields (values : list pystr) : list EmbedField :=
  map (fun iv => {| field_name := str_of_nat (fst iv) ++ lit ".";
                    field_value := snd iv;
                    field_inline := false |})
      (enumerate_from_1 values).

Section Commands.
Context {builtins : Builtins} {casing : Casing}.
Variable net : network.
Variable ch : channel.

(** Lines 203-207 of [lyrics_command]. *)
Definition send_lyrics (lyrics : json) : cmd world unit :=
  (chunks <- lift (lyrics_chunks lyrics) ;;
   send_each ch (map (fun chunk =>
                     Text (lit "```" ++ newline ++ py_format chunk
                           ++ newline ++ lit "```"))
                  chunks) ;;;
   n <- lift (py_len lyrics) ;;
   if Nat.ltb lyrics_limit n
   then send ch (Text (lit "Lyrics truncated due to length..."))
   else cmd_ret tt)%cmd.

(** [lyrics_command], lines 171-207. *)
Definition lyrics_command (query : pystr) : cmd world unit :=
  (send ch (Text (lit "Searching lyrics for: **" ++ query ++ lit "**...")) ;;;
   ' (title, artist) <- lift (lyrics_query query) ;;
   lyrics <- call (fun w => get_lyrics net w artist title) ;;
   if negb (py_truthy lyrics)
   then send ch (Text (cross_mark ++ lit " Couldn't find lyrics for " ++ title
                    ++ lit " by " ++ artist))
   else send_lyrics lyrics)%cmd.

(** The embed of lines 226-241. *)
Definition track_embed (t : TrackRecord) : py Embed :=
  let embed :=
    {| embed_title := musical_note ++ lit " " ++ py_format (track_title t);
       embed_description := Some (lit "by " ++ py_format (track_artist t));
       embed_color := blue;
       embed_url := Some (track_url t);
       embed_timestamp := None;
       embed_footer := None;
       embed_fields := [] |} in
  let embed := add_field embed (lit "Album") (track_album t) true in
  let embed :=
    if (0 <? track_duration t)%Z
    then add_field embed (lit "Duration") (duration_text (track_duration t)) true
    else embed in
  if negb (Nat.eqb (length (track_tags t)) 0)
  then tags <- py_join (lit ", ") (track_tags t) ;;
       ret (add_field embed (lit "Tags") tags false)
  else ret embed.

(** [track_info], lines 210-243.  [if not artist] holds when [artist] is
    [None] or the empty string. *)
Definition track_info (query : pystr) : cmd world unit :=
  (' (title, artist) <- lift (track_parse query) ;;
   match artist with
   | Some (c :: rest) =>
       let artist := c :: rest in
       send ch (Text (lit "Searching for " ++ title ++ lit " by " ++ artist
                   ++ lit "...")) ;;;
       found <- call (fun w => search_track net w artist title) ;;
       match found with
       | None =>
           send ch (Text (cross_mark ++ lit " Couldn't find track information"))
       | Some t =>
           embed <- lift (track_embed t) ;;
           send ch (Rich embed)
       end
   | _ =>
       send ch (Text (cross_mark
                   ++ lit " Please specify both song and artist (e.g. `/track Hello - Adele`)"))
   end)%cmd.

(** The body of the loop of lines 260-267. *)
Definition trending_field (i : nat) (track : json) : py EmbedField :=
  by_artist <- py_getitem track (lit "artist") ;;
  artist <- py_getitem by_artist (lit "name") ;;
  title <- py_getitem track (lit "title") ;;
  ret {| field_name := str_of_nat i ++ lit ". " ++ py_format title;
         field_value := lit "by " ++ py_format artist;
         field_inline := false |}.

(** [trending_command], lines 246-270; [now] is [datetime.utcnow()]. *)
Definition trending_command (now : Z) : cmd world unit :=
  (send ch (Text (lit "Fetching trending tracks...")) ;;;
   trending <- call (get_trending net) ;;
   if negb (py_truthy trending)
   then send ch (Text (cross_mark
                    ++ lit " Couldn't fetch trending tracks at the moment."))
   else
     first_ten <- lift (py_slice_to 10 trending) ;;
     tracks <- lift (py_iter first_ten) ;;
     fields <- lift (py_map (fun it => trending_field (fst it) (snd it))
                            (enumerate_from_1 tracks)) ;;
     send ch (Rich {| embed_title := lit "Currently Trending";
                   embed_description := None;
                   embed_color := gold;
                   embed_url := None;
                   embed_timestamp := Some now;
                   embed_footer :=
                     Some (lit "Use /lyrics to get lyrics for any of these songs");
                   embed_fields := fields |}))%cmd.

(** [recommend_command], lines 273-289. *)
Definition recommend_command (genre : pystr) : cmd world unit :=
  (send ch (Text (lit "Getting " ++ genre ++ lit " recommendations...")) ;;;
   recommendations <-
     call (fun w => get_recommendations net w (str_lower genre)) ;;
   if Nat.eqb (length recommendations) 0
   then send ch (Text (cross_mark ++ lit " No recommendations found for " ++ genre
                    ++ lit ". Try pop, rock, hiphop, etc."))
   else
     send ch (Rich {| embed_title := musical_note ++ lit " " ++ str_title genre
                                  ++ lit " Recommendations";
                   embed_description := None;
                   embed_color := green;
                   embed_url := None;
                   embed_timestamp := None;
                   embed_footer := None;
                   embed_fields :=
                     numbered_fields (map py_format recommendations) |}))%cmd.

Definition common_moods : list pystr :=
  [lit "happy"; lit "sad"; lit "chill"; lit "energetic"; lit "romantic"].

(** [mood_command], lines 292-309. *)
Definition mood_command (mood : pystr) : cmd world unit :=
  (send ch (Text (lit "Finding " ++ mood ++ lit " songs...")) ;;;
   mood_songs <- call (fun w => get_mood_songs net w (str_lower mood)) ;;
   if Nat.eqb (length mood_songs) 0
   then send ch (Text (cross_mark ++ lit " No songs found for " ++ mood
                    ++ lit ". Try: " ++ join (lit ", ") common_moods))
   else
     send ch (Rich {| embed_title := headphone ++ lit " " ++ str_title mood
                                  ++ lit " Mood Songs";
                   embed_description := None;
                   embed_color := purple;
                   embed_url := None;
                   embed_timestamp := None;
                   embed_footer := None;
                   embed_fields := numbered_fields mood_songs |}))%cmd.

End Commands.

(** [on_disconnect], lines 366-367. *)
Definition on_disconnect : cmd world unit :=
  call (fun w => (close_session w, Ok tt)).

(* ----------------------------------------------------------------- *)
(** *** The playlists *)

(** The module-level dict [playlists]: user id to list of songs, in
    insertion order. *)
Definition playlists := list (pystr * list pystr).

Fixpoint pl_lookup (key : pystr) (d : playlists) : option (list pystr) :=
  match d with
  | [] => None
  | (k, v) :: d' => if str_eqb k key then Some v else pl_lookup key d'
  end.

(** [d[key] = v] *)
Fixpoint pl_set (key : pystr) (v : list pystr) (d : playlists) : playlists :=
  match d with
  | [] => [(key, v)]
  | (k, v') :: d' =>
      if str_eqb k key then (k, v) :: d' else (k, v') :: pl_set key v d'
  end.

(** [d[key]] *)
Definition pl_get (key : pystr) (d : playlists) : py (list pystr) :=
  match pl_lookup key d with
  | Some v => ret v
  | None => Raise KeyError
  end.

(** [song in l] *)
Definition song_in (song : pystr) (l : list pystr) : bool :=
  existsb (str_eqb song) l.

(** [l.remove(song)]: the first occurrence goes; [ValueError] without one. *)
Fixpoint list_remove (song : pystr) (l : list pystr) : py (list pystr) :=
  match l with
  | [] => Raise ValueError
  | s :: l' =>
      if str_eqb s song then ret l'
      else rest <- list_remove song l' ;; ret (s :: rest)
  end.

(** [ctx.author] *)
Record author : Type := {
  author_id : Z;
  author_name : pystr
}.

(** [action == word] for an [action] that may be [None]. *)
Definition is_action (action : option pystr) (word : pystr) : bool :=
  match action with
  | Some a => str_eqb a word
  | None => false
  end.

(** The truth value of [song], [None] or a string. *)
Definition given (song : option pystr) : bool := negb (py_not song).

Definition playlist_usage : pystr :=
  lit "Usage: `/playlist [add/remove/view/clear] [song]`" ++ newline
  ++ lit "Examples:" ++ newline
  ++ lit "`/playlist add AntiHero`" ++ newline
  ++ lit "`/playlist view`" ++ newline
  ++ lit "`/playlist remove AntiHero`" ++ newline
  ++ lit "`/playlist clear`".

(** [playlists[user_id]] and [playlists[user_id] = songs] *)
Definition my_playlist (user_id : pystr) : cmd playlists (list pystr) :=
  (d <- get_state ;; lift (pl_get user_id d))%cmd.

Definition set_my_playlist (user_id : pystr) (songs : list pystr)
  : cmd playlists unit :=
  (d <- get_state ;; put_state (pl_set user_id songs d))%cmd.

(** Lines 315-316: [if user_id not in playlists: playlists[user_id] = []] *)
Definition ensure_playlist (user_id : pystr) : cmd playlists unit :=
  (d <- get_state ;;
   match pl_lookup user_id d with
   | Some _ => cmd_ret tt
   | None => put_state (pl_set user_id [] d)
   end)%cmd.

(** [f"{song}"]; where the command appends or removes [song] it has tested
    it, so it is a string there. *)
Definition song_text (song : option pystr) : pystr :=
  match song with
  | Some s => s
  | None => lit "None"
  end.

(** [playlist_command], lines 312-353. *)
Definition playlist_command (ch : channel) (who : author)
           (action song : option pystr)
  : cmd playlists unit :=
  let user_id := str_of_Z (author_id who) in
  (ensure_playlist user_id ;;;
   if is_action action (lit "add") && given song then
     mine <- my_playlist user_id ;;
     set_my_playlist user_id (mine ++ [song_text song]) ;;;
     send ch (Text (check_mark ++ lit " Added '" ++ song_text song
                 ++ lit "' to your playlist!"))
   else if is_action action (lit "remove") && given song then
     mine <- my_playlist user_id ;;
     if song_in (song_text song) mine then
       rest <- lift (list_remove (song_text song) mine) ;;
       set_my_playlist user_id rest ;;;
       send ch (Text (check_mark ++ lit " Removed '" ++ song_text song
                   ++ lit "' from your playlist!"))
     else
       send ch (Text (cross_mark ++ lit " '" ++ song_text song
                   ++ lit "' not found in your playlist!"))
   else if is_action action (lit "clear") then
     set_my_playlist user_id [] ;;;
     send ch (Text (lit "Your playlist has been cleared!"))
   else if is_action action (lit "view")
           || match action with None => true | Some _ => false end then
     mine <- my_playlist user_id ;;
     if negb (Nat.eqb (length mine) 0) then
       send ch (Rich {| embed_title := musical_notes ++ lit " " ++ author_name who
                                    ++ lit "'s Playlist";
                     embed_description := None;
                     embed_color := blurple;
                     embed_url := None;
                     embed_timestamp := None;
                     embed_footer := None;
                     embed_fields := numbered_fields mine |})
     else
       send ch (Text (lit "Your playlist is empty! Use `/playlist add <song>` to add songs."))
   else
     send ch (Text playlist_usage))%cmd.

(* ----------------------------------------------------------------- *)
(** *** What the commands send *)

(** The pieces [l[0:k]], [l[k:2k]], ... of a list, [cnt] of them. *)
Definition pieces {A} (k cnt : nat) (l : list A) : list (list A) :=
  map (fun j => firstn k (skipn (j * k) l)) (seq 0 cnt).

(** The pieces of 1900 characters [lyrics_command] posts. *)
Definition lyrics_parts (text : pystr) : list pystr :=
  pieces chunk_size
         ((Nat.min (length text) lyrics_limit + (chunk_size - 1)) / chunk_size)
         text.

Definition code_block (text : pystr) : message :=
  Text (lit "```" ++ newline ++ text ++ newline ++ lit "```").

Definition searching_lyrics (query : pystr) : message :=
  Text (lit "Searching lyrics for: **" ++ query ++ lit "**...").

Definition no_lyrics (title artist : pystr) : message :=
  Text (cross_mark ++ lit " Couldn't find lyrics for " ++ title
        ++ lit " by " ++ artist).

Definition lyrics_truncated : message :=
  Text (lit "Lyrics truncated due to length...").

(** The two decimal digits of a number below 100. *)
Definition two_digits (n : Z) : pystr :=
  [(48 + Z.to_N (n / 10))%N; (48 + Z.to_N (n mod 10))%N].

Definition track_usage : message :=
  Text (cross_mark
        ++ lit " Please specify both song and artist (e.g. `/track Hello - Adele`)").

Definition searching_track (title artist : pystr) : message :=
  Text (lit "Searching for " ++ title ++ lit " by " ++ artist ++ lit "...").

Definition no_track : message :=
  Text (cross_mark ++ lit " Couldn't find track information").

Definition plain_field (name value : pystr) (inline : bool) : EmbedField :=
  {| field_name := name; field_value := value; field_inline := inline |}.

(** The fields of the embed of [track_info] for a track whose tags are the
    strings [names]. *)
Definition track_fields (t : TrackRecord) (names : list pystr)
  : list EmbedField :=
  [plain_field (lit "Album") (track_album t) true]
  ++ (if (0 <? track_duration t)%Z
      then [plain_field (lit "Duration") (duration_text (track_duration t)) true]
      else [])
  ++ match names with
     | [] => []
     | _ :: _ => [plain_field (lit "Tags") (join (lit ", ") names) false]
     end.

(** The title of a chart entry and the name of its artist. *)
Definition chart_title (e : json) : option json :=
  match e with
  | JObj f => dict_lookup (lit "title") f
  | _ => None
  end.

Definition chart_artist (e : json) : option json :=
  match e with
  | JObj f =>
      match dict_lookup (lit "artist") f with
      | Some (JObj a) => dict_lookup (lit "name") a
      | _ => None
      end
  | _ => None
  end.

Definition chart_shaped (e : json) : bool :=
  is_some (chart_title e) && is_some (chart_artist e).

Definition or_null (o : option json) : json :=
  match o with
  | Some v => v
  | None => JNull
  end.

Definition fetching_trending : message :=
  Text (lit "Fetching trending tracks...").

Definition no_trending : message :=
  Text (cross_mark ++ lit " Couldn't fetch trending tracks at the moment.").

Section Replies.
Context {builtins : Builtins}.

(** The field of the [i]-th entry of the chart. *)
Definition trending_line (i : nat) (e : json) : EmbedField :=
  {| field_name := str_of_nat i ++ lit ". "
                   ++ py_format (or_null (chart_title e));
     field_value := lit "by " ++ py_format (or_null (chart_artist e));
     field_inline := false |}.

End Replies.

Definition getting_recommendations (genre : pystr) : message :=
  Text (lit "Getting " ++ genre ++ lit " recommendations...").

Definition no_recommendations (genre : pystr) : message :=
  Text (cross_mark ++ lit " No recommendations found for " ++ genre
        ++ lit ". Try pop, rock, hiphop, etc.").

Definition finding_songs (mood : pystr) : message :=
  Text (lit "Finding " ++ mood ++ lit " songs...").

Definition no_mood_songs (mood : pystr) : message :=
  Text (cross_mark ++ lit " No songs found for " ++ mood
        ++ lit ". Try: happy, sad, chill, energetic, romantic").

(** A top-tracks entry whose name is a string. *)
Definition named (e : json) : bool := is_some (entry_name e).

(** The songs a user has in [playlists]; none for a user without an entry. *)
Definition songs_of (who : author) (d : playlists) : list pystr :=
  match pl_lookup (str_of_Z (author_id who)) d with
  | Some songs => songs
  | None => []
  end.

(** [l] without the first occurrence of [song]. *)
Fixpoint without_first (song : pystr) (l : list pystr) : list pystr :=
  match l with
  | [] => []
  | s :: l' => if str_eqb s song then l' else s :: without_first song l'
  end.

Definition playlist_added (song : pystr) : message :=
  Text (check_mark ++ lit " Added '" ++ song ++ lit "' to your playlist!").

Definition playlist_removed (song : pystr) : message :=
  Text (check_mark ++ lit " Removed '" ++ song ++ lit "' from your playlist!").

Definition playlist_missing (song : pystr) : message :=
  Text (cross_mark ++ lit " '" ++ song ++ lit "' not found in your playlist!").

Definition playlist_cleared : message :=
  Text (lit "Your playlist has been cleared!").

Definition playlist_empty : message :=
  Text (lit "Your playlist is empty! Use `/playlist add <song>` to add songs.").

Definition playlist_shown (who : author) (songs : list pystr) : message :=
  Rich {| embed_title := musical_notes ++ lit " " ++ author_name who
                         ++ lit "'s Playlist";
          embed_description := None;
          embed_color := blurple;
          embed_url := None;
          embed_timestamp := None;
          embed_footer := None;
          embed_fields := numbered_fields songs |}.

(** The first word after [/playlist]. *)
Definition the_action (word : string) : option pystr := Some (lit word).

(** [playlists] once lines 315-316 have run for [user_id]. *)
Definition ensured (user_id : pystr) (d : playlists) : playlists :=
  match pl_lookup user_id d with
  | Some _ => d
  | None => pl_set user_id [] d
  end.

(** The dict a run of [playlist_command] leaves and the message it sends,
    with the two lookups that cannot fail resolved. *)
Definition playlist_run (who : author) (action song : option pystr)
           (d : playlists) : playlists * message :=
  let user_id := str_of_Z (author_id who) in
  let d0 := ensured user_id d in
  let mine := songs_of who d in
  if is_action action (lit "add") && given song
  then (pl_set user_id (mine ++ [song_text song]) d0,
        playlist_added (song_text song))
  else if is_action action (lit "remove") && given song
  then if song_in (song_text song) mine
       then (pl_set user_id (without_first (song_text song) mine) d0,
             playlist_removed (song_text song))
       else (d0, playlist_missing (song_text song))
  else if is_action action (lit "clear")
  then (pl_set user_id [] d0, playlist_cleared)
  else if is_action action (lit "view")
          || match action with None => true | Some _ => false end
  then (d0, match mine with
            | [] => playlist_empty
            | _ :: _ => playlist_shown who mine
            end)
  else (d0, Text playlist_usage).

(** What becomes of messages handed to [ctx.send] one after the other: the
    ones delivered, and how the sending ends.  The first message the
    channel refuses ends it with the exception of [ctx.send]. *)
Fixpoint deliver (ch : channel) (ms : list message)
  : list message * py unit :=
  match ms with
  | [] => ([], Ok tt)
  | m :: ms' =>
      match ch m with
      | Some e => ([], Raise e)
      | None => (m :: fst (deliver ch ms'), snd (deliver ch ms'))
      end
  end.

(** The run of a command that hands [progress] to [ctx.send], then calls an
    adapter, which leaves the state [w'], then hands [rest], and raises
    nothing of its own. *)
Definition replies (ch : channel) (w w' : world) (progress : message)
           (rest : list message) : ran world unit :=
  {| ran_state := match ch progress with None => w' | Some _ => w end;
     ran_sent := fst (deliver ch (progress :: rest));
     ran_outcome := snd (deliver ch (progress :: rest)) |}.

(** The number of characters of [s] that are not white space. *)
Definition inked (s : pystr) : nat :=
  length (filter (fun c => negb (isspace c)) s).

(** Two states with the same URLs and the same API key. *)
Definition same_settings (w w' : world) : Prop :=
  base_url (api w) = base_url (api w')
  /\ lyrics_url (api w) = lyrics_url (api w')
  /\ trending_url (api w) = trending_url (api w')
  /\ lastfm_url (api w) = lastfm_url (api w')
  /\ lastfm_api_key w = lastfm_api_key w'.

(** Two runs that sent the same messages and ended the same way. *)
Definition same_reply {S A} (r r' : ran S A) : Prop :=
  ran_sent r = ran_sent r' /\ ran_outcome r = ran_outcome r'.

(* ----------------------------------------------------------------- *)
(** *** Sample responses *)

Definition hello_recording : dict :=
  [ (lit "id", JStr (lit "b1a9c0e9"));
    (lit "title", JStr (lit "Hello"));
    (lit "length", JInt 215000);
    (lit "artist-credit", JArr [JObj [(lit "name", JStr (lit "Adele"))]]);
    (lit "releases",
     JArr [JObj [(lit "title", JStr (lit "25"));
                 (lit "date", JStr (lit "2015-11-20"))]]);
    (lit "tags",
     JArr [JObj [(lit "name", JStr (lit "pop"))];
           JObj [(lit "name", JStr (lit "soul"))];
           JObj [(lit "name", JStr (lit "ballad"))];
           JObj [(lit "name", JStr (lit "british"))]]) ].

Definition recordings_response (recordings : list json) : json :=
  JObj [(lit "recordings", JArr recordings)].

Definition chart_entry (i : nat) : json :=
  JObj [ (lit "id", JInt (Z.of_nat i));
         (lit "title", JStr (lit "Track"));
         (lit "artist", JObj [ (lit "id", JInt 27);
                               (lit "name", JStr (lit "Artist")) ]) ].

Definition chart_response (n : nat) : json :=
  JObj [(lit "tracks", JObj [(lit "data", JArr (map chart_entry (seq 0 n)))])].

Definition top_entry (name artist : string) : json :=
  JObj [ (lit "name", JStr (lit name));
         (lit "artist", JObj [(lit "name", JStr (lit artist))]) ].

Definition top_tracks_response (entries : list json) : json :=
  JObj [(lit "tracks", JObj [(lit "track", JArr entries)])].

(** The network that answers every request with status 200 and [body]. *)
Definition answering (body : json) : network :=
  fun _ => Replied 200 (Ok body).

Definition two_songs : list json :=
  [top_entry "Song A" "Artist X"; top_entry "Song B" "Artist Y"].

Definition six_songs : list json :=
  [ top_entry "One" "A"; top_entry "Two" "B"; top_entry "Three" "C";
    top_entry "Four" "D"; top_entry "Five" "E"; top_entry "Six" "F" ].

Definition lyrics_response (text : string) : json :=
  JObj [(lit "lyrics", JStr (lit text))].

Definition hello_track : TrackRecord :=
  {| track_title := JStr (lit "Hello");
     track_artist := JStr (lit "Adele");
     track_album := lit "25 (2015-11-20)";
     track_duration := 215;
     track_url := lit "https://musicbrainz.org/recording/b1a9c0e9";
     track_tags := [JStr (lit "pop"); JStr (lit "soul"); JStr (lit "ballad")] |}.

(** An entry of the top-tracks list with a number for a name. *)
Definition numbered_entry (i : nat) : json :=
  JObj [ (lit "name", JStr (str_of_nat i));
         (lit "artist", JObj [(lit "name", JStr (lit "A"))]) ].

(** A channel that refuses every message, and one that refuses what Discord
    documents it refuses: a content of more than 2000 characters and an
    embed of more than 25 fields. *)
Definition refusing : channel := fun _ => Some HTTPException.

Definition discord_limits : channel :=
  fun m =>
    match m with
    | Text content =>
        if Nat.ltb 2000 (length content) then Some HTTPException else None
    | Rich embed =>
        if Nat.ltb 25 (length (embed_fields embed))
        then Some HTTPException else None
    end.

(** The process started with an API key in its environment. *)
Definition configured : world := startup (Some (lit "0123abcd")).

Definition ana : author := {| author_id := 7; author_name := lit "ana" |}.
Definition ben : author := {| author_id := 8; author_name := lit "ben" |}.

(** The playlists when [ana] has stored 26 songs. *)
Definition long_playlist : playlists :=
  [(str_of_Z 7, map str_of_nat (seq 1 26))].


(* ================================================================= *)
(** * Properties *)

(** ** Strings: [startswith], [in], [split] *)

Lemma startswith_app (p s : pystr) : startswith p (p ++ s) = true.
Proof.
  induction p as [|a p IH]; simpl.
  - reflexivity.
  - now rewrite N.eqb_refl.
Qed.

Lemma startswith_split (p s : pystr) :
  startswith p s = true -> s = p ++ skipn (length p) s.
Proof.
  revert s; induction p as [|a p IH]; intros s H.
  - reflexivity.
  - destruct s as [|c s]; simpl in H; [discriminate|].
    apply andb_true_iff in H as [Hc Hs].
    apply N.eqb_eq in Hc; subst c.
    simpl. f_equal. now apply IH.
Qed.

Lemma str_in_here (sub s : pystr) :
  startswith sub s = true -> str_in sub s = true.
Proof. intros H. destruct s; simpl; now rewrite H. Qed.

Lemma str_in_app (sep before after : pystr) :
  str_in sep (before ++ sep ++ after) = true.
Proof.
  induction before as [|c b IH]; simpl.
  - apply str_in_here, startswith_app.
  - rewrite IH. apply orb_true_r.
Qed.

Lemma first_occurrence_in (sep s before after : pystr) :
  first_occurrence sep s before after -> str_in sep s = true.
Proof. intros [-> _]. apply str_in_app. Qed.

Lemma first_occurrence_cons (sep s before after : pystr) (c : N) :
  startswith sep (c :: s) = false ->
  first_occurrence sep s before after ->
  first_occurrence sep (c :: s) (c :: before) after.
Proof.
  intros Hc [-> Hno]. split; [reflexivity|].
  intros [|i] Hi; simpl in *; [exact Hc|].
  apply Hno. lia.
Qed.

Lemma first_occurrence_tail (sep s before after : pystr) (c : N) :
  first_occurrence sep (c :: s) (c :: before) after ->
  startswith sep (c :: s) = false /\ first_occurrence sep s before after.
Proof.
  intros [E Hno]. split.
  - apply (Hno 0). simpl; lia.
  - split; [simpl in E; congruence|].
    intros i Hi. apply (Hno (S i)). simpl; lia.
Qed.

(** Whenever [sep in s], the string splits at a first occurrence. *)
Lemma first_occurrence_exists (sep s : pystr) :
  str_in sep s = true ->
  exists before after, first_occurrence sep s before after.
Proof.
  induction s as [|c s IH]; intros H.
  - simpl in H. rewrite orb_false_r in H.
    exists [], []. destruct sep; [|discriminate].
    split; [reflexivity | intros i Hi; inversion Hi].
  - destruct (startswith sep (c :: s)) eqn:Hs.
    + exists [], (skipn (length sep) (c :: s)). split.
      * now apply startswith_split.
      * intros i Hi; inversion Hi.
    + simpl in H. simpl in Hs. rewrite Hs in H. simpl in H.
      destruct (IH H) as (b & a & Hba).
      exists (c :: b), a. now apply first_occurrence_cons.
Qed.

(** The first occurrence is unique. *)
Lemma first_occurrence_unique (sep s b1 a1 b2 a2 : pystr) :
  first_occurrence sep s b1 a1 -> first_occurrence sep s b2 a2 ->
  b1 = b2 /\ a1 = a2.
Proof.
  revert s b2; induction b1 as [|c b1 IH]; intros s b2 H1 H2.
  - destruct b2 as [|c2 b2].
    + destruct H1 as [E1 _], H2 as [E2 _]. simpl in *. subst s.
      apply app_inv_head in E2. now split.
    + destruct H1 as [E1 _], H2 as [E2 H2]. simpl in E1.
      specialize (H2 0 ltac:(simpl; lia)). simpl skipn in H2.
      rewrite E1, startswith_app in H2. discriminate.
  - destruct b2 as [|c2 b2].
    + destruct H1 as [E1 H1], H2 as [E2 _]. simpl in E2.
      specialize (H1 0 ltac:(simpl; lia)). simpl skipn in H1.
      rewrite E2, startswith_app in H1. discriminate.
    + assert (c2 = c /\ exists s', s = c :: s') as [-> [s' ->]].
      { destruct H1 as [E1 _], H2 as [E2 _]. simpl in *.
        split; [congruence | eexists; exact E1]. }
      apply first_occurrence_tail in H1 as [_ H1].
      apply first_occurrence_tail in H2 as [_ H2].
      destruct (IH _ _ H1 H2) as [-> ->]. now split.
Qed.

Lemma split_scan_done (sep : pystr) (k : nat) (cur s : pystr) :
  split_scan sep (Some 0) k cur s = [rev cur ++ skipn k s].
Proof.
  revert k cur; induction s as [|c s IH]; intros k cur.
  - destruct k; simpl; now rewrite app_nil_r.
  - destruct k as [|k]; simpl.
    + rewrite IH. simpl. now rewrite <- app_assoc.
    + apply IH.
Qed.

(** [s.split(sep)[0]] is [s] cut at the first occurrence of [sep]. *)
Lemma split_scan_head (sep : pystr) (budget : option nat) (cur s : pystr) :
  may_split budget = true ->
  nth_error (split_scan sep budget 0 cur s) 0
  = Some (rev cur ++ truncate_at [sep] s).
Proof.
  intros Hb. revert cur; induction s as [|c s IH]; intros cur.
  - simpl. destruct (startswith sep [] || false); now rewrite app_nil_r.
  - cbn [split_scan truncate_at existsb]. rewrite Hb, orb_false_r.
    cbn [andb].
    destruct (startswith sep (c :: s)) eqn:Hs.
    + simpl. now rewrite app_nil_r.
    + rewrite IH. simpl. now rewrite <- app_assoc.
Qed.

(** [s.split(sep, 1)] is [[before, after]] around the first occurrence. *)
Lemma split_scan_once (sep s before after cur : pystr) :
  sep <> [] ->
  first_occurrence sep s before after ->
  split_scan sep (Some 1) 0 cur s = [rev cur ++ before; after].
Proof.
  intros Hne. revert s cur; induction before as [|c b IH]; intros s cur H.
  - destruct H as [-> _]. simpl app.
    destruct sep as [|a sep']; [congruence|].
    cbn [app split_scan may_split andb].
    change (a :: sep' ++ after) with ((a :: sep') ++ after).
    rewrite startswith_app. cbn [spend pred length].
    replace (S (length sep') - 1) with (length sep') by lia.
    rewrite split_scan_done, app_nil_r. simpl.
    do 2 f_equal. clear. induction sep'; simpl; auto.
  - assert (exists s', s = c :: s') as [s' ->].
    { destruct H as [-> _]. eexists; reflexivity. }
    apply first_occurrence_tail in H as [Hc H].
    cbn [split_scan may_split andb]. rewrite Hc.
    rewrite (IH _ _ H). simpl. now rewrite <- app_assoc.
Qed.

Lemma truncate_at_absent (marks : list pystr) (s : pystr) :
  (forall m, In m marks -> str_in m s = false) ->
  truncate_at marks s = s.
Proof.
  induction s as [|c s IH]; intros H.
  - simpl. now destruct (existsb _ marks).
  - cbn [truncate_at].
    assert (existsb (fun m => startswith m (c :: s)) marks = false) as ->.
    { apply not_true_is_false. intros E.
      apply existsb_exists in E as (m & Hm & Hs).
      specialize (H m Hm). simpl in H. simpl in Hs. rewrite Hs in H.
      discriminate. }
    f_equal. apply IH. intros m Hm. specialize (H m Hm).
    simpl in H. apply orb_false_iff in H. tauto.
Qed.

(** A pattern without spaces starts the cut string exactly when it starts
    the string, when the cut is at a mark that begins with a space. *)
Lemma startswith_truncate (mark' p s : pystr) :
  ~ In 32%N p ->
  startswith p (truncate_at [32%N :: mark'] s) = startswith p s.
Proof.
  revert s; induction p as [|a p IH]; intros s Hp.
  - reflexivity.
  - destruct s as [|c s].
    + reflexivity.
    + cbn [truncate_at existsb]. rewrite orb_false_r.
      destruct (startswith (32%N :: mark') (c :: s)) eqn:Hm.
      * cbn [startswith] in Hm. apply andb_true_iff in Hm as [Hc _].
        apply N.eqb_eq in Hc; subst c. cbn [startswith].
        destruct (N.eqb_spec a 32); [|reflexivity].
        exfalso. apply Hp. left. now symmetry.
      * cbn [startswith]. rewrite IH; [reflexivity|].
        intros Hin. apply Hp. now right.
Qed.

(** Cutting at one mark and then at another is cutting at whichever comes
    first, for marks such as [" ft."] and [" feat."]. *)
Lemma truncate_twice (m1 m2 s : pystr) :
  ~ In 32%N m2 ->
  truncate_at [32%N :: m2] (truncate_at [32%N :: m1] s)
  = truncate_at [32%N :: m1; 32%N :: m2] s.
Proof.
  intros Hm2. induction s as [|c s IH].
  - reflexivity.
  - cbn [truncate_at existsb]. rewrite !orb_false_r.
    destruct (startswith (32%N :: m1) (c :: s)) eqn:H1.
    + reflexivity.
    + cbn [truncate_at existsb orb]. rewrite orb_false_r.
      assert (startswith (32%N :: m2) (c :: truncate_at [32%N :: m1] s)
              = startswith (32%N :: m2) (c :: s)) as ->.
      { cbn [startswith]. now rewrite startswith_truncate. }
      destruct (startswith (32%N :: m2) (c :: s)); [reflexivity|].
      now rewrite IH.
Qed.

(** ** The query parser *)

(** Replaces the literals of the parser by their code points. *)
Ltac eval_lit s :=
  let v := eval vm_compute in (lit s) in
  change (lit s) with v in *.

Ltac eval_marks :=
  eval_lit " ft."%string; eval_lit " feat."%string; eval_lit " ("%string.

Lemma separators_nonempty (sep : pystr) : In sep separators -> sep <> [].
Proof.
  intros [<-|[<-|[<-|[]]]]; discriminate.
Qed.

Lemma chosen_separator_in (sep query : pystr) :
  chosen_separator sep query -> In sep separators.
Proof.
  intros (earlier & later & E & _). rewrite E.
  apply in_or_app. right. now left.
Qed.

Lemma chosen_separator_exists (query : pystr) :
  has_separator query = true -> exists sep, chosen_separator sep query.
Proof.
  unfold has_separator, separators. cbn [existsb].
  destruct (str_in (lit " by ") query) eqn:H1.
  { intros _. exists (lit " by "), [], [lit " - "; lit " | "].
    repeat split; auto. intros s []. }
  destruct (str_in (lit " - ") query) eqn:H2.
  { intros _. exists (lit " - "), [lit " by "], [lit " | "].
    repeat split; auto. intros s [<-|[]]. exact H1. }
  destruct (str_in (lit " | ") query) eqn:H3.
  { intros _. exists (lit " | "), [lit " by "; lit " - "], [].
    repeat split; auto. intros s [<-|[<-|[]]]; assumption. }
  discriminate.
Qed.

(** The separator chosen is determined by the query. *)
Lemma chosen_separator_unique (s1 s2 query : pystr) :
  chosen_separator s1 query -> chosen_separator s2 query -> s1 = s2.
Proof.
  intros (e1 & l1 & E1 & I1 & N1) (e2 & l2 & E2 & I2 & N2).
  revert e2 E2 N2. revert E1 N1. generalize separators as seps.
  induction e1 as [|x e1 IH]; intros seps E1 N1 e2 E2 N2.
  - destruct e2 as [|y e2]; simpl in *; [congruence|].
    assert (y = s1) by congruence. subst y.
    rewrite (N2 s1 (or_introl eq_refl)) in I1. discriminate.
  - destruct e2 as [|y e2]; simpl in *.
    + assert (x = s2) by congruence. subst x.
      rewrite (N1 s2 (or_introl eq_refl)) in I2. discriminate.
    + destruct seps as [|z seps]; [discriminate|].
      injection E1 as -> E1. injection E2 as -> E2.
      apply (IH seps E1 (fun s H => N1 s (or_intror H)) e2 E2
                (fun s H => N2 s (or_intror H))).
Qed.

Lemma split_query_at (earlier later : list pystr) (sep query before after : pystr) :
  (forall s, In s earlier -> str_in s query = false) ->
  sep <> [] ->
  first_occurrence sep query before after ->
  split_query (earlier ++ sep :: later) query
  = Ok (Some (strip after), Some (strip before)).
Proof.
  intros Hno Hne Hocc. induction earlier as [|s earlier IH]; simpl.
  - rewrite (first_occurrence_in Hocc).
    unfold str_split. destruct sep as [|a sep']; [congruence|].
    cbn [bind ret]. rewrite (split_scan_once [] Hne Hocc).
    reflexivity.
  - rewrite (Hno s (or_introl eq_refl)).
    apply IH. intros s' Hs'. apply Hno. now right.
Qed.


Lemma clean_title_eq (title : pystr) :
  clean_title title = Ok (strip (truncate_at [lit " ("] title)).
Proof.
  unfold clean_title, str_split, list_index. eval_marks.
  cbn [bind ret]. rewrite split_scan_head by reflexivity.
  reflexivity.
Qed.

Lemma clean_artist_eq (artist : pystr) :
  clean_artist artist
  = Ok (strip (truncate_at [lit " ft."; lit " feat."] artist)).
Proof.
  unfold clean_artist, str_split, list_index. eval_marks.
  cbn [bind ret]. rewrite split_scan_head by reflexivity.
  cbn [bind ret rev app]. rewrite split_scan_head by reflexivity.
  cbn [bind ret rev app]. rewrite truncate_twice; [reflexivity|].
  simpl. intros [H|[H|[H|[H|[H|[]]]]]]; discriminate.
Qed.

(** What the parser returns once the separator and its first occurrence
    are known. *)
Lemma parse_query_at (sep query before after : pystr) :
  chosen_separator sep query ->
  first_occurrence sep query before after ->
  parse_query query
  = Ok (if Nat.eqb (length (strip after)) 0 then ParseFailure
        else Parsed (spec_title before) (spec_artist after)).
Proof.
  intros Hsep Hocc.
  pose proof (separators_nonempty (chosen_separator_in Hsep)) as Hne.
  destruct Hsep as (earlier & later & E & _ & Hno).
  unfold parse_query. rewrite E.
  rewrite (@split_query_at earlier later _ _ _ _ Hno Hne Hocc).
  cbn [bind py_not].
  destruct (Nat.eqb (length (strip after)) 0); [reflexivity|].
  rewrite clean_artist_eq, clean_title_eq. reflexivity.
Qed.


Lemma length_zero_nil (s : pystr) : Nat.eqb (length s) 0 = true <-> s = [].
Proof. destruct s; simpl; split; congruence. Qed.

Lemma well_formed_dash_parses (title artist : pystr) :
  well_formed_dash title artist ->
  parse_query (title ++ lit " - " ++ artist) = Ok (Parsed title artist).
Proof.
  intros (Ht & Ha & Hne & Hby & Hocc & Hparen & Hft & Hfeat).
  assert (chosen_separator (lit " - ") (title ++ lit " - " ++ artist)) as Hsep.
  { exists [lit " by "], [lit " | "]. repeat split.
    - apply str_in_app.
    - intros s [<-|[]]. exact Hby. }
  rewrite (parse_query_at Hsep Hocc).
  rewrite Ha. destruct artist as [|c artist]; [congruence|]. cbn [length Nat.eqb].
  unfold spec_title, spec_artist. rewrite Ht, Ha.
  rewrite !truncate_at_absent, Ht, Ha; [reflexivity| |].
  - intros m [<-|[<-|[]]]; assumption.
  - intros m [<-|[]]; assumption.
Qed.

Unset Implicit Arguments.

(** ** Trimmed queries *)

Lemma lstrip_suffix (s : pystr) : exists pre, s = pre ++ lstrip s.
Proof.
  induction s as [|c s [pre IH]]; simpl.
  - now exists [].
  - destruct (isspace c).
    + exists (c :: pre). simpl. now f_equal.
    + now exists [].
Qed.

Lemma lstrip_head (s : pystr) (c : N) (t : pystr) :
  lstrip s = c :: t -> isspace c = false.
Proof.
  induction s as [|d s IH]; simpl; [discriminate|].
  destruct (isspace d) eqn:E; [exact IH|].
  intros H. injection H as -> _. exact E.
Qed.

Lemma lstrip_in (s : pystr) (c : N) :
  In c s -> isspace c = false -> In c (lstrip s).
Proof.
  induction s as [|d s IH]; simpl; [tauto|].
  intros [->|Hin] Hc.
  - rewrite Hc. now left.
  - destruct (isspace d); [now apply IH | now right].
Qed.

Lemma length_lstrip (s : pystr) : length (lstrip s) <= length s.
Proof.
  destruct (lstrip_suffix s) as [pre E].
  rewrite E at 2. rewrite length_app. lia.
Qed.

Lemma lstrip_same_length (s : pystr) :
  length (lstrip s) = length s -> lstrip s = s.
Proof.
  destruct (lstrip_suffix s) as [pre E]. intros H.
  rewrite E in H at 2. rewrite length_app in H.
  destruct pre; [now symmetry | simpl in H; lia].
Qed.

(** A string that [strip] leaves alone has no space at either end. *)
Lemma strip_fixed (s : pystr) :
  strip s = s -> lstrip s = s /\ lstrip (rev s) = rev s.
Proof.
  unfold strip, rstrip. intros H.
  assert (length (lstrip s) = length s) as Hlen.
  { apply Nat.le_antisymm; [apply length_lstrip|].
    rewrite <- H at 1. rewrite length_rev.
    etransitivity; [apply length_lstrip|]. now rewrite length_rev. }
  apply lstrip_same_length in Hlen. rewrite Hlen in H. split; [exact Hlen|].
  rewrite <- H at 2. now rewrite rev_involutive.
Qed.

Lemma strip_in (s : pystr) (c : N) :
  In c s -> isspace c = false -> In c (strip s).
Proof.
  intros Hin Hc. unfold strip, rstrip.
  apply in_rev. rewrite rev_involutive.
  apply lstrip_in; [|exact Hc]. apply -> in_rev. now apply lstrip_in.
Qed.

Lemma strip_head (s : pystr) (c : N) (t : pystr) :
  strip s = c :: t -> isspace c = false.
Proof.
  unfold strip, rstrip. intros H.
  destruct (lstrip_suffix (rev (lstrip s))) as [pre E].
  apply (f_equal (@rev N)) in E.
  rewrite rev_involutive, rev_app_distr, H in E.
  simpl in E. now apply lstrip_head in E.
Qed.

Lemma space_is_space (c : N) : isspace c = false -> c <> 32%N.
Proof. intros H ->. discriminate. Qed.

Lemma truncate_at_keeps_head (marks : list pystr) (c : N) (t : pystr) :
  isspace c = false ->
  (forall m, In m marks -> exists m', m = 32%N :: m') ->
  truncate_at marks (c :: t) = c :: truncate_at marks t.
Proof.
  intros Hc Hm. cbn [truncate_at].
  assert (existsb (fun m => startswith m (c :: t)) marks = false) as ->;
    [|reflexivity].
  apply not_true_is_false. intros E.
  apply existsb_exists in E as (m & Hin & Hs).
  destruct (Hm m Hin) as [m' ->]. cbn [startswith] in Hs.
  apply andb_true_iff in Hs as [Hs _]. apply N.eqb_eq in Hs.
  now apply (space_is_space c Hc).
Qed.

(** Trimming, cutting at marks that begin with a space, and trimming again
    leaves something of a string that holds a character other than space. *)
Lemma cleaned_nonempty (marks : list pystr) (s : pystr) (c : N) :
  In c s -> isspace c = false ->
  (forall m, In m marks -> exists m', m = 32%N :: m') ->
  strip (truncate_at marks (strip s)) <> [].
Proof.
  intros Hin Hc Hm.
  pose proof (strip_in s c Hin Hc) as Hs.
  destruct (strip s) as [|c0 t] eqn:E; [destruct Hs|].
  pose proof (strip_head _ _ _ E) as Hc0.
  rewrite (truncate_at_keeps_head marks c0 t Hc0 Hm).
  intros Hnil.
  assert (In c0 (strip (c0 :: truncate_at marks t))) as H
      by (apply strip_in; [now left | exact Hc0]).
  rewrite Hnil in H. destruct H.
Qed.

Lemma separator_shape (sep : pystr) :
  In sep separators ->
  exists mid mid', sep = 32%N :: mid /\ rev sep = 32%N :: mid'.
Proof.
  intros [<-|[<-|[<-|[]]]]; eexists _, _; split; reflexivity.
Qed.

(** On a trimmed query, each side of the split holds a character that is
    not white space: the title side starts with the first character of the
    query, the artist side ends with its last. *)
Lemma trimmed_sides (query sep before after : pystr) :
  strip query = query ->
  chosen_separator sep query ->
  first_occurrence sep query before after ->
  (exists c, In c before /\ isspace c = false)
  /\ (exists d, In d after /\ isspace d = false).
Proof.
  intros Htrim Hsep Hocc.
  destruct (strip_fixed _ Htrim) as [Hl Hr].
  destruct (separator_shape _ (@chosen_separator_in _ _ Hsep))
    as (mid & mid' & Esep & Erev).
  pose proof Hocc as [Eq _].
  split.
  - destruct before as [|c b'].
    + assert (lstrip query = 32%N :: mid ++ after) as H
          by (rewrite Hl, Eq, Esep; reflexivity).
      apply lstrip_head in H. discriminate.
    + exists c. split; [now left|].
      assert (lstrip query = c :: b' ++ sep ++ after) as H
          by (rewrite Hl, Eq; reflexivity).
      now apply lstrip_head in H.
  - assert (rev query = rev after ++ 32%N :: mid' ++ rev before) as Erq.
    { rewrite Eq, !rev_app_distr, Erev, <- app_assoc. reflexivity. }
    destruct (rev after) as [|d ra] eqn:Era.
    + assert (lstrip (rev query) = 32%N :: mid' ++ rev before) as H
          by (rewrite Hr, Erq; reflexivity).
      apply lstrip_head in H. discriminate.
    + exists d. split.
      * apply in_rev. rewrite Era. now left.
      * assert (lstrip (rev query)
                = d :: ra ++ 32%N :: mid' ++ rev before) as H
            by (rewrite Hr, Erq; reflexivity).
        now apply lstrip_head in H.
Qed.

Lemma strip_nonempty (s : pystr) :
  (exists c, In c s /\ isspace c = false) -> strip s <> [].
Proof.
  intros (c & Hin & Hc) E. pose proof (strip_in _ _ Hin Hc) as H.
  rewrite E in H. destruct H.
Qed.

(** A trimmed query with a separator parses, to the cleaned sides of the
    split, and neither is empty. *)
Lemma trimmed_parse (query sep before after : pystr) :
  strip query = query ->
  chosen_separator sep query ->
  first_occurrence sep query before after ->
  strip before <> [] /\ strip after <> []
  /\ parse_query query = Ok (Parsed (spec_title before) (spec_artist after))
  /\ spec_title before <> [] /\ spec_artist after <> [].
Proof.
  intros Htrim Hsep Hocc.
  destruct (trimmed_sides query sep before after Htrim Hsep Hocc)
    as [(c & Hcin & Hc) (d & Hdin & Hd)].
  assert (strip after <> []) as Hne by (apply strip_nonempty; eauto).
  split; [apply strip_nonempty; eauto|]. split; [exact Hne|].
  rewrite (@parse_query_at _ _ _ _ Hsep Hocc).
  destruct (Nat.eqb (length (strip after)) 0) eqn:E.
  { apply length_zero_nil in E. congruence. }
  split; [reflexivity|]. split.
  - apply (cleaned_nonempty _ _ _ Hcin Hc).
    intros m [<-|[]]. eexists; reflexivity.
  - apply (cleaned_nonempty _ _ _ Hdin Hd).
    intros m [<-|[<-|[]]]; eexists; reflexivity.
Qed.

Lemma hello_dash_adele :
  first_occurrence (lit " - ") (lit "Hello - Adele") (lit "Hello") (lit "Adele").
Proof.
  split; [reflexivity|]. intros i Hi. vm_compute in Hi.
  do 5 (destruct i as [|i]; [reflexivity|]). lia.
Qed.

Lemma hello_by_adele :
  first_occurrence (lit " by ") (lit "Hello by Adele") (lit "Hello") (lit "Adele").
Proof.
  split; [reflexivity|]. intros i Hi. vm_compute in Hi.
  do 5 (destruct i as [|i]; [reflexivity|]). lia.
Qed.


Set Implicit Arguments.

(** ** The parser on the queries the command receives *)

(** C1 (amended).  For every query that contains a separator, let [sep] be
    the separator of highest priority ([" by "], then [" - "], then
    [" | "]) that occurs in it and [before], [after] the two sides of its
    first occurrence.  On a trimmed query, which is what the command
    receives (and on any query whose [after] is not empty once trimmed),
    the parser returns the title [before] and the artist [after], both
    trimmed, the artist then cut at the first [" ft."] or [" feat."], the
    title at the first [" ("], and both trimmed once more.  A
    "title - artist" string gives back its title and artist when both are
    trimmed, the artist is not empty, [" by "] occurs nowhere, the [" - "]
    shown is the first one, the title holds no [" ("] and the artist no
    [" ft."] or [" feat."]; and "Shape of You by Ed Sheeran" gives
    "Shape of You" and "Ed Sheeran". *)
Theorem parse_query_splits_at_first_separator :
  (forall query,
      has_separator query = true ->
      exists sep before after,
        chosen_separator sep query
        /\ first_occurrence sep query before after
        /\ (forall sep' before' after',
               chosen_separator sep' query ->
               first_occurrence sep' query before' after' ->
               sep' = sep /\ before' = before /\ after' = after)
        /\ (strip after <> [] ->
            parse_query query
            = Ok (Parsed (spec_title before) (spec_artist after)))
        /\ (strip query = query ->
            parse_query query
            = Ok (Parsed (spec_title before) (spec_artist after))))
  /\ (forall title artist,
         well_formed_dash title artist ->
         parse_query (title ++ lit " - " ++ artist) = Ok (Parsed title artist))
  /\ parse_query (lit "Shape of You by Ed Sheeran")
     = Ok (Parsed (lit "Shape of You") (lit "Ed Sheeran")).
Proof.
  split; [|split].
  - intros query Hq.
    destruct (chosen_separator_exists query Hq) as [sep Hsep].
    assert (str_in sep query = true) as Hin
        by now destruct Hsep as (_ & _ & _ & H & _).
    destruct (first_occurrence_exists _ _ Hin) as (before & after & Hocc).
    exists sep, before, after. split; [exact Hsep|]. split; [exact Hocc|].
    split; [|split].
    + intros sep' before' after' Hsep' Hocc'.
      pose proof (chosen_separator_unique Hsep' Hsep) as ->.
      destruct (first_occurrence_unique Hocc' Hocc) as [-> ->].
      now repeat split.
    + intros Hne. rewrite (parse_query_at Hsep Hocc).
      destruct (Nat.eqb (length (strip after)) 0) eqn:E; [|reflexivity].
      apply length_zero_nil in E. congruence.
    + intros Htrim.
      now destruct (trimmed_parse query sep before after Htrim Hsep Hocc)
        as (_ & _ & H & _).
  - exact well_formed_dash_parses.
  - vm_compute. reflexivity.
Qed.

Lemma hello_adele_well_formed : well_formed_dash (lit "Hello") (lit "Adele").
Proof.
  unfold well_formed_dash. repeat split; try reflexivity; try discriminate.
  intros i Hi. vm_compute in Hi.
  do 5 (destruct i as [|i]; [reflexivity|]). lia.
Qed.

Lemma parse_query_splits_witness :
  (exists sep before after,
      chosen_separator sep (lit "Hello | Adele ft. X")
      /\ first_occurrence sep (lit "Hello | Adele ft. X") before after
      /\ (forall sep' before' after',
             chosen_separator sep' (lit "Hello | Adele ft. X") ->
             first_occurrence sep' (lit "Hello | Adele ft. X") before' after' ->
             sep' = sep /\ before' = before /\ after' = after)
      /\ (strip after <> [] ->
          parse_query (lit "Hello | Adele ft. X")
          = Ok (Parsed (spec_title before) (spec_artist after)))
      /\ (strip (lit "Hello | Adele ft. X") = lit "Hello | Adele ft. X" ->
          parse_query (lit "Hello | Adele ft. X")
          = Ok (Parsed (spec_title before) (spec_artist after))))
  /\ parse_query (lit "Hello" ++ lit " - " ++ lit "Adele")
     = Ok (Parsed (lit "Hello") (lit "Adele")).
Proof.
  split.
  - apply (proj1 parse_query_splits_at_first_separator
                 (lit "Hello | Adele ft. X")).
    reflexivity.
  - apply (proj1 (proj2 parse_query_splits_at_first_separator)).
    exact hello_adele_well_formed.
Defined.

(** C1, as stated, fails on two trimmed queries.  "Stand by Me - Ben E. King"
    is a title, [" - "] and an artist, both trimmed and without
    parenthesis or featured artist, and the parser does not return them: it
    splits at [" by "], which has priority.  In "Hello  (live) by Adele"
    the cut at [" ("] leaves "Hello " with its space, and the parser
    returns "Hello": it trims once more after the cut. *)
Lemma parse_query_by_inside_title :
  (strip (lit "Stand by Me") = lit "Stand by Me"
   /\ strip (lit "Ben E. King") = lit "Ben E. King"
   /\ str_in (lit " (") (lit "Stand by Me") = false
   /\ str_in (lit " ft.") (lit "Ben E. King") = false
   /\ str_in (lit " feat.") (lit "Ben E. King") = false
   /\ strip (lit "Stand by Me" ++ lit " - " ++ lit "Ben E. King")
      = lit "Stand by Me" ++ lit " - " ++ lit "Ben E. King"
   /\ parse_query (lit "Stand by Me" ++ lit " - " ++ lit "Ben E. King")
      = Ok (Parsed (lit "Stand") (lit "Me - Ben E. King")))
  /\ (strip (lit "Hello  (live) by Adele") = lit "Hello  (live) by Adele"
      /\ first_occurrence (lit " by ") (lit "Hello  (live) by Adele")
                          (lit "Hello  (live)") (lit "Adele")
      /\ truncate_at [lit " ("] (strip (lit "Hello  (live)")) = lit "Hello "
      /\ parse_query (lit "Hello  (live) by Adele")
         = Ok (Parsed (lit "Hello") (lit "Adele"))).
Proof.
  split; [repeat split|]. repeat split.
  intros i Hi. vm_compute in Hi.
  do 13 (destruct i as [|i]; [reflexivity|]). lia.
Qed.



Unset Implicit Arguments.

(** ** Trimmed queries *)

(** X2.  A query that is already trimmed, as the dispatcher hands it over,
    and that contains a separator always parses, to a title and an artist
    that are not empty. *)
Theorem trimmed_query_parses (query : pystr) :
  strip query = query ->
  has_separator query = true ->
  exists title artist,
    parse_query query = Ok (Parsed title artist)
    /\ title <> [] /\ artist <> [].
Proof.
  intros Htrim Hq.
  destruct (strip_fixed _ Htrim) as [Hl Hr].
  destruct (chosen_separator_exists query Hq) as [sep Hsep].
  assert (str_in sep query = true) as Hin
      by now destruct Hsep as (_ & _ & _ & H & _).
  destruct (first_occurrence_exists _ _ Hin) as (before & after & Hocc).
  destruct (separator_shape _ (chosen_separator_in Hsep))
    as (mid & mid' & Esep & Erev).
  pose proof Hocc as [Eq _].
  (* the title side starts with the first character of the query *)
  assert (exists c, In c before /\ isspace c = false) as (c & Hcin & Hc).
  { destruct before as [|c b'].
    - assert (lstrip query = 32%N :: mid ++ after) as H
          by (rewrite Hl, Eq, Esep; reflexivity).
      apply lstrip_head in H. discriminate.
    - exists c. split; [now left|].
      assert (lstrip query = c :: b' ++ sep ++ after) as H
          by (rewrite Hl, Eq; reflexivity).
      now apply lstrip_head in H. }
  (* the artist side ends with the last character of the query *)
  assert (exists d, In d after /\ isspace d = false) as (d & Hdin & Hd).
  { assert (rev query = rev after ++ 32%N :: mid' ++ rev before) as Erq.
    { rewrite Eq, !rev_app_distr, Erev, <- app_assoc. reflexivity. }
    destruct (rev after) as [|d ra] eqn:Era.
    - assert (lstrip (rev query) = 32%N :: mid' ++ rev before) as H
          by (rewrite Hr, Erq; reflexivity).
      apply lstrip_head in H. discriminate.
    - exists d. split.
      + apply in_rev. rewrite Era. now left.
      + assert (lstrip (rev query)
                = d :: ra ++ 32%N :: mid' ++ rev before) as H
            by (rewrite Hr, Erq; reflexivity).
        now apply lstrip_head in H. }
  exists (spec_title before), (spec_artist after).
  rewrite (parse_query_at Hsep Hocc).
  assert (strip after <> []) as Hne.
  { intros E. pose proof (strip_in _ _ Hdin Hd) as H. rewrite E in H.
    destruct H. }
  destruct (Nat.eqb (length (strip after)) 0) eqn:E.
  { apply length_zero_nil in E. congruence. }
  split; [reflexivity|]. split.
  - apply (cleaned_nonempty _ _ _ Hcin Hc).
    intros m [<-|[]]. eexists; reflexivity.
  - apply (cleaned_nonempty _ _ _ Hdin Hd).
    intros m [<-|[<-|[]]]; eexists; reflexivity.
Qed.

Lemma trimmed_query_witness :
  exists title artist,
    parse_query (lit "Hello - Adele") = Ok (Parsed title artist)
    /\ title <> [] /\ artist <> [].
Proof.
  apply (trimmed_query_parses (lit "Hello - Adele")); reflexivity.
Defined.

(** X3.  After a parse failure [lyrics_command] calls [search_track] with
    the query alone (line 185); binding one argument to [(artist, title)]
    raises, so neither the provider lookup nor the usage message of lines
    186-191 is ever reached. *)
Theorem lookup_after_parse_failure_raises (query : pystr) :
  parse_query query = Ok ParseFailure ->
  lyrics_query query = Raise TypeError.
Proof.
  intros H. unfold lyrics_query. rewrite H. reflexivity.
Qed.

Lemma lookup_after_parse_failure_witness :
  lyrics_query (lit "Hello") = Raise TypeError.
Proof.
  apply (lookup_after_parse_failure_raises (lit "Hello")). reflexivity.
Defined.
Set Implicit Arguments.

(** ** The session *)

Lemma nth_error_set_nth_same {A} (l : list A) (i : nat) (x y : A) :
  nth_error l i = Some y -> nth_error (set_nth i x l) i = Some x.
Proof.
  revert i; induction l as [|z l IH]; intros [|i] H; simpl in *;
    try discriminate; auto.
Qed.

Lemma nth_error_set_nth_other {A} (l : list A) (i j : nat) (x : A) :
  i <> j -> nth_error (set_nth i x l) j = nth_error l j.
Proof.
  revert i j; induction l as [|z l IH]; intros [|i] [|j] H; simpl;
    try reflexivity; try congruence.
  apply IH. congruence.
Qed.

Lemma length_set_nth {A} (l : list A) (i : nat) (x : A) :
  length (set_nth i x l) = length l.
Proof.
  revert i; induction l as [|z l IH]; intros [|i]; simpl; auto.
Qed.

Lemma the_session_new (w : world) :
  the_session (new_session w)
  = Some {| closed := false; client_timeout := timeout (api w) |}.
Proof.
  unfold the_session, new_session. simpl.
  rewrite nth_error_app2 by lia. now rewrite Nat.sub_diag.
Qed.

(** After [create_session] the session exists and is open. *)
Lemma create_session_ready (w : world) :
  exists i s, session (api (create_session w)) = Some i
              /\ the_session (create_session w) = Some s
              /\ closed s = false.
Proof.
  unfold create_session.
  destruct (the_session w) as [s|] eqn:E.
  - destruct (closed s) eqn:C.
    + eexists _, _. split; [reflexivity|]. now rewrite the_session_new.
    + unfold the_session in *.
      destruct (session (api w)) as [i|]; [|discriminate].
      rewrite E. now exists i, s.
  - eexists _, _. split; [reflexivity|]. now rewrite the_session_new.
Qed.

Lemma create_session_open (w : world) :
  session_open (create_session w) = true.
Proof.
  unfold session_open.
  destruct (create_session_ready w) as (i & s & _ & -> & ->). reflexivity.
Qed.

Lemma create_session_when_open (w : world) :
  session_open w = true -> create_session w = w.
Proof.
  unfold session_open, create_session.
  destruct (the_session w) as [s|]; [|discriminate].
  now destruct (closed s).
Qed.

Lemma create_session_when_closed (w : world) :
  session_open w = false -> create_session w = new_session w.
Proof.
  unfold session_open, create_session.
  destruct (the_session w) as [s|]; [|reflexivity].
  now destruct (closed s).
Qed.

Lemma create_session_twice (w : world) :
  create_session (create_session w) = create_session w.
Proof. apply create_session_when_open, create_session_open. Qed.

Lemma create_session_api (w : world) :
  base_url (api (create_session w)) = base_url (api w)
  /\ lyrics_url (api (create_session w)) = lyrics_url (api w)
  /\ trending_url (api (create_session w)) = trending_url (api w)
  /\ lastfm_url (api (create_session w)) = lastfm_url (api w)
  /\ lastfm_api_key (create_session w) = lastfm_api_key w.
Proof.
  unfold create_session.
  destruct (the_session w) as [s|]; [destruct (closed s)|];
    repeat split; reflexivity.
Qed.

Lemma close_session_when_closed (w : world) :
  session_open w = false -> close_session w = w.
Proof.
  unfold session_open, close_session.
  destruct (session (api w)); [|reflexivity].
  destruct (the_session w) as [s|]; [|reflexivity].
  destruct (closed s); [reflexivity|discriminate].
Qed.

Lemma close_session_closes (w : world) :
  session_open (close_session w) = false.
Proof.
  unfold close_session.
  destruct (session (api w)) as [i|] eqn:Ei.
  - destruct (the_session w) as [s|] eqn:Es.
    + destruct (closed s) eqn:C.
      * unfold session_open. now rewrite Es, C.
      * unfold session_open, the_session in *. simpl. rewrite Ei in *.
        now rewrite (nth_error_set_nth_same _ _ _ Es).
    + unfold session_open. now rewrite Es.
  - unfold session_open, the_session. now rewrite Ei.
Qed.

Lemma close_session_twice (w : world) :
  close_session (close_session w) = close_session w.
Proof. apply close_session_when_closed, close_session_closes. Qed.

Lemma allocations_close (w : world) :
  allocations (close_session w) = allocations w.
Proof.
  unfold close_session, allocations.
  destruct (session (api w)); [|reflexivity].
  destruct (the_session w) as [s|]; [|reflexivity].
  destruct (closed s); [reflexivity|]. simpl. apply length_set_nth.
Qed.

Lemma allocations_new (w : world) :
  allocations (new_session w) = allocations w + 1.
Proof. unfold allocations, new_session. simpl. now rewrite length_app. Qed.

Lemma only_current_open_reachable (w : world) :
  reachable w -> only_current_open w.
Proof.
  induction 1 as [key | w Hr IH | w Hr IH].
  - intros [|i] s H; discriminate.
  - destruct (session_open w) eqn:Ho.
    + now rewrite create_session_when_open.
    + rewrite create_session_when_closed by assumption.
      intros i s Hi Hs. simpl in *.
      destruct (Nat.lt_ge_cases i (length (sessions w))) as [Hlt|Hge].
      * rewrite nth_error_app1 in Hi by assumption.
        pose proof (IH i s Hi Hs) as Hcur.
        unfold session_open, the_session in Ho.
        rewrite Hcur, Hi, Hs in Ho. discriminate.
      * rewrite nth_error_app2 in Hi by assumption.
        destruct (i - length (sessions w)) as [|k] eqn:Ek.
        -- f_equal. lia.
        -- destruct k; discriminate.
  - unfold close_session.
    destruct (session (api w)) as [c|] eqn:Ec; [|exact IH].
    destruct (the_session w) as [t|] eqn:Et; [|exact IH].
    destruct (closed t) eqn:Ct; [exact IH|].
    intros i s Hi Hs. simpl in *.
    destruct (Nat.eq_dec c i) as [->|Hne].
    + unfold the_session in Et. rewrite Ec in Et.
      rewrite (nth_error_set_nth_same _ _ _ Et) in Hi.
      injection Hi as <-. discriminate.
    + rewrite nth_error_set_nth_other in Hi by assumption.
      rewrite (IH i s Hi Hs) in Ec. congruence.
Qed.

Lemma at_most_one_open (l : list ClientSession) :
  (forall i j s t, nth_error l i = Some s -> nth_error l j = Some t ->
                   closed s = false -> closed t = false -> i = j) ->
  length (filter (fun s => negb (closed s)) l) <= 1.
Proof.
  induction l as [|x l IH]; intros H; simpl.
  - lia.
  - destruct (closed x) eqn:Cx; simpl.
    + apply IH. intros i j s t Hi Hj Hs Ht.
      assert (S i = S j) by (apply (H (S i) (S j) s t); assumption). lia.
    + assert (filter (fun s => negb (closed s)) l = []) as ->; [|simpl; lia].
      destruct (filter _ l) as [|y f] eqn:E; [reflexivity|exfalso].
      assert (In y (filter (fun s => negb (closed s)) l)) as Hy
          by (rewrite E; now left).
      apply filter_In in Hy as [Hy Hc].
      apply In_nth_error in Hy as [j Hj].
      apply negb_true_iff in Hc.
      assert (0 = S j) by (apply (H 0 (S j) x y); auto). lia.
Qed.

Lemma live_pools_reachable (w : world) : reachable w -> live_pools w <= 1.
Proof.
  intros Hr. apply at_most_one_open.
  pose proof (only_current_open_reachable Hr) as Hinv.
  intros i j s t Hi Hj Hs Ht.
  pose proof (Hinv i s Hi Hs). pose proof (Hinv j t Hj Ht). congruence.
Qed.

(** The GET of an adapter reaches the network: after [create_session] the
    session is there and open. *)
Lemma session_get_ready (net : network) (w : world) (r : request) :
  session_get net (create_session w) r
  = match answer net r with
    | GetRaises e => Raise e
    | Replied st body => Ok {| status := st; json_body := body |}
    end.
Proof.
  unfold session_get.
  destruct (create_session_ready w) as (i & s & -> & -> & ->).
  reflexivity.
Qed.

Lemma adapters_open_the_session
      (b : Builtins) (net : network) (w : world)
      (url : pystr) (params : option (list (pystr * json)))
      (artist title tag : pystr) :
  fst (fetch_json net w url params) = create_session w
  /\ fst (get_lyrics net w artist title) = create_session w
  /\ fst (search_track net w artist title) = create_session w
  /\ fst (get_trending net w) = create_session w
  /\ fst (get_recommendations net w tag) = create_session w
  /\ fst (get_mood_songs net w tag) = create_session w.
Proof. repeat split. Qed.

(** C9.  The session manager keeps at most one live pool.  A second
    [create_session] changes nothing, so two calls in a row allocate one
    pool when none was open (and none when one was); [close_session] on a
    closed or never opened session changes nothing; after a close the next
    [create_session], which every adapter runs first, allocates a new open
    pool; and in every reachable state at most one pool is open. *)
Theorem session_lifecycle :
  (forall w, create_session (create_session w) = create_session w)
  /\ (forall w, session_open w = false ->
                allocations (create_session (create_session w))
                = allocations w + 1)
  /\ (forall w, session_open w = true ->
                allocations (create_session (create_session w))
                = allocations w)
  /\ (forall w, session_open w = false -> close_session w = w)
  /\ (forall key, close_session (startup key) = startup key)
  /\ (forall w, close_session (close_session w) = close_session w)
  /\ (forall w, session_open (create_session (close_session w)) = true
                /\ allocations (create_session (close_session w))
                   = allocations w + 1)
  /\ (forall (b : Builtins) (net : network) (w : world) url params
             artist title tag,
         fst (fetch_json net w url params) = create_session w
         /\ fst (get_lyrics net w artist title) = create_session w
         /\ fst (search_track net w artist title) = create_session w
         /\ fst (get_trending net w) = create_session w
         /\ fst (get_recommendations net w tag) = create_session w
         /\ fst (get_mood_songs net w tag) = create_session w)
  /\ (forall w, reachable w -> live_pools w <= 1).
Proof.
  repeat apply conj.
  - exact create_session_twice.
  - intros w H. rewrite create_session_twice, create_session_when_closed
      by assumption. apply allocations_new.
  - intros w H. now rewrite create_session_twice, create_session_when_open.
  - exact close_session_when_closed.
  - reflexivity.
  - exact close_session_twice.
  - intros w. split; [apply create_session_open|].
    rewrite create_session_when_closed by apply close_session_closes.
    now rewrite allocations_new, allocations_close.
  - intros. now apply adapters_open_the_session.
  - exact live_pools_reachable.
Qed.

Lemma session_lifecycle_witness :
  allocations (create_session (create_session (startup None))) = 0 + 1
  /\ close_session (close_session (create_session (startup None)))
     = close_session (create_session (startup None))
  /\ live_pools (create_session
                   (close_session (create_session (startup None)))) <= 1.
Proof.
  destruct session_lifecycle
    as (_ & Halloc & _ & Hclose & _ & _ & _ & _ & Hlive).
  split; [|split].
  - apply (Halloc (startup None)). reflexivity.
  - apply (Hclose (close_session (create_session (startup None)))).
    reflexivity.
  - apply (Hlive (create_session
                    (close_session (create_session (startup None))))).
    apply reach_create, reach_close, reach_create, reach_startup.
Defined.

(** ** [fetch_json] *)

(** C5 (amended).  [fetch_json] never raises.  It returns the decoded body
    when the status is 200 and the body decodes; it returns [None] when the
    GET raises (a timeout or any transport failure), when the status is not
    200 and when the status is 200 and the body cannot be decoded; and a
    result other than [None] is the decoded body of a response with status
    200: the body is returned if and only if the status is 200 and the body
    is JSON. *)
Theorem fetch_json_absent_unless_200
        (net : network) (w : world) (url : pystr)
        (params : option (list (pystr * json))) :
  (exists v, snd (fetch_json net w url params) = Ok v)
  /\ (forall j,
         answer net {| req_url := url; req_params := params |}
         = Replied 200 (Ok j) ->
         snd (fetch_json net w url params) = Ok j)
  /\ (failed (answer net {| req_url := url; req_params := params |}) ->
      snd (fetch_json net w url params) = Ok JNull)
  /\ (forall v,
         snd (fetch_json net w url params) = Ok v -> v <> JNull ->
         answer net {| req_url := url; req_params := params |}
         = Replied 200 (Ok v)).
Proof.
  unfold fetch_json. cbn [snd]. rewrite session_get_ready. unfold ret.
  destruct (answer net {| req_url := url; req_params := params |})
    as [e | st body] eqn:E.
  - repeat split.
    + destruct e; eexists; reflexivity.
    + discriminate.
    + intros _. now destruct e.
    + intros v H Hv. destruct e; simpl in H; congruence.
  - cbn [bind try_except status json_body].
    destruct (Z.eqb_spec st 200) as [->|Hst].
    + destruct body as [j | e]; repeat split.
      * eexists; reflexivity.
      * intros j' H. simpl. congruence.
      * intros [H | [e H]]; [congruence | discriminate].
      * intros v H _. simpl in H. congruence.
      * destruct e; eexists; reflexivity.
      * discriminate.
      * intros _. now destruct e.
      * intros v H Hv. destruct e; simpl in H; congruence.
    + repeat split.
      * eexists; reflexivity.
      * intros j H. congruence.
      * intros v H Hv. simpl in H. congruence.
Qed.

Lemma fetch_json_witness :
  snd (fetch_json (fun _ => Replied 200 (Ok (JObj [])))
                  (startup None) (lit "u") None) = Ok (JObj [])
  /\ snd (fetch_json (fun _ => Replied 404 (Ok (JObj [])))
                     (startup None) (lit "u") None) = Ok JNull
  /\ snd (fetch_json (fun _ => GetRaises TimeoutError)
                     (startup None) (lit "u") None) = Ok JNull.
Proof.
  split; [|split].
  - apply (proj1 (proj2 (fetch_json_absent_unless_200
                           (fun _ => Replied 200 (Ok (JObj [])))
                           (startup None) (lit "u") None))).
    reflexivity.
  - apply (proj1 (proj2 (proj2 (fetch_json_absent_unless_200
                                  (fun _ => Replied 404 (Ok (JObj [])))
                                  (startup None) (lit "u") None)))).
    left. discriminate.
  - apply (proj1 (proj2 (proj2 (fetch_json_absent_unless_200
                                  (fun _ => GetRaises TimeoutError)
                                  (startup None) (lit "u") None)))).
    exact I.
Defined.

(** C5, as stated, fails: the status is 200 and the result is absent,
    because the body is not JSON and [response.json()] raises. *)
Lemma fetch_json_undecodable_200 :
  answer (fun _ => Replied 200 (Raise ContentTypeError))
         {| req_url := lit "u"; req_params := None |}
  = Replied 200 (Raise ContentTypeError)
  /\ snd (fetch_json (fun _ => Replied 200 (Raise ContentTypeError))
                     (startup None) (lit "u") None)
     = Ok JNull.
Proof. split; reflexivity. Qed.

(** ** The adapters *)

Lemma try_except_total {A} (body : py A) (handler : exn -> py A) :
  (forall e, exists v, handler e = Ok v) ->
  exists v, try_except body handler = Ok v.
Proof.
  intros H. destruct body as [a|e]; simpl; [now exists a | apply H].
Qed.

Lemma top_tracks_params_create (w : world) (tag : pystr) :
  top_tracks_params (create_session w) tag = top_tracks_params w tag.
Proof.
  unfold top_tracks_params.
  destruct (create_session_api w) as (_ & _ & _ & _ & ->). reflexivity.
Qed.

(** The requests without parameters and the search request can always be
    built. *)
Lemma answer_plain (net : network) (url : pystr) :
  answer net {| req_url := url; req_params := None |}
  = net {| req_url := url; req_params := None |}.
Proof. reflexivity. Qed.

Lemma answer_search (net : network) (url artist title : pystr) :
  answer net {| req_url := url;
                req_params := Some (search_params artist title) |}
  = net {| req_url := url; req_params := Some (search_params artist title) |}.
Proof. reflexivity. Qed.

(** With the API key unset the top-tracks request is refused before it is
    sent; with a key it reaches the network. *)
Lemma answer_without_key (net : network) (w : world) (tag : pystr) :
  lastfm_api_key w = None ->
  answer net (top_tracks_request w tag) = GetRaises TypeError.
Proof.
  intros H. unfold answer, sendable, top_tracks_request, top_tracks_params.
  rewrite H. reflexivity.
Qed.

Lemma answer_with_key (net : network) (w : world) (tag key : pystr) :
  lastfm_api_key w = Some key ->
  answer net (top_tracks_request w tag) = net (top_tracks_request w tag).
Proof.
  intros H. unfold answer, sendable, top_tracks_request, top_tracks_params.
  rewrite H. reflexivity.
Qed.

(** Unfolds an adapter up to the answer of the network. *)
Ltac to_network w :=
  cbn [snd fst]; rewrite ?session_get_ready, ?top_tracks_params_create;
  rewrite ?answer_plain, ?answer_search;
  let Hb := fresh in let Hl := fresh in let Ht := fresh in
  let Hf := fresh in let Hk := fresh in
  destruct (create_session_api w) as (Hb & Hl & Ht & Hf & Hk);
  rewrite ?Hb, ?Hl, ?Ht, ?Hf; clear Hb Hl Ht Hf Hk.

Section AdapterProperties.
Context {builtins : Builtins}.
Variable net : network.

Lemma py_map_tag_names (tags : list json) :
  forallb named_tag tags = true ->
  py_map (fun tag => py_getitem tag (lit "name")) tags
  = Ok (map tag_name tags).
Proof.
  induction tags as [|t tags IH]; intros H; simpl.
  - reflexivity.
  - apply andb_true_iff in H as [Ht H]. rewrite (IH H).
    destruct t; try discriminate. unfold named_tag, has_field in Ht.
    unfold tag_name, field_or. cbn [py_getitem].
    destruct (dict_lookup (lit "name") fields); [reflexivity|discriminate].
Qed.

(** [_format_track] on a recording of the provider's shape. *)
Lemma format_track_normalizes (r : dict) :
  provider_recording r = true ->
  _format_track (JObj r) = Ok (normalized r).
Proof.
  intros H. unfold provider_recording in H.
  repeat (apply andb_true_iff in H; destruct H as [H ?]).
  unfold _format_track, normalized, expected_album, expected_artist,
    expected_duration, expected_tags, first_release, field_or, has_field in *.
  cbn [py_in py_getitem py_get bind ret].
  destruct (dict_lookup (lit "id") r) as [id|]; [|discriminate].
  destruct (dict_lookup (lit "length") r) as [[]|]; try discriminate;
  destruct (dict_lookup (lit "artist-credit") r)
    as [[| | | | | [|[] ?] |]|]; try discriminate;
  destruct (dict_lookup (lit "tags") r) as [[]|]; try discriminate;
  cbn [py_first list_index nth_error py_get py_int py_slice_to py_iter
       bind ret py_map];
  rewrite ?py_map_tag_names by assumption;
  cbn [bind ret].
  all: destruct (dict_lookup (lit "releases") r) as [v|]; [|reflexivity].
  all: destruct v as [| ? | ? | ? | ? | [|[| | | | | |rel] ?] | ? ];
    cbn [py_truthy negb length Nat.eqb orb] in *; try discriminate.
  all: cbn [bind ret py_truthy negb length Nat.eqb py_first list_index
             nth_error py_get py_in py_getitem].
  all: try destruct (dict_lookup (lit "date") rel).
  all: try match goal with
           | |- context [if ?c then _ else _] =>
               let E := fresh in
               destruct c eqn:E; try rewrite E in *;
               cbn [negb orb] in *; try discriminate
           end.
  all: try reflexivity.
Qed.

Lemma search_track_total (w : world) (artist title : pystr) :
  exists v, snd (search_track net w artist title) = Ok v.
Proof.
  unfold search_track. cbn [snd]. apply try_except_total.
  intros e. eexists; reflexivity.
Qed.

Lemma search_track_none (w : world) (artist title : pystr) (body : json) :
  net (recording_request w artist title) = Replied 200 (Ok body) ->
  recordings_of body [] ->
  snd (search_track net w artist title) = Ok None.
Proof.
  intros Hnet (d & -> & Hd). unfold recording_request in Hnet.
  unfold search_track. to_network w. rewrite Hnet.
  cbn [bind ret try_except status json_body Z.eqb Pos.eqb py_get].
  rewrite Hd. reflexivity.
Qed.

Lemma search_track_first (w : world) (artist title : pystr) (body : json)
      (r : dict) (rest : list json) :
  net (recording_request w artist title) = Replied 200 (Ok body) ->
  recordings_of body (JObj r :: rest) ->
  provider_recording r = true ->
  snd (search_track net w artist title) = Ok (Some (normalized r)).
Proof.
  intros Hnet (d & -> & Hd) Hr. unfold recording_request in Hnet.
  unfold search_track. to_network w. rewrite Hnet.
  cbn [bind ret try_except status json_body Z.eqb Pos.eqb py_get py_getitem].
  rewrite Hd.
  cbn [bind ret py_truthy length Nat.eqb negb py_first list_index nth_error].
  rewrite (format_track_normalizes _ Hr). reflexivity.
Qed.

Lemma bind_always_raises {A B} (c : py A) (k : A -> py B) :
  (forall a, exists e, k a = Raise e) -> exists e, bind c k = Raise e.
Proof.
  intros H. destruct c as [a|e]; simpl; [apply H | now exists e].
Qed.

Lemma format_track_needs_id (r : dict) :
  dict_lookup (lit "id") r = None ->
  exists e, _format_track (JObj r) = Raise e.
Proof.
  intros Hid. unfold _format_track.
  cbn [py_in py_getitem py_get bind ret]. rewrite Hid.
  repeat (apply bind_always_raises; intros ?;
          try match goal with p : (_ * _)%type |- _ => destruct p end;
          cbn [bind ret]).
  eexists; reflexivity.
Qed.

Lemma search_track_without_id (w : world) (artist title : pystr)
      (body : json) (r : dict) (rest : list json) :
  net (recording_request w artist title) = Replied 200 (Ok body) ->
  recordings_of body (JObj r :: rest) ->
  dict_lookup (lit "id") r = None ->
  snd (search_track net w artist title) = Ok None.
Proof.
  intros Hnet (d & -> & Hd) Hr. unfold recording_request in Hnet.
  unfold search_track. to_network w. rewrite Hnet.
  cbn [bind ret try_except status json_body Z.eqb Pos.eqb py_get py_getitem].
  rewrite Hd.
  cbn [bind ret py_truthy length Nat.eqb negb py_first list_index nth_error].
  destruct (format_track_needs_id _ Hr) as [e ->]. reflexivity.
Qed.

Lemma format_track_empty_credit (r : dict) :
  dict_lookup (lit "artist-credit") r = Some (JArr []) ->
  exists e, _format_track (JObj r) = Raise e.
Proof.
  intros Hc. unfold _format_track.
  cbn [py_in py_getitem py_get bind ret]. rewrite Hc.
  repeat (apply bind_always_raises; intros ?;
          try match goal with p : (_ * _)%type |- _ => destruct p end;
          cbn [bind ret py_first list_index nth_error]).
  eexists; reflexivity.
Qed.

Lemma search_track_empty_credit (w : world) (artist title : pystr)
      (body : json) (r : dict) (rest : list json) :
  net (recording_request w artist title) = Replied 200 (Ok body) ->
  recordings_of body (JObj r :: rest) ->
  dict_lookup (lit "artist-credit") r = Some (JArr []) ->
  snd (search_track net w artist title) = Ok None.
Proof.
  intros Hnet (d & -> & Hd) Hr. unfold recording_request in Hnet.
  unfold search_track. to_network w. rewrite Hnet.
  cbn [bind ret try_except status json_body Z.eqb Pos.eqb py_get py_getitem].
  rewrite Hd.
  cbn [bind ret py_truthy length Nat.eqb negb py_first list_index nth_error].
  destruct (format_track_empty_credit _ Hr) as [e ->]. reflexivity.
Qed.

(** *** Trending *)

Lemma get_trending_total (w : world) :
  exists v, snd (get_trending net w) = Ok v.
Proof.
  unfold get_trending. cbn [snd]. apply try_except_total.
  intros e. eexists; reflexivity.
Qed.

Lemma get_trending_chart (w : world) (body : json) (entries : list json) :
  net (chart_request w) = Replied 200 (Ok body) ->
  chart_of body entries ->
  snd (get_trending net w) = Ok (JArr (firstn 10 entries)).
Proof.
  intros Hnet (d & t & -> & Hd & Ht). unfold chart_request in Hnet.
  unfold get_trending. to_network w. rewrite Hnet.
  cbn [bind ret try_except status json_body Z.eqb Pos.eqb py_get].
  rewrite Hd. cbn [bind ret py_get]. rewrite Ht. reflexivity.
Qed.

Lemma get_trending_failed (w : world) :
  failed (net (chart_request w)) ->
  snd (get_trending net w) = Ok (JArr []).
Proof.
  unfold chart_request, get_trending. to_network w.
  destruct (net _) as [e|st body]; cbn [failed].
  - reflexivity.
  - cbn [bind ret try_except status json_body].
    destruct (Z.eqb_spec st 200) as [->|Hst].
    + intros [H | [e ->]]; [congruence | reflexivity].
    + reflexivity.
Qed.

Lemma get_trending_missing (w : world) (d : dict) :
  net (chart_request w) = Replied 200 (Ok (JObj d)) ->
  dict_lookup (lit "tracks") d = None
  \/ (exists t, dict_lookup (lit "tracks") d = Some (JObj t)
                /\ dict_lookup (lit "data") t = None) ->
  snd (get_trending net w) = Ok (JArr []).
Proof.
  intros Hnet H. unfold chart_request in Hnet.
  unfold get_trending. to_network w. rewrite Hnet.
  cbn [bind ret try_except status json_body Z.eqb Pos.eqb py_get].
  destruct H as [-> | (t & -> & Ht)].
  - reflexivity.
  - cbn [bind ret py_get]. rewrite Ht. reflexivity.
Qed.

(** Whatever arrives, the result is a sequence of at most 10 items. *)
Lemma get_trending_at_most_10 (w : world) :
  exists v, snd (get_trending net w) = Ok v
            /\ ((exists l, v = JArr l /\ length l <= 10)
                \/ (exists s, v = JStr s /\ length s <= 10)).
Proof.
  assert (forall v : json, (exists l, v = JArr l /\ length l <= 10) ->
            exists v', Ok v = Ok v'
              /\ ((exists l, v' = JArr l /\ length l <= 10)
                  \/ (exists s, v' = JStr s /\ length s <= 10))) as Hlist.
  { intros v H. exists v. split; [reflexivity | now left]. }
  assert (exists l : list json, JArr [] = JArr l /\ length l <= 10) as Hnil.
  { exists []. split; [reflexivity | simpl; lia]. }
  unfold get_trending. to_network w.
  destruct (net _) as [e|st [body|e]];
    cbn [bind ret try_except status json_body]; try (now apply Hlist).
  - destruct (st =? 200)%Z; [|now apply Hlist].
    destruct body; cbn [py_get bind ret try_except]; try (now apply Hlist).
    destruct (dict_lookup (lit "tracks") fields) as [[]|];
      cbn [py_get bind ret try_except py_slice_to dict_lookup];
      try (now apply Hlist).
    destruct (dict_lookup (lit "data") fields0) as [[]|];
      cbn [py_get bind ret try_except py_slice_to]; try (now apply Hlist).
    + eexists. split; [reflexivity|]. right. eexists. split; [reflexivity|].
      rewrite length_firstn. lia.
    + apply Hlist. eexists. split; [reflexivity|]. rewrite length_firstn. lia.
  - destruct (st =? 200)%Z; now apply Hlist.
Qed.

(** *** Recommendations and mood songs *)

Lemma name_of_entry (e : json) :
  is_some (entry_name e) = true ->
  py_getitem e (lit "name") = Ok (bare_name e).
Proof.
  unfold bare_name, entry_name. intros H.
  destruct e; try discriminate. cbn [py_getitem].
  destruct (dict_lookup (lit "name") fields) as [[]|]; try discriminate.
  reflexivity.
Qed.

Lemma song_of_entry (e : json) :
  well_formed_track e = true ->
  (name <- py_getitem e (lit "name") ;;
   artist <- py_getitem e (lit "artist") ;;
   artist_name <- py_getitem artist (lit "name") ;;
   ret (py_format name ++ lit " - " ++ py_format artist_name))
  = Ok (name_dash_artist e).
Proof.
  unfold well_formed_track, name_dash_artist, entry_name, entry_artist.
  intros H. apply andb_true_iff in H as [Hn Ha].
  destruct e; try discriminate. cbn [py_getitem bind ret].
  destruct (dict_lookup (lit "name") fields) as [[]|]; try discriminate.
  destruct (dict_lookup (lit "artist") fields) as [[]|]; try discriminate.
  cbn [py_getitem bind ret].
  destruct (dict_lookup (lit "name") fields0) as [[]|]; try discriminate.
  reflexivity.
Qed.

Lemma py_map_names (entries : list json) :
  forallb (fun e => is_some (entry_name e)) entries = true ->
  py_map (fun track => py_getitem track (lit "name")) entries
  = Ok (map bare_name entries).
Proof.
  induction entries as [|x entries IH]; intros H; cbn [py_map map forallb] in *.
  - reflexivity.
  - apply andb_true_iff in H as [Hx H].
    now rewrite (IH H), (name_of_entry _ Hx).
Qed.

Lemma py_map_songs (entries : list json) :
  forallb well_formed_track entries = true ->
  py_map (fun track =>
            name <- py_getitem track (lit "name") ;;
            artist <- py_getitem track (lit "artist") ;;
            artist_name <- py_getitem artist (lit "name") ;;
            ret (py_format name ++ lit " - " ++ py_format artist_name))
         entries
  = Ok (map name_dash_artist entries).
Proof.
  induction entries as [|x entries IH]; intros H; cbn [py_map map forallb] in *.
  - reflexivity.
  - apply andb_true_iff in H as [Hx H].
    now rewrite (IH H), (song_of_entry _ Hx).
Qed.

Lemma py_map_raises {A B} (f : A -> py B) (l : list A) (x : A) :
  In x l -> (exists e, f x = Raise e) -> exists e, py_map f l = Raise e.
Proof.
  intros Hin [e He]. induction l as [|y l IH]; [destruct Hin|].
  simpl. destruct Hin as [-> | Hin].
  - rewrite He. now exists e.
  - destruct (f y); [|eexists; reflexivity].
    destruct (IH Hin) as [e' ->]. now exists e'.
Qed.

Lemma top_tracks_total (w : world) (tag : pystr) :
  (exists v, snd (get_recommendations net w tag) = Ok v)
  /\ (exists v, snd (get_mood_songs net w tag) = Ok v).
Proof.
  split; cbn [snd get_recommendations get_mood_songs];
    apply try_except_total; intros e; eexists; reflexivity.
Qed.

Lemma top_tracks_failed (w : world) (tag : pystr) :
  failed (answer net (top_tracks_request w tag)) ->
  snd (get_recommendations net w tag) = Ok []
  /\ snd (get_mood_songs net w tag) = Ok [].
Proof.
  unfold top_tracks_request, get_recommendations, get_mood_songs.
  to_network w.
  destruct (answer net _) as [e|st body]; cbn [failed].
  - split; reflexivity.
  - cbn [bind ret try_except status json_body].
    destruct (Z.eqb_spec st 200) as [->|Hst].
    + intros [H | [e ->]]; [congruence | split; reflexivity].
    + split; reflexivity.
Qed.

(** Both adapters reduce to their list comprehension over the entries. *)
Lemma top_tracks_listed (w : world) (tag : pystr) (body : json)
      (entries : list json) :
  answer net (top_tracks_request w tag) = Replied 200 (Ok body) ->
  top_tracks_of body entries ->
  snd (get_recommendations net w tag)
  = try_except
      (py_map (fun track => py_getitem track (lit "name")) entries)
      (fun _ => ret [])
  /\ snd (get_mood_songs net w tag)
     = try_except
         (py_map (fun track =>
                    name <- py_getitem track (lit "name") ;;
                    artist <- py_getitem track (lit "artist") ;;
                    artist_name <- py_getitem artist (lit "name") ;;
                    ret (py_format name ++ lit " - " ++ py_format artist_name))
                 entries)
         (fun _ => ret []).
Proof.
  intros Hnet (d & t & -> & Hd & Ht). unfold top_tracks_request in Hnet.
  unfold get_recommendations, get_mood_songs. to_network w. rewrite Hnet.
  cbn [bind ret status json_body Z.eqb Pos.eqb py_get].
  rewrite Hd. cbn [bind ret py_get]. rewrite Ht.
  split; reflexivity.
Qed.

Lemma top_tracks_well_formed (w : world) (tag : pystr) (body : json)
      (entries : list json) :
  answer net (top_tracks_request w tag) = Replied 200 (Ok body) ->
  top_tracks_of body entries ->
  forallb well_formed_track entries = true ->
  snd (get_recommendations net w tag) = Ok (map bare_name entries)
  /\ snd (get_mood_songs net w tag) = Ok (map name_dash_artist entries).
Proof.
  intros Hnet Hbody Hwf.
  destruct (@top_tracks_listed w tag body entries Hnet Hbody) as [-> ->].
  rewrite py_map_songs by assumption.
  rewrite py_map_names; [split; reflexivity|].
  rewrite forallb_forall in *. intros e He. specialize (Hwf e He).
  unfold well_formed_track in Hwf. now apply andb_true_iff in Hwf as [? _].
Qed.

Lemma top_tracks_incomplete (w : world) (tag : pystr) (body : json)
      (entries : list json) (e : json) :
  answer net (top_tracks_request w tag) = Replied 200 (Ok body) ->
  top_tracks_of body entries ->
  In e entries ->
  (nameless e -> snd (get_recommendations net w tag) = Ok [])
  /\ (nameless e \/ artistless e -> snd (get_mood_songs net w tag) = Ok []).
Proof.
  intros Hnet Hbody Hin.
  destruct (@top_tracks_listed w tag body entries Hnet Hbody) as [-> ->].
  split.
  - intros (f & -> & Hf).
    destruct (@py_map_raises _ _
                (fun track => py_getitem track (lit "name")) entries _ Hin)
      as [x ->]; [|reflexivity].
    cbn [py_getitem]. rewrite Hf. eexists; reflexivity.
  - intros H.
    match goal with
    | |- try_except (py_map ?f _) _ = _ =>
        destruct (@py_map_raises _ _ f entries _ Hin) as [x ->];
        [|reflexivity]
    end.
    destruct H as [(f & -> & Hf) | (f & -> & Hf)]; cbn [py_getitem bind].
    + rewrite Hf. eexists; reflexivity.
    + destruct (dict_lookup (lit "name") f); cbn [bind ret];
        rewrite ?Hf; eexists; reflexivity.
Qed.

(** *** Lyrics *)

Lemma get_lyrics_object (w : world) (artist title : pystr) (d : dict) :
  net (lyrics_request w artist title) = Replied 200 (Ok (JObj d)) ->
  snd (get_lyrics net w artist title)
  = Ok match dict_lookup (lit "lyrics") d with
       | Some text => text
       | None =>
           match dict_lookup (lit "error") d with
           | Some e => JStr (lit "Error: " ++ py_format e)
           | None => JNull
           end
       end.
Proof.
  intros Hnet. unfold lyrics_request in Hnet.
  unfold get_lyrics, fetch_json. to_network w. rewrite Hnet.
  cbn [bind ret try_except status json_body Z.eqb Pos.eqb].
  unfold truthy_and_in. destruct d as [|kv d'] eqn:Ed.
  - reflexivity.
  - rewrite <- Ed. replace (py_truthy (JObj d)) with true by now subst d.
    cbn [py_in py_getitem bind ret].
    destruct (dict_lookup (lit "lyrics") d); [reflexivity|].
    cbn [bind ret].
    destruct (dict_lookup (lit "error") d); reflexivity.
Qed.

Lemma get_lyrics_failed (w : world) (artist title : pystr) :
  failed (net (lyrics_request w artist title)) ->
  snd (get_lyrics net w artist title) = Ok JNull.
Proof.
  unfold lyrics_request, get_lyrics, fetch_json. to_network w.
  destruct (net _) as [e|st body]; cbn [failed].
  - intros _. now destruct e.
  - cbn [bind ret try_except status json_body].
    destruct (Z.eqb_spec st 200) as [->|Hst].
    + intros [H | [e ->]]; [congruence | now destruct e].
    + reflexivity.
Qed.

Lemma expected_tags_at_most_3 (r : dict) : length (expected_tags r) <= 3.
Proof.
  unfold expected_tags.
  destruct (dict_lookup (lit "tags") r) as [[]|];
    rewrite ?length_map, ?length_firstn;
    try apply Nat.le_min_l; simpl; lia.
Qed.

(** C3 (amended).  [search_track] never raises.  When the response lists no
    recording the result is absent.  When it lists at least one and the
    first is an object that carries an id, whose length, when present, is
    an integer, whose releases, when present, are an empty value or a list
    that starts with an object, whose artist-credit, when present, is a
    list that starts with an object, and whose tags, when present, are a
    list whose first three entries are objects with a name, the result is
    the normalized record: duration the length divided by 1000 (0 without
    a length), album the first release's title ("Unknown Album" without a
    release or without its title) followed by the parenthesized date when
    there is one, artist the name of the first artist credit ("Unknown
    Artist" when the recording has no artist-credit field or that credit
    has no name), title defaulting to "Unknown Track", and the names of at
    most the first three tags in order.  A first recording without an id,
    and one whose artist-credit is an empty list, give the absent
    result. *)
Theorem search_track_normalizes_first_recording
        (w : world) (artist title : pystr) :
  (exists v, snd (search_track net w artist title) = Ok v)
  /\ (forall body,
         net (recording_request w artist title) = Replied 200 (Ok body) ->
         recordings_of body [] ->
         snd (search_track net w artist title) = Ok None)
  /\ (forall body r rest,
         net (recording_request w artist title) = Replied 200 (Ok body) ->
         recordings_of body (JObj r :: rest) ->
         provider_recording r = true ->
         snd (search_track net w artist title) = Ok (Some (normalized r))
         /\ length (track_tags (normalized r)) <= 3)
  /\ (forall body r rest,
         net (recording_request w artist title) = Replied 200 (Ok body) ->
         recordings_of body (JObj r :: rest) ->
         dict_lookup (lit "id") r = None
         \/ dict_lookup (lit "artist-credit") r = Some (JArr []) ->
         snd (search_track net w artist title) = Ok None).
Proof.
  split; [apply search_track_total | split; [|split]].
  - intros body. apply search_track_none.
  - intros body r rest Hnet Hbody Hr. split.
    + exact (@search_track_first w artist title body r rest Hnet Hbody Hr).
    + apply expected_tags_at_most_3.
  - intros body r rest Hnet Hbody [Hid | Hcredit].
    + now apply search_track_without_id with (body := body) (r := r)
                                               (rest := rest).
    + now apply search_track_empty_credit with (body := body) (r := r)
                                                 (rest := rest).
Qed.

(** C4 (amended).  [get_trending] never raises and always returns a sequence
    of at most 10 items.  When the response lists the chart's entries, it
    returns the first 10 of them in the provider's order, each entry as the
    provider sent it (50 entries give exactly 10); when the call fails (the
    GET raises, the status is not 200, the body does not decode) or the
    track list is missing, it returns the empty list. *)
Theorem get_trending_first_ten (w : world) :
  (exists v, snd (get_trending net w) = Ok v
             /\ ((exists l, v = JArr l /\ length l <= 10)
                 \/ (exists s, v = JStr s /\ length s <= 10)))
  /\ (forall body entries,
         net (chart_request w) = Replied 200 (Ok body) ->
         chart_of body entries ->
         snd (get_trending net w) = Ok (JArr (firstn 10 entries))
         /\ length (firstn 10 entries) = Nat.min 10 (length entries))
  /\ (failed (net (chart_request w)) ->
      snd (get_trending net w) = Ok (JArr []))
  /\ (forall d,
         net (chart_request w) = Replied 200 (Ok (JObj d)) ->
         dict_lookup (lit "tracks") d = None
         \/ (exists t, dict_lookup (lit "tracks") d = Some (JObj t)
                       /\ dict_lookup (lit "data") t = None) ->
         snd (get_trending net w) = Ok (JArr [])).
Proof.
  split; [apply get_trending_at_most_10 | split; [|split]].
  - intros body entries Hnet Hbody. split.
    + now apply get_trending_chart with (body := body).
    + apply length_firstn.
  - apply get_trending_failed.
  - apply get_trending_missing.
Qed.

Lemma top_tracks_same_request (net' : network) (w : world) (tag : pystr) :
  net' (top_tracks_request w tag) = net (top_tracks_request w tag) ->
  snd (get_recommendations net' w tag) = snd (get_recommendations net w tag)
  /\ snd (get_mood_songs net' w tag) = snd (get_mood_songs net w tag).
Proof.
  unfold top_tracks_request, get_recommendations, get_mood_songs.
  to_network w. unfold answer. intros ->. split; reflexivity.
Qed.

Lemma recommendations_of_named (w : world) (tag : pystr) (body : json)
      (entries : list json) :
  answer net (top_tracks_request w tag) = Replied 200 (Ok body) ->
  top_tracks_of body entries ->
  forallb named entries = true ->
  snd (get_recommendations net w tag) = Ok (map bare_name entries).
Proof.
  intros Hnet Hbody Hall.
  destruct (@top_tracks_listed w tag body entries Hnet Hbody) as [-> _].
  now rewrite py_map_names.
Qed.

Lemma top_tracks_without_key (w : world) (tag : pystr) :
  lastfm_api_key w = None ->
  snd (get_recommendations net w tag) = Ok []
  /\ snd (get_mood_songs net w tag) = Ok [].
Proof.
  intros Hkey. apply top_tracks_failed.
  rewrite (@answer_without_key net w tag Hkey). exact I.
Qed.

(** C7 (amended).  [get_recommendations] and [get_mood_songs] send the same
    request, to the top-tracks method with the tag and the limit 5, and
    depend on the network only through its answer to it.  On a successful
    response whose entries each carry a name and an artist with a name, the
    first returns the bare track names and the second the "name - artist"
    strings.  When an entry lacks its artist the two differ in more than
    shape: the first still returns the names, the second returns the empty
    list; an entry without a name empties both.  On any failure (the GET
    raises, the status is not 200, the body does not decode) both return
    the empty list, and so they do, whatever the network would answer, when
    the API key is unset: the request is refused before it is sent.
    Neither ever raises. *)
Theorem top_tracks_adapters (w : world) (tag : pystr) :
  (dict_lookup (lit "method") (top_tracks_params w tag)
   = Some (JStr (lit "tag.gettoptracks"))
   /\ dict_lookup (lit "tag") (top_tracks_params w tag) = Some (JStr tag)
   /\ dict_lookup (lit "limit") (top_tracks_params w tag) = Some (JInt 5))
  /\ (forall net' : network,
         net' (top_tracks_request w tag) = net (top_tracks_request w tag) ->
         snd (get_recommendations net' w tag)
         = snd (get_recommendations net w tag)
         /\ snd (get_mood_songs net' w tag) = snd (get_mood_songs net w tag))
  /\ (forall body entries,
         answer net (top_tracks_request w tag) = Replied 200 (Ok body) ->
         top_tracks_of body entries ->
         forallb well_formed_track entries = true ->
         snd (get_recommendations net w tag) = Ok (map bare_name entries)
         /\ snd (get_mood_songs net w tag) = Ok (map name_dash_artist entries))
  /\ (forall body entries e,
         answer net (top_tracks_request w tag) = Replied 200 (Ok body) ->
         top_tracks_of body entries ->
         In e entries ->
         (artistless e ->
          forallb named entries = true ->
          snd (get_recommendations net w tag) = Ok (map bare_name entries)
          /\ snd (get_mood_songs net w tag) = Ok [])
         /\ (nameless e ->
             snd (get_recommendations net w tag) = Ok []
             /\ snd (get_mood_songs net w tag) = Ok []))
  /\ (failed (answer net (top_tracks_request w tag)) ->
      snd (get_recommendations net w tag) = Ok []
      /\ snd (get_mood_songs net w tag) = Ok [])
  /\ (lastfm_api_key w = None ->
      dict_lookup (lit "api_key") (top_tracks_params w tag) = Some JNull
      /\ snd (get_recommendations net w tag) = Ok []
      /\ snd (get_mood_songs net w tag) = Ok [])
  /\ (exists names songs,
         snd (get_recommendations net w tag) = Ok names
         /\ snd (get_mood_songs net w tag) = Ok songs).
Proof.
  repeat apply conj; try reflexivity.
  - intros net'. apply top_tracks_same_request.
  - intros body entries. apply top_tracks_well_formed.
  - intros body entries e Hnet Hbody Hin.
    destruct (@top_tracks_incomplete w tag body entries e Hnet Hbody Hin)
      as [Hrec Hmood].
    split.
    + intros He Hall. split.
      * now apply recommendations_of_named with (body := body).
      * apply Hmood. now right.
    + intros He. split; [now apply Hrec | apply Hmood; now left].
  - apply top_tracks_failed.
  - intros Hkey. split.
    + unfold top_tracks_params. rewrite Hkey. reflexivity.
    + now apply top_tracks_without_key.
  - destruct (top_tracks_total w tag) as [[names ->] [songs ->]].
    now exists names, songs.
Qed.

(** C10.  On a 200 response whose track list holds [n] well-formed
    entries, [get_recommendations] returns [n] strings and
    [get_mood_songs] returns [n] strings, however large [n] is: the limit 5
    is a parameter of the request only.  [get_trending], by contrast, cuts
    its list to 10 entries. *)
Theorem top_tracks_limit_not_enforced (w : world) (tag : pystr) :
  dict_lookup (lit "limit") (top_tracks_params w tag) = Some (JInt 5)
  /\ (forall body entries,
         answer net (top_tracks_request w tag) = Replied 200 (Ok body) ->
         top_tracks_of body entries ->
         forallb well_formed_track entries = true ->
         exists names songs,
           snd (get_recommendations net w tag) = Ok (map JStr names)
           /\ snd (get_mood_songs net w tag) = Ok songs
           /\ length names = length entries
           /\ length songs = length entries)
  /\ (forall body entries,
         net (chart_request w) = Replied 200 (Ok body) ->
         chart_of body entries ->
         exists l, snd (get_trending net w) = Ok (JArr l)
                   /\ length l = Nat.min 10 (length entries)).
Proof.
  split; [reflexivity | split].
  - intros body entries Hnet Hbody Hwf.
    destruct (@top_tracks_well_formed w tag body entries Hnet Hbody Hwf)
      as [-> ->].
    exists (map (fun e => or_empty (entry_name e)) entries),
           (map name_dash_artist entries).
    rewrite map_map, !length_map. repeat split; reflexivity.
  - intros body entries Hnet Hbody.
    exists (firstn 10 entries). split.
    + now apply get_trending_chart with (body := body).
    + apply length_firstn.
Qed.

(** C8 (amended).  On every response no adapter raises ([get_lyrics]: on
    every body that is a JSON object).  Fields read with a default degrade:
    a recording that carries nothing but its id still gives a record, with
    "Unknown Track", "Unknown Artist", "Unknown Album", duration 0 and no
    tags, and a chart without its track list gives the empty list.  Fields
    read without a default do not: a first recording without an id gives
    the absent result, and one entry without its name (or, for mood songs,
    without its artist) makes the whole list empty. *)
Theorem missing_fields_degrade_or_empty (w : world) (artist title tag : pystr) :
  ((exists v, snd (search_track net w artist title) = Ok v)
   /\ (exists v, snd (get_trending net w) = Ok v)
   /\ (exists v, snd (get_recommendations net w tag) = Ok v)
   /\ (exists v, snd (get_mood_songs net w tag) = Ok v)
   /\ (forall d,
          net (lyrics_request w artist title) = Replied 200 (Ok (JObj d)) ->
          exists v, snd (get_lyrics net w artist title) = Ok v))
  /\ (forall body id rest,
         net (recording_request w artist title) = Replied 200 (Ok body) ->
         recordings_of body (JObj [(lit "id", id)] :: rest) ->
         snd (search_track net w artist title)
         = Ok (Some {| track_title := JStr (lit "Unknown Track");
                       track_artist := JStr (lit "Unknown Artist");
                       track_album := lit "Unknown Album";
                       track_duration := 0;
                       track_url := lit "https://musicbrainz.org/recording/"
                                    ++ py_format id;
                       track_tags := [] |}))
  /\ (forall d,
         net (chart_request w) = Replied 200 (Ok (JObj d)) ->
         dict_lookup (lit "tracks") d = None ->
         snd (get_trending net w) = Ok (JArr []))
  /\ (forall body r rest,
         net (recording_request w artist title) = Replied 200 (Ok body) ->
         recordings_of body (JObj r :: rest) ->
         dict_lookup (lit "id") r = None ->
         snd (search_track net w artist title) = Ok None)
  /\ (forall body entries e,
         answer net (top_tracks_request w tag) = Replied 200 (Ok body) ->
         top_tracks_of body entries ->
         In e entries ->
         (nameless e -> snd (get_recommendations net w tag) = Ok [])
         /\ (nameless e \/ artistless e ->
             snd (get_mood_songs net w tag) = Ok [])).
Proof.
  split; [|split; [|split; [|split]]].
  - repeat apply conj.
    + apply search_track_total.
    + apply get_trending_total.
    + apply top_tracks_total.
    + apply top_tracks_total.
    + intros d Hnet. rewrite (@get_lyrics_object w artist title d Hnet).
      eexists; reflexivity.
  - intros body id rest Hnet Hbody.
    rewrite (@search_track_first w artist title body _ rest Hnet Hbody);
      reflexivity.
  - intros d Hnet Hd. apply (@get_trending_missing w d Hnet). now left.
  - intros body r rest. apply search_track_without_id.
  - intros body entries e. apply top_tracks_incomplete.
Qed.

End AdapterProperties.

(** ** The adapters on concrete responses *)

Lemma recordings_response_lists (recordings : list json) :
  recordings_of (recordings_response recordings) recordings.
Proof. eexists. split; reflexivity. Qed.

Lemma chart_response_lists (n : nat) :
  chart_of (chart_response n) (map chart_entry (seq 0 n)).
Proof. eexists _, _. repeat split; reflexivity. Qed.

Lemma top_tracks_response_lists (entries : list json) :
  top_tracks_of (top_tracks_response entries) entries.
Proof. eexists _, _. repeat split; reflexivity. Qed.

Lemma search_track_witness :
  provider_recording hello_recording = true
  /\ forall (b : Builtins) (w : world) (artist title : pystr),
      snd (search_track (answering (recordings_response [JObj hello_recording]))
                        w artist title)
      = Ok (Some {| track_title := JStr (lit "Hello");
                    track_artist := JStr (lit "Adele");
                    track_album := lit "25 (2015-11-20)";
                    track_duration := 215;
                    track_url := lit "https://musicbrainz.org/recording/b1a9c0e9";
                    track_tags := [JStr (lit "pop"); JStr (lit "soul");
                                   JStr (lit "ballad")] |}).
Proof.
  split; [reflexivity|]. intros b w artist title.
  destruct (@search_track_normalizes_first_recording
              b (answering (recordings_response [JObj hello_recording]))
              w artist title) as (_ & _ & H & _).
  destruct (H (recordings_response [JObj hello_recording]) hello_recording []
              eq_refl (recordings_response_lists _) eq_refl) as [-> _].
  reflexivity.
Defined.

(** C3, as stated, fails: the response lists one recording, which has a
    title and no id, and the result is absent, not a record; and so it is
    for a recording with an id whose list of artist credits is empty, where
    the claim has the artist "Unknown Artist". *)
Lemma search_track_recording_without_id :
  recordings_of (recordings_response [JObj [(lit "title", JStr (lit "Hello"))]])
                [JObj [(lit "title", JStr (lit "Hello"))]]
  /\ (forall (b : Builtins) (w : world) (artist title : pystr),
         snd (search_track
                (answering
                   (recordings_response
                      [JObj [(lit "title", JStr (lit "Hello"))]]))
                w artist title)
         = Ok None)
  /\ (forall (b : Builtins) (w : world) (artist title : pystr),
         snd (search_track
                (answering
                   (recordings_response
                      [JObj [ (lit "id", JStr (lit "x1"));
                              (lit "title", JStr (lit "Hello"));
                              (lit "artist-credit", JArr []) ]]))
                w artist title)
         = Ok None).
Proof.
  split; [apply recordings_response_lists|]. split; intros b w artist title.
  - apply (@search_track_without_id b _ w artist title _ _ []
             eq_refl (recordings_response_lists _)).
    reflexivity.
  - apply (@search_track_empty_credit b _ w artist title _ _ []
             eq_refl (recordings_response_lists _)).
    reflexivity.
Qed.

Lemma get_trending_witness :
  snd (get_trending (answering (chart_response 50)) (startup None))
  = Ok (JArr (map chart_entry (seq 0 10)))
  /\ snd (get_trending (fun _ => Replied 503 (Ok (chart_response 50)))
                       (startup None))
     = Ok (JArr [])
  /\ snd (get_trending (answering (JObj [])) (startup None)) = Ok (JArr []).
Proof.
  split; [|split].
  - destruct (get_trending_first_ten (answering (chart_response 50))
                                     (startup None)) as (_ & H & _).
    destruct (H _ _ eq_refl (chart_response_lists 50)) as [-> _].
    reflexivity.
  - destruct (get_trending_first_ten
                (fun _ => Replied 503 (Ok (chart_response 50)))
                (startup None)) as (_ & _ & H & _).
    apply H. left. discriminate.
  - destruct (get_trending_first_ten (answering (JObj [])) (startup None))
      as (_ & _ & _ & H).
    apply (H [] eq_refl). now left.
Defined.

(** C4, as stated, fails: the entry comes back as the provider sent it,
    with its id and its nested artist object, not reduced to a title and
    an artist name. *)
Lemma get_trending_entries_not_reduced :
  snd (get_trending (answering (chart_response 1)) (startup None))
  = Ok (JArr [chart_entry 0])
  /\ py_getitem (chart_entry 0) (lit "id") = Ok (JInt 0)
  /\ py_getitem (chart_entry 0) (lit "artist")
     = Ok (JObj [(lit "id", JInt 27); (lit "name", JStr (lit "Artist"))])
  /\ ~ reduced_entry (chart_entry 0).
Proof.
  split; [|split; [|split]].
  - destruct (get_trending_chart (answering (chart_response 1)) (startup None)
                                 eq_refl (chart_response_lists 1)).
    reflexivity.
  - reflexivity.
  - reflexivity.
  - intros (t & a & H). cbv in H. discriminate H.
Qed.

Lemma top_tracks_witness :
  (forall (b : Builtins) (tag : pystr),
      snd (get_recommendations (answering (top_tracks_response two_songs))
                               configured tag)
      = Ok [JStr (lit "Song A"); JStr (lit "Song B")]
      /\ snd (get_mood_songs (answering (top_tracks_response two_songs))
                             configured tag)
         = Ok [lit "Song A - Artist X"; lit "Song B - Artist Y"])
  /\ (forall (b : Builtins) (tag : pystr),
         snd (get_recommendations (fun _ => Replied 500 (Ok JNull))
                                  configured tag) = Ok []
         /\ snd (get_mood_songs (fun _ => Replied 500 (Ok JNull))
                                configured tag) = Ok [])
  /\ (forall (b : Builtins) (tag : pystr),
         snd (get_recommendations (answering (top_tracks_response two_songs))
                                  (startup None) tag) = Ok []
         /\ snd (get_mood_songs (answering (top_tracks_response two_songs))
                                (startup None) tag) = Ok []).
Proof.
  split; [|split].
  - intros b tag.
    destruct (@top_tracks_adapters
                b (answering (top_tracks_response two_songs)) configured tag)
      as (_ & _ & H & _).
    destruct (H _ _ eq_refl (top_tracks_response_lists two_songs) eq_refl)
      as [-> ->].
    split; reflexivity.
  - intros b tag.
    destruct (@top_tracks_adapters
                b (fun _ => Replied 500 (Ok JNull)) configured tag)
      as (_ & _ & _ & _ & H & _).
    apply H. left. discriminate.
  - intros b tag.
    destruct (@top_tracks_adapters
                b (answering (top_tracks_response two_songs))
                (startup None) tag)
      as (_ & _ & _ & _ & _ & H & _).
    exact (proj2 (H eq_refl)).
Defined.

(** C7, as stated, fails: the response is successful, its second entry has
    a name and no artist, and the two adapters differ in more than the
    shape of their strings: one returns both names, the other nothing. *)
Lemma top_tracks_artistless_entry :
  top_tracks_of
    (top_tracks_response [ top_entry "Song A" "Artist X";
                           JObj [(lit "name", JStr (lit "Song B"))] ])
    [top_entry "Song A" "Artist X"; JObj [(lit "name", JStr (lit "Song B"))]]
  /\ forall (b : Builtins) (tag : pystr),
      snd (get_recommendations
             (answering (top_tracks_response
                           [ top_entry "Song A" "Artist X";
                             JObj [(lit "name", JStr (lit "Song B"))] ]))
             configured tag)
      = Ok [JStr (lit "Song A"); JStr (lit "Song B")]
      /\ snd (get_mood_songs
                (answering (top_tracks_response
                              [ top_entry "Song A" "Artist X";
                                JObj [(lit "name", JStr (lit "Song B"))] ]))
                configured tag)
         = Ok [].
Proof.
  split; [apply top_tracks_response_lists|]. intros b tag.
  split; reflexivity.
Qed.

Lemma top_tracks_limit_witness :
  length six_songs = 6
  /\ forall (b : Builtins) (tag : pystr),
      exists names songs,
        snd (get_recommendations (answering (top_tracks_response six_songs))
                                 configured tag) = Ok (map JStr names)
        /\ snd (get_mood_songs (answering (top_tracks_response six_songs))
                               configured tag) = Ok songs
        /\ length names = 6 /\ length songs = 6.
Proof.
  split; [reflexivity|]. intros b tag.
  destruct (@top_tracks_limit_not_enforced
              b (answering (top_tracks_response six_songs)) configured tag)
    as (_ & H & _).
  exact (H _ _ eq_refl (top_tracks_response_lists six_songs) eq_refl).
Defined.

Lemma missing_fields_witness :
  (forall (b : Builtins) (w : world) (artist title : pystr),
      snd (search_track
             (answering (recordings_response [JObj [(lit "id", JStr (lit "x1"))]]))
             w artist title)
      = Ok (Some {| track_title := JStr (lit "Unknown Track");
                    track_artist := JStr (lit "Unknown Artist");
                    track_album := lit "Unknown Album";
                    track_duration := 0;
                    track_url := lit "https://musicbrainz.org/recording/x1";
                    track_tags := [] |}))
  /\ (forall (b : Builtins) (tag : pystr),
         snd (get_recommendations
                (answering (top_tracks_response
                              [top_entry "Song A" "Artist X"; JObj []]))
                configured tag) = Ok []).
Proof.
  split.
  - intros b w artist title.
    destruct (@missing_fields_degrade_or_empty
                b (answering (recordings_response
                                [JObj [(lit "id", JStr (lit "x1"))]]))
                w artist title []) as (_ & H & _).
    exact (H _ (JStr (lit "x1")) [] eq_refl (recordings_response_lists _)).
  - intros b tag.
    destruct (@missing_fields_degrade_or_empty
                b (answering (top_tracks_response
                                [top_entry "Song A" "Artist X"; JObj []]))
                configured [] [] tag) as (_ & _ & _ & _ & H).
    destruct (H _ _ (JObj []) eq_refl (top_tracks_response_lists _)
                (or_intror (or_introl eq_refl))) as [Hrec _].
    apply Hrec. exists []. split; reflexivity.
Defined.

(** C8, as stated, fails: of two entries the first is well formed and the
    second lacks its artist; the mood adapter returns nothing at all, not
    the well-formed entry. *)
Lemma mood_songs_incomplete_entry :
  well_formed_track (top_entry "Song A" "Artist X") = true
  /\ artistless (JObj [(lit "name", JStr (lit "Song B"))])
  /\ forall (b : Builtins) (tag : pystr),
      snd (get_mood_songs
             (answering (top_tracks_response
                           [ top_entry "Song A" "Artist X";
                             JObj [(lit "name", JStr (lit "Song B"))] ]))
             configured tag)
      = Ok [].
Proof.
  split; [reflexivity | split].
  - exists [(lit "name", JStr (lit "Song B"))]. split; reflexivity.
  - intros b tag.
    destruct (@top_tracks_incomplete
                b (answering (top_tracks_response
                                [ top_entry "Song A" "Artist X";
                                  JObj [(lit "name", JStr (lit "Song B"))] ]))
                configured tag _ _ (JObj [(lit "name", JStr (lit "Song B"))])
                eq_refl (top_tracks_response_lists _)
                (or_intror (or_introl eq_refl))) as [_ H].
    apply H. right. exists [(lit "name", JStr (lit "Song B"))].
    split; reflexivity.
Qed.

(** ** [get_lyrics] *)

(** X1.  On a body that is a JSON object, and on a failed call,
    [get_lyrics] does what section 4.3 of the specification says: the lyrics field if
    there is one, else the error field behind "Error: ", else nothing. *)
Theorem get_lyrics_on_objects :
  forall (b : Builtins) (net : network) (w : world) (artist title : pystr),
    (forall d,
        net (lyrics_request w artist title) = Replied 200 (Ok (JObj d)) ->
        snd (get_lyrics net w artist title)
        = Ok match dict_lookup (lit "lyrics") d with
             | Some text => text
             | None =>
                 match dict_lookup (lit "error") d with
                 | Some e => JStr (lit "Error: " ++ py_format e)
                 | None => JNull
                 end
             end)
    /\ (failed (net (lyrics_request w artist title)) ->
        snd (get_lyrics net w artist title) = Ok JNull)
    /\ snd (get_lyrics
              (answering (JObj [(lit "error", JStr (lit "No lyrics found"))]))
              w artist title)
       = Ok (JStr (lit "Error: No lyrics found")).
Proof.
  intros b net w artist title. split; [|split].
  - intros d. apply get_lyrics_object.
  - apply get_lyrics_failed.
  - rewrite (@get_lyrics_object b _ w artist title
               [(lit "error", JStr (lit "No lyrics found"))] eq_refl).
    reflexivity.
Qed.

Lemma get_lyrics_on_objects_witness :
  (forall (b : Builtins) (w : world) (artist title : pystr),
      snd (get_lyrics (answering (JObj [(lit "lyrics", JStr (lit "la la la"))]))
                      w artist title)
      = Ok (JStr (lit "la la la")))
  /\ (forall (b : Builtins) (w : world) (artist title : pystr),
         snd (get_lyrics (fun _ => Replied 404
                                     (Ok (JObj [(lit "error",
                                                 JStr (lit "No lyrics found"))])))
                         w artist title)
         = Ok JNull).
Proof.
  split; intros b w artist title.
  - exact (proj1 (@get_lyrics_on_objects b _ w artist title) _ eq_refl).
  - apply (proj1 (proj2 (@get_lyrics_on_objects b _ w artist title))).
    left. discriminate.
Defined.

(** C6 (the code diverges from the claim).  A response with status 200
    whose JSON body is not an object, here a number, a sentence or a list
    that mentions "lyrics", makes [get_lyrics] raise [TypeError] instead of
    returning the absent result: nothing in [get_lyrics] catches what the
    tests [key in data] and [data[key]] raise. *)
Theorem get_lyrics_raises_on_non_object :
  (forall (b : Builtins) (w : world) (artist title : pystr),
      snd (get_lyrics (answering (JInt 5)) w artist title) = Raise TypeError)
  /\ (forall (b : Builtins) (w : world) (artist title : pystr),
         snd (get_lyrics (answering (JStr (lit "no lyrics found")))
                         w artist title) = Raise TypeError)
  /\ (forall (b : Builtins) (w : world) (artist title : pystr),
         snd (get_lyrics (answering (JArr [JStr (lit "lyrics")]))
                         w artist title) = Raise TypeError).
Proof.
  repeat split; intros b w artist title;
    unfold get_lyrics, fetch_json; to_network w; reflexivity.
Qed.
Unset Implicit Arguments.

(* ================================================================= *)
(** ** The chat commands *)

(** Runs the plumbing of a command: the binds, the sends and the calls. *)
Ltac run_cmd :=
  unfold cmd_bind, cmd_ret, send, delivering, lift, call, get_state,
    put_state;
  cbn [ran_state ran_sent ran_outcome fst snd app].

Lemma py_map_ok {A B} (f : A -> py B) (g : A -> B) (l : list A) :
  (forall x, In x l -> f x = Ok (g x)) -> py_map f l = Ok (map g l).
Proof.
  induction l as [|x l IH]; intros H; cbn [py_map map].
  - reflexivity.
  - rewrite (H x (or_introl eq_refl)), IH; [reflexivity|].
    intros y Hy. apply H. now right.
Qed.

(** Sending a list of messages delivers them up to the first refusal. *)
Lemma send_each_deliver {S} (ch : channel) (ms : list message) (s : S) :
  send_each ch ms s
  = {| ran_state := s;
       ran_sent := fst (deliver ch ms);
       ran_outcome := snd (deliver ch ms) |}.
Proof.
  induction ms as [|m ms IH]; cbn [send_each deliver].
  - reflexivity.
  - unfold cmd_bind, send. destruct (ch m) as [e|].
    + reflexivity.
    + cbn [ran_state ran_sent ran_outcome fst snd app]. now rewrite IH.
Qed.

Lemma deliver_all (ms : list message) : deliver delivering ms = (ms, Ok tt).
Proof.
  induction ms as [|m ms IH]; cbn [deliver delivering].
  - reflexivity.
  - now rewrite IH.
Qed.

Lemma send_each_run {S} (ms : list message) (s : S) :
  send_each delivering ms s
  = {| ran_state := s; ran_sent := ms; ran_outcome := Ok tt |}.
Proof. now rewrite send_each_deliver, deliver_all. Qed.

Lemma str_eqb_eq (a b : pystr) : str_eqb a b = true <-> a = b.
Proof.
  revert b; induction a as [|x a IH]; intros [|y b]; cbn [str_eqb];
    try (split; [discriminate | congruence]).
  - split; reflexivity.
  - rewrite andb_true_iff, N.eqb_eq, IH. split.
    + now intros [-> ->].
    + intros H. injection H as -> ->. now split.
Qed.

Lemma str_eqb_refl (a : pystr) : str_eqb a a = true.
Proof. now apply str_eqb_eq. Qed.

Lemma str_eqb_neq (a b : pystr) : a <> b -> str_eqb a b = false.
Proof.
  intros H. destruct (str_eqb a b) eqn:E; [|reflexivity].
  now apply str_eqb_eq in E.
Qed.

(** *** The chunks of [lyrics_command] *)

Lemma firstn_plus {A} (a b : nat) (l : list A) :
  firstn (a + b) l = firstn a l ++ firstn b (skipn a l).
Proof.
  revert l; induction a as [|a IH]; intros l.
  - reflexivity.
  - destruct l as [|x l]; simpl.
    + now rewrite firstn_nil.
    + now rewrite IH.
Qed.

Lemma concat_pieces {A} (k cnt : nat) (l : list A) :
  concat (pieces k cnt l) = firstn (cnt * k) l.
Proof.
  unfold pieces. induction cnt as [|cnt IH].
  - reflexivity.
  - rewrite seq_S, map_app, concat_app, IH. cbn [map concat plus].
    rewrite app_nil_r.
    replace (S cnt * k) with (cnt * k + k) by lia.
    now rewrite firstn_plus.
Qed.

(** The length of [range(0, min(n, c * k), k)]: enough pieces of [k] to
    reach [min(n, c * k)], and no piece more. *)
Lemma chunk_count (k c n : nat) :
  0 < k ->
  let m := Nat.min n (c * k) in
  let cnt := (m + (k - 1)) / k in
  cnt <= c /\ m <= cnt * k /\ cnt * k < m + k.
Proof.
  intros Hk m cnt.
  pose proof (Nat.div_mod_eq (m + (k - 1)) k) as E.
  pose proof (Nat.mod_upper_bound (m + (k - 1)) k ltac:(lia)) as Hr.
  fold cnt in E.
  assert (m <= c * k) by (unfold m; lia).
  assert (m <= cnt * k /\ cnt * k < m + k) as [H1 H2] by nia.
  repeat split; try assumption. nia.
Qed.

Lemma length_piece {A} (k j : nat) (l : list A) :
  length (firstn k (skipn (j * k) l)) = Nat.min k (length l - j * k).
Proof. now rewrite length_firstn, length_skipn. Qed.

Lemma chunks_of_string (s : pystr) :
  lyrics_chunks (JStr s) = Ok (map JStr (lyrics_parts s)).
Proof.
  unfold lyrics_chunks, lyrics_parts, py_len, py_range, pieces.
  cbn [bind ret]. rewrite Nat.sub_0_r, map_map.
  rewrite py_map_ok with
    (g := fun i => JStr (firstn chunk_size (skipn i s))).
  - now rewrite !map_map.
  - intros i _. unfold py_slice, ret.
    now replace (i + chunk_size - i) with chunk_size by lia.
Qed.

Lemma limit_is_three_chunks : lyrics_limit = 3 * chunk_size /\ 0 < chunk_size.
Proof. split; [reflexivity | unfold chunk_size; lia]. Qed.

Lemma lyrics_parts_cover (s : pystr) :
  concat (lyrics_parts s) = firstn lyrics_limit s
  /\ length (lyrics_parts s) <= 3
  /\ Forall (fun p => 1 <= length p <= chunk_size) (lyrics_parts s).
Proof.
  destruct limit_is_three_chunks as [Hlim Hk].
  unfold lyrics_parts. rewrite Hlim.
  destruct (chunk_count chunk_size 3 (length s) Hk) as (Hc & Hlo & Hhi).
  set (cnt := (Nat.min (length s) (3 * chunk_size) + (chunk_size - 1))
              / chunk_size) in *.
  split; [|split].
  - rewrite concat_pieces.
    destruct (Nat.le_gt_cases (length s) (3 * chunk_size)) as [Hs|Hs].
    + rewrite !firstn_all2; [reflexivity| lia | lia].
    + f_equal. nia.
  - unfold pieces. now rewrite length_map, length_seq.
  - apply Forall_forall. intros p Hp. unfold pieces in Hp.
    apply in_map_iff in Hp as (j & <- & Hj). apply in_seq in Hj.
    rewrite length_piece. nia.
Qed.

(** X4.  Line 203 cuts a text into at most three pieces, none empty and
    none longer than 1900 characters, which put end to end are the first
    5700 characters of the text: the whole text when it is no longer than
    that.  An empty text gives no piece. *)
Theorem lyrics_chunks_cover (s : pystr) :
  lyrics_chunks (JStr s) = Ok (map JStr (lyrics_parts s))
  /\ concat (lyrics_parts s) = firstn lyrics_limit s
  /\ (length s <= lyrics_limit -> concat (lyrics_parts s) = s)
  /\ length (lyrics_parts s) <= 3
  /\ Forall (fun p => 1 <= length p <= chunk_size) (lyrics_parts s)
  /\ (s = [] -> lyrics_parts s = []).
Proof.
  destruct (lyrics_parts_cover s) as (Hcat & Hlen & Hall).
  split; [apply chunks_of_string|]. split; [exact Hcat|].
  split; [|split; [exact Hlen|split; [exact Hall|]]].
  - intros Hs. rewrite Hcat. now apply firstn_all2.
  - intros ->. reflexivity.
Qed.

Lemma lyrics_chunks_cover_witness :
  lyrics_chunks (JStr (repeat 97%N 4000))
  = Ok (map JStr [repeat 97%N 1900; repeat 97%N 1900; repeat 97%N 200])
  /\ concat (lyrics_parts (lit "la la la")) = lit "la la la".
Proof.
  split.
  - rewrite (proj1 (lyrics_chunks_cover (repeat 97%N 4000))).
    vm_compute. reflexivity.
  - apply (proj1 (proj2 (proj2 (lyrics_chunks_cover (lit "la la la"))))).
    apply Nat.leb_le. vm_compute. reflexivity.
Defined.

(** *** [lyrics_command] *)

(** The runs of the commands are described on the channel [delivering],
    where [ctx.send] delivers every message; what a refusal changes is
    stated for [recommend_command], [mood_command] and [playlist_command]
    further down. *)

Section LyricsCommand.
Context {builtins : Builtins}.
Variable net : network.

Lemma send_lyrics_text (text : pystr) (w : world) :
  send_lyrics delivering (JStr text) w
  = {| ran_state := w;
       ran_sent := map code_block (lyrics_parts text)
                   ++ (if Nat.ltb lyrics_limit (length text)
                       then [lyrics_truncated]
                       else []);
       ran_outcome := Ok tt |}.
Proof.
  unfold send_lyrics. run_cmd. rewrite chunks_of_string. run_cmd.
  rewrite send_each_run. run_cmd. cbn [py_len ret]. run_cmd.
  rewrite map_map. unfold code_block. cbn [py_format].
  destruct (Nat.ltb lyrics_limit (length text)); run_cmd;
    now rewrite ?app_nil_r.
Qed.

Lemma lyrics_command_parsed (w : world) (query title artist : pystr) :
  parse_query query = Ok (Parsed title artist) ->
  lyrics_command net delivering query w
  = let r := (lyrics <- call (fun w => get_lyrics net w artist title) ;;
              if negb (py_truthy lyrics)
              then send delivering (no_lyrics title artist)
              else send_lyrics delivering lyrics)%cmd w in
    {| ran_state := ran_state r;
       ran_sent := searching_lyrics query :: ran_sent r;
       ran_outcome := ran_outcome r |}.
Proof.
  intros Hp. unfold lyrics_command, lyrics_query, searching_lyrics, no_lyrics.
  rewrite Hp. cbn [bind ret]. run_cmd. reflexivity.
Qed.

(** X5.  With every message delivered: when the query parses and the
    provider has a text for it,
    [lyrics_command] sends the progress line, then the pieces of the text
    in order, each in a code block, then the truncation notice exactly when
    the text is longer than 5700 characters; it ends normally and leaves the
    session open. *)
Theorem lyrics_command_posts_lyrics
        (w : world) (query title artist text : pystr) :
  parse_query query = Ok (Parsed title artist) ->
  snd (get_lyrics net w artist title) = Ok (JStr text) ->
  text <> [] ->
  lyrics_command net delivering query w
  = {| ran_state := create_session w;
       ran_sent := searching_lyrics query
                   :: map code_block (lyrics_parts text)
                   ++ (if Nat.ltb lyrics_limit (length text)
                       then [lyrics_truncated]
                       else []);
       ran_outcome := Ok tt |}.
Proof.
  intros Hp Hl Hne.
  rewrite (lyrics_command_parsed w query title artist Hp).
  run_cmd. rewrite Hl.
  assert (py_truthy (JStr text) = true) as ->
      by (destruct text; [congruence | reflexivity]).
  cbn [negb].
  change (fst (get_lyrics net w artist title)) with (create_session w).
  rewrite send_lyrics_text. reflexivity.
Qed.

(** X6.  The other ways [lyrics_command] ends, with every message
    delivered.  After a parse failure it
    has sent the progress line and raises [TypeError], with no session
    created and no request made.  When the provider has nothing (the result
    is [None] or empty) it sends the progress line and the not-found line.
    When [get_lyrics] raises, the exception leaves the command after the
    progress line. *)
Theorem lyrics_command_without_lyrics (w : world) (query : pystr) :
  (parse_query query = Ok ParseFailure ->
   lyrics_command net delivering query w
   = {| ran_state := w;
        ran_sent := [searching_lyrics query];
        ran_outcome := Raise TypeError |})
  /\ (forall title artist v,
         parse_query query = Ok (Parsed title artist) ->
         snd (get_lyrics net w artist title) = Ok v ->
         py_truthy v = false ->
         lyrics_command net delivering query w
         = {| ran_state := create_session w;
              ran_sent := [searching_lyrics query; no_lyrics title artist];
              ran_outcome := Ok tt |})
  /\ (forall title artist e,
         parse_query query = Ok (Parsed title artist) ->
         snd (get_lyrics net w artist title) = Raise e ->
         lyrics_command net delivering query w
         = {| ran_state := create_session w;
              ran_sent := [searching_lyrics query];
              ran_outcome := Raise e |}).
Proof.
  split; [|split].
  - intros Hp. unfold lyrics_command, lyrics_query, searching_lyrics.
    rewrite Hp. reflexivity.
  - intros title artist v Hp Hl Hv.
    rewrite (lyrics_command_parsed w query title artist Hp).
    run_cmd. rewrite Hl, Hv. reflexivity.
  - intros title artist e Hp Hl.
    rewrite (lyrics_command_parsed w query title artist Hp).
    run_cmd. rewrite Hl. reflexivity.
Qed.

End LyricsCommand.

Lemma lyrics_command_posts_lyrics_witness :
  parse_query (lit "Hello by Adele") = Ok (Parsed (lit "Hello") (lit "Adele"))
  /\ forall b : Builtins,
      lyrics_command (answering (lyrics_response "la la la")) delivering
                     (lit "Hello by Adele") (startup None)
      = {| ran_state := create_session (startup None);
           ran_sent := [ searching_lyrics (lit "Hello by Adele");
                         code_block (lit "la la la") ];
           ran_outcome := Ok tt |}.
Proof.
  split; [vm_compute; reflexivity|]. intros b.
  rewrite (@lyrics_command_posts_lyrics
             b (answering (lyrics_response "la la la")) (startup None)
             (lit "Hello by Adele") (lit "Hello") (lit "Adele")
             (lit "la la la")).
  - vm_compute. reflexivity.
  - vm_compute. reflexivity.
  - vm_compute. reflexivity.
  - discriminate.
Defined.

Lemma lyrics_command_without_lyrics_witness :
  (forall b : Builtins,
      lyrics_command (answering (lyrics_response "la la la")) delivering
                     (lit "Hello") (startup None)
      = {| ran_state := startup None;
           ran_sent := [searching_lyrics (lit "Hello")];
           ran_outcome := Raise TypeError |})
  /\ (forall b : Builtins,
         lyrics_command (answering (JObj [])) delivering (lit "Hello by Adele")
                        (startup None)
         = {| ran_state := create_session (startup None);
              ran_sent := [ searching_lyrics (lit "Hello by Adele");
                            no_lyrics (lit "Hello") (lit "Adele") ];
              ran_outcome := Ok tt |})
  /\ (forall b : Builtins,
         lyrics_command (answering (JInt 5)) delivering (lit "Hello by Adele")
                        (startup None)
         = {| ran_state := create_session (startup None);
              ran_sent := [searching_lyrics (lit "Hello by Adele")];
              ran_outcome := Raise TypeError |}).
Proof.
  split; [|split]; intros b.
  - apply (proj1 (@lyrics_command_without_lyrics b _ (startup None)
                    (lit "Hello"))).
    vm_compute. reflexivity.
  - apply (proj1 (proj2 (@lyrics_command_without_lyrics
                           b (answering (JObj [])) (startup None)
                           (lit "Hello by Adele")))
                 (lit "Hello") (lit "Adele") JNull).
    + vm_compute. reflexivity.
    + vm_compute. reflexivity.
    + reflexivity.
  - apply (proj2 (proj2 (@lyrics_command_without_lyrics
                           b (answering (JInt 5)) (startup None)
                           (lit "Hello by Adele")))
                 (lit "Hello") (lit "Adele") TypeError).
    + vm_compute. reflexivity.
    + vm_compute. reflexivity.
Defined.

(** *** The parser of [track_info] *)

Lemma split_scan_absent (sep : pystr) (budget : option nat) (cur s : pystr) :
  str_in sep s = false ->
  split_scan sep budget 0 cur s = [rev cur ++ s].
Proof.
  revert cur; induction s as [|c s IH]; intros cur H.
  - cbn [split_scan]. now rewrite app_nil_r.
  - cbn [str_in] in H. apply orb_false_iff in H as [Hs Hin].
    cbn [split_scan]. rewrite Hs, andb_false_r.
    rewrite (IH _ Hin). cbn [rev]. now rewrite <- app_assoc.
Qed.

Lemma track_parse_at (sep query before after : pystr) :
  sep <> [] ->
  first_occurrence sep query before after ->
  (parts <- str_split sep (Some 1) query ;;
   part0 <- list_index parts 0 ;;
   let title := strip part0 in
   artist <- (if Nat.ltb 1 (length parts)
              then part1 <- list_index parts 1 ;; ret (Some (strip part1))
              else ret None) ;;
   ret (title, artist))
  = Ok (strip before, Some (strip after)).
Proof.
  intros Hne Hocc. unfold str_split.
  destruct sep as [|a sep']; [congruence|].
  cbn [bind ret]. rewrite (@split_scan_once _ _ _ _ [] Hne Hocc).
  reflexivity.
Qed.

Lemma track_parse_dash (query before after : pystr) :
  first_occurrence (lit " - ") query before after ->
  track_parse query = Ok (strip before, Some (strip after)).
Proof.
  intros Hocc. unfold track_parse.
  rewrite (@first_occurrence_in _ _ _ _ Hocc).
  apply track_parse_at; [discriminate | exact Hocc].
Qed.

(** X7.  [track_info] splits its query once, at the first [" - "] when
    there is one, otherwise at the first [" by "], and trims both sides;
    with neither separator the title is the trimmed query and there is no
    artist.  The split itself never raises. *)
Theorem track_parse_splits (query : pystr) :
  (forall before after,
      first_occurrence (lit " - ") query before after ->
      track_parse query = Ok (strip before, Some (strip after)))
  /\ (str_in (lit " - ") query = false ->
      forall before after,
        first_occurrence (lit " by ") query before after ->
        track_parse query = Ok (strip before, Some (strip after)))
  /\ (str_in (lit " - ") query = false ->
      str_in (lit " by ") query = false ->
      track_parse query = Ok (strip query, None))
  /\ exists title artist, track_parse query = Ok (title, artist).
Proof.
  assert (str_in (lit " - ") query = false ->
          forall before after,
            first_occurrence (lit " by ") query before after ->
            track_parse query = Ok (strip before, Some (strip after))) as Hby.
  { intros Hdash before after Hocc. unfold track_parse. rewrite Hdash.
    apply track_parse_at; [discriminate | exact Hocc]. }
  assert (str_in (lit " - ") query = false ->
          str_in (lit " by ") query = false ->
          track_parse query = Ok (strip query, None)) as Hnone.
  { intros Hdash Hno. unfold track_parse, str_split. rewrite Hdash.
    eval_lit " by "%string. cbn [bind ret].
    rewrite (split_scan_absent _ _ [] _ Hno). reflexivity. }
  split; [exact (track_parse_dash query)|].
  split; [exact Hby|]. split; [exact Hnone|].
  destruct (str_in (lit " - ") query) eqn:Hdash.
  - destruct (first_occurrence_exists _ _ Hdash) as (b & a & Hocc).
    rewrite (track_parse_dash query b a Hocc). eauto.
  - destruct (str_in (lit " by ") query) eqn:Hno.
    + destruct (first_occurrence_exists _ _ Hno) as (b & a & Hocc).
      rewrite (Hby eq_refl b a Hocc). eauto.
    + rewrite (Hnone eq_refl eq_refl). eauto.
Qed.

Lemma track_parse_splits_witness :
  track_parse (lit "Hello - Adele") = Ok (lit "Hello", Some (lit "Adele"))
  /\ track_parse (lit "Hello by Adele") = Ok (lit "Hello", Some (lit "Adele"))
  /\ track_parse (lit "Hello") = Ok (lit "Hello", None).
Proof.
  split; [|split].
  - exact (proj1 (track_parse_splits (lit "Hello - Adele")) _ _
                 hello_dash_adele).
  - exact (proj1 (proj2 (track_parse_splits (lit "Hello by Adele")))
                 eq_refl _ _ hello_by_adele).
  - exact (proj1 (proj2 (proj2 (track_parse_splits (lit "Hello"))))
                 eq_refl eq_refl).
Defined.

(** White space aside, trimming keeps every character and cutting at a mark
    keeps a prefix. *)
Lemma inked_app (a b : pystr) : inked (a ++ b) = inked a + inked b.
Proof. unfold inked. now rewrite filter_app, length_app. Qed.

Lemma inked_lstrip (s : pystr) : inked (lstrip s) = inked s.
Proof.
  induction s as [|c s IH]; [reflexivity|]. cbn [lstrip].
  destruct (isspace c) eqn:E; [|reflexivity].
  rewrite IH. unfold inked. cbn [filter]. now rewrite E.
Qed.

Lemma inked_rev (s : pystr) : inked (rev s) = inked s.
Proof.
  induction s as [|c s IH]; [reflexivity|].
  cbn [rev]. rewrite inked_app, IH.
  change (c :: s) with ([c] ++ s). rewrite inked_app. lia.
Qed.

Lemma inked_strip (s : pystr) : inked (strip s) = inked s.
Proof.
  unfold strip, rstrip.
  now rewrite inked_rev, inked_lstrip, inked_rev, inked_lstrip.
Qed.

Lemma truncate_at_prefix (marks : list pystr) (s : pystr) :
  exists rest,
    s = truncate_at marks s ++ rest
    /\ (rest = [] \/ exists m, In m marks /\ startswith m rest = true).
Proof.
  induction s as [|c s IH]; cbn [truncate_at].
  - destruct (existsb (fun m => startswith m []) marks) eqn:E.
    + exists []. split; [reflexivity | now left].
    + exists []. split; [reflexivity | now left].
  - destruct (existsb (fun m => startswith m (c :: s)) marks) eqn:E.
    + exists (c :: s). split; [reflexivity|]. right.
      apply existsb_exists in E as (m & Hin & Hm). eauto.
    + destruct IH as (rest & Hs & Hrest). exists rest. split.
      * cbn [app]. now rewrite <- Hs.
      * exact Hrest.
Qed.

Lemma lstrip_upto_ink (p q : pystr) (c : N) :
  isspace c = false -> lstrip (p ++ c :: q) = lstrip p ++ c :: q.
Proof.
  intros Hc. induction p as [|x p IH]; cbn [app lstrip].
  - now rewrite Hc.
  - destruct (isspace x); [exact IH | reflexivity].
Qed.

Lemma strip_around_ink (p q : pystr) (c : N) :
  isspace c = false ->
  exists t, strip (p ++ c :: q) = lstrip p ++ c :: t.
Proof.
  intros Hc. unfold strip, rstrip.
  rewrite (lstrip_upto_ink p q c Hc).
  rewrite rev_app_distr. cbn [rev]. rewrite <- app_assoc. cbn [app].
  rewrite (lstrip_upto_ink (rev q) (rev (lstrip p)) c Hc).
  rewrite rev_app_distr. cbn [rev]. rewrite rev_involutive, <- app_assoc.
  cbn [app]. eexists. reflexivity.
Qed.

(** Where the two first occurrences lie with respect to each other: one of
    the two left sides extends the other by a piece that starts with a
    space and the first sign of the other separator. *)
Lemma dash_or_by_first (query b1 a1 b2 a2 : pystr) :
  query = b1 ++ lit " - " ++ a1 ->
  query = b2 ++ lit " by " ++ a2 ->
  (exists u, b1 = b2 ++ 32%N :: 98%N :: u)
  \/ (exists u, b2 = b1 ++ 32%N :: 45%N :: u).
Proof.
  intros E1 E2. rewrite E1 in E2.
  apply app_eq_app in E2 as [l [[Hb Ha] | [Hb Ha]]].
  - left. destruct l as [|x [|y l]].
    + vm_compute in Ha. discriminate Ha.
    + vm_compute in Ha. discriminate Ha.
    + change (lit " by " ++ a2) with (32%N :: 98%N :: 121%N :: 32%N :: a2) in Ha.
      cbn [app] in Ha. injection Ha as <- <- _. now exists l.
  - right. destruct l as [|x [|y l]].
    + vm_compute in Ha. discriminate Ha.
    + vm_compute in Ha. discriminate Ha.
    + change (lit " - " ++ a1) with (32%N :: 45%N :: 32%N :: a1) in Ha.
      cbn [app] in Ha. injection Ha as <- <- _. now exists l.
Qed.

Lemma inked_spec_title_le (before : pystr) :
  inked (spec_title before) <= inked before.
Proof.
  unfold spec_title. rewrite inked_strip.
  destruct (truncate_at_prefix [lit " ("] (strip before)) as (rest & E & _).
  assert (inked (strip before)
          = inked (truncate_at [lit " ("] (strip before)) + inked rest) as H
      by (rewrite E at 1; apply inked_app).
  rewrite inked_strip in H. lia.
Qed.

(** The title cut at [" ("] of a left side that goes beyond [" -"] never has
    the ink of what comes before the [" -"]. *)
Lemma inked_spec_title_beyond_dash (b1 u : pystr) :
  inked (spec_title (b1 ++ 32%N :: 45%N :: u)) <> inked b1.
Proof.
  unfold spec_title. rewrite inked_strip.
  replace (b1 ++ 32%N :: 45%N :: u) with ((b1 ++ [32%N]) ++ 45%N :: u)
    by now rewrite <- app_assoc.
  destruct (strip_around_ink (b1 ++ [32%N]) u 45%N eq_refl) as [t ->].
  assert (inked (lstrip (b1 ++ [32%N])) = inked b1) as Hz.
  { rewrite inked_lstrip, inked_app. cbn. lia. }
  set (Z := lstrip (b1 ++ [32%N])) in *.
  destruct (truncate_at_prefix [lit " ("] (Z ++ 45%N :: t))
    as (rest & E & Hrest).
  set (T := truncate_at [lit " ("] (Z ++ 45%N :: t)) in *.
  assert (forall r, startswith (lit " (") r = true ->
                    exists r', r = 32%N :: 40%N :: r') as Hparen.
  { intros r H. change (lit " (") with [32%N; 40%N] in H.
    destruct r as [|x [|y r]]; cbn [startswith] in H.
    - discriminate.
    - rewrite andb_false_r in H. discriminate.
    - apply andb_true_iff in H as [Hx H]. apply andb_true_iff in H as [Hy _].
      apply N.eqb_eq in Hx, Hy. subst. now exists r. }
  assert (rest = [] \/ exists r', rest = 32%N :: 40%N :: r') as Hrest'.
  { destruct Hrest as [-> | (m & [<-|[]] & Hm)]; [now left | right].
    now apply Hparen. }
  symmetry in E. apply app_eq_app in E as [l [[HT Hl] | [HZ Hl]]].
  - (* the cut is at or after the dash *)
    destruct l as [|x l].
    + cbn [app] in Hl. destruct Hrest' as [-> | [r' ->]]; discriminate Hl.
    + cbn [app] in Hl. injection Hl as <- _.
      rewrite HT, inked_app. unfold inked at 2. cbn [filter isspace].
      change (negb (isspace 45)) with true. cbn [length]. lia.
  - (* the cut is before the dash *)
    destruct Hrest' as [-> | [r' ->]].
    + destruct l; discriminate Hl.
    + destruct l as [|x [|y l]].
      * discriminate Hl.
      * discriminate Hl.
      * cbn [app] in Hl. injection Hl as <- <- _.
        rewrite <- Hz, HZ, inked_app. unfold inked at 3.
        cbn [filter]. change (negb (isspace 32)) with false.
        change (negb (isspace 40)) with true. cbn [length]. lia.
Qed.

(** X8.  The two commands read the same query differently.  When a query
    contains both [" - "] and [" by "], [track_info] splits it at the first
    [" - "] and [lyrics_command] at the first [" by "], and the two titles
    differ: the title of [track_info] is neither the title [lyrics_command]
    takes from the split nor the one it has after its clean-up. *)
Theorem track_and_lyrics_split_differently
        (query b1 a1 b2 a2 : pystr) :
  first_occurrence (lit " - ") query b1 a1 ->
  first_occurrence (lit " by ") query b2 a2 ->
  track_parse query = Ok (strip b1, Some (strip a1))
  /\ split_query separators query = Ok (Some (strip a2), Some (strip b2))
  /\ (strip a2 <> [] ->
      parse_query query = Ok (Parsed (spec_title b2) (spec_artist a2)))
  /\ strip b1 <> strip b2
  /\ strip b1 <> spec_title b2.
Proof.
  intros H1 H2.
  assert (chosen_separator (lit " by ") query) as Hsep.
  { exists [], [lit " - "; lit " | "]. repeat split.
    - exact (@first_occurrence_in _ _ _ _ H2).
    - intros s []. }
  split; [now apply track_parse_dash|]. split; [|split].
  - apply (@split_query_at [] [lit " - "; lit " | "] (lit " by ") query b2 a2).
    + intros s [].
    + discriminate.
    + exact H2.
  - intros Hne. rewrite (@parse_query_at _ _ _ _ Hsep H2).
    destruct (Nat.eqb (length (strip a2)) 0) eqn:E; [|reflexivity].
    apply length_zero_nil in E. congruence.
  - assert (inked (strip b1) <> inked (strip b2)
            /\ inked (strip b1) <> inked (spec_title b2)) as [Hraw Hclean].
    { rewrite !inked_strip.
      destruct (dash_or_by_first query b1 a1 b2 a2 (proj1 H1) (proj1 H2))
        as [[u ->] | [u ->]].
      - pose proof (inked_spec_title_le b2) as Hle.
        rewrite inked_app. unfold inked at 2 5. cbn [filter].
        change (negb (isspace 32)) with false.
        change (negb (isspace 98)) with true. cbn [length]. split; lia.
      - split.
        + rewrite inked_app. unfold inked at 3. cbn [filter].
          change (negb (isspace 32)) with false.
          change (negb (isspace 45)) with true. cbn [length]. lia.
        + intros E. now apply (inked_spec_title_beyond_dash b1 u). }
    split; intros E; [apply Hraw | apply Hclean]; now rewrite E.
Qed.

Lemma track_and_lyrics_split_differently_witness :
  track_parse (lit "Hi - Al by me") = Ok (lit "Hi", Some (lit "Al by me"))
  /\ split_query separators (lit "Hi - Al by me")
     = Ok (Some (lit "me"), Some (lit "Hi - Al"))
  /\ parse_query (lit "Hi - Al by me") = Ok (Parsed (lit "Hi - Al") (lit "me"))
  /\ lit "Hi" <> lit "Hi - Al".
Proof.
  destruct (track_and_lyrics_split_differently
              (lit "Hi - Al by me") (lit "Hi") (lit "Al by me")
              (lit "Hi - Al") (lit "me")) as (Ht & Hs & Hp & _ & Hd).
  - split; [reflexivity|]. intros i Hi. vm_compute in Hi.
    do 2 (destruct i as [|i]; [reflexivity|]). lia.
  - split; [reflexivity|]. intros i Hi. vm_compute in Hi.
    do 7 (destruct i as [|i]; [reflexivity|]). lia.
  - split; [exact Ht|]. split; [exact Hs|]. split.
    + apply Hp. discriminate.
    + exact Hd.
Defined.

(** *** [track_info] *)

Lemma format_02d_seconds (secs : Z) :
  (0 <= secs < 60)%Z -> format_02d secs = two_digits secs.
Proof.
  intros H.
  assert (forallb (fun n => str_eqb (format_02d (Z.of_nat n))
                                    (two_digits (Z.of_nat n)))
                  (seq 0 60) = true) as Hall by (vm_compute; reflexivity).
  rewrite forallb_forall in Hall.
  specialize (Hall (Z.to_nat secs)).
  rewrite Z2Nat.id in Hall by lia.
  apply str_eqb_eq, Hall, in_seq. lia.
Qed.

(** X9.  The duration shown by [track_info] is the number of whole
    minutes, a colon, and the remaining seconds as exactly two digits. *)
Theorem duration_text_shape (duration : Z) :
  (0 < duration)%Z ->
  exists mins secs,
    (duration = 60 * mins + secs)%Z
    /\ (0 <= mins)%Z /\ (0 <= secs < 60)%Z
    /\ duration_text duration
       = str_of_Z mins ++ lit ":" ++ two_digits secs.
Proof.
  intros H. exists (duration / 60)%Z, (duration mod 60)%Z.
  pose proof (Z.mod_pos_bound duration 60 ltac:(lia)) as Hs.
  repeat split; try lia.
  - apply Z.div_mod. lia.
  - apply Z.div_pos; lia.
  - unfold duration_text. now rewrite format_02d_seconds.
Qed.

Lemma duration_text_shape_witness :
  duration_text 215 = lit "3:35" /\ duration_text 3605 = lit "60:05".
Proof.
  split.
  - destruct (duration_text_shape 215 ltac:(lia))
      as (m & s & E & Hm & Hs & ->).
    assert (m = 3%Z) as -> by lia. assert (s = 35%Z) as -> by lia.
    reflexivity.
  - destruct (duration_text_shape 3605 ltac:(lia))
      as (m & s & E & Hm & Hs & ->).
    assert (m = 60%Z) as -> by lia. assert (s = 5%Z) as -> by lia.
    reflexivity.
Defined.

Lemma py_join_strings (sep : pystr) (names : list pystr) :
  py_join sep (map JStr names) = Ok (join sep names).
Proof.
  unfold py_join.
  rewrite py_map_ok with (g := fun v => match v with JStr s => s | _ => [] end).
  - cbn [bind ret]. rewrite map_map. now rewrite map_id.
  - intros v Hv. apply in_map_iff in Hv as (s & <- & _). reflexivity.
Qed.

Lemma py_join_not_a_string (sep : pystr) (l : list json) (v : json) :
  In v l -> (forall s, v <> JStr s) -> py_join sep l = Raise TypeError.
Proof.
  intros Hin Hv. unfold py_join.
  assert (py_map (fun v => match v with
                           | JStr s => ret s
                           | _ => Raise TypeError
                           end) l = Raise TypeError) as ->; [|reflexivity].
  induction l as [|x l IH]; [destruct Hin|]. cbn [py_map].
  destruct Hin as [-> | Hin].
  - destruct v; try reflexivity. now destruct (Hv s).
  - destruct x; try reflexivity. cbn [ret bind].
    now rewrite (IH Hin).
Qed.

Section TrackInfo.
Context {builtins : Builtins}.
Variable net : network.

Lemma track_embed_fields (t : TrackRecord) (names : list pystr) :
  track_tags t = map JStr names ->
  track_embed t
  = Ok {| embed_title := musical_note ++ lit " " ++ py_format (track_title t);
          embed_description := Some (lit "by " ++ py_format (track_artist t));
          embed_color := blue;
          embed_url := Some (track_url t);
          embed_timestamp := None;
          embed_footer := None;
          embed_fields := track_fields t names |}.
Proof.
  intros Ht. unfold track_embed, track_fields, add_field, plain_field.
  rewrite Ht, py_join_strings, length_map.
  destruct names as [|n names]; destruct (0 <? track_duration t)%Z;
    reflexivity.
Qed.

Lemma track_embed_raises (t : TrackRecord) (v : json) :
  In v (track_tags t) -> (forall s, v <> JStr s) ->
  track_embed t = Raise TypeError.
Proof.
  intros Hin Hv. unfold track_embed.
  rewrite (py_join_not_a_string (lit ", ") (track_tags t) v Hin Hv).
  destruct (track_tags t); [destruct Hin | reflexivity].
Qed.

(** X10.  With every message delivered:
    [track_info] answers a query without an artist (no separator, or
    nothing after it) with the usage line alone, before any session or
    request.  Otherwise it sends the progress line and then: the not-found
    line when [search_track] has nothing; one embed when it has a track,
    linked to the track's page, with the album always, the duration only
    when it is positive and the tags, joined by commas, only when there are
    some.  A tag that is not a string makes the command raise [TypeError]
    after the progress line. *)
Theorem track_info_replies (w : world) (query title : pystr) :
  (forall artist,
      track_parse query = Ok (title, artist) ->
      py_not artist = true ->
      track_info net delivering query w
      = {| ran_state := w; ran_sent := [track_usage]; ran_outcome := Ok tt |})
  /\ (forall artist,
         track_parse query = Ok (title, Some artist) ->
         artist <> [] ->
         (snd (search_track net w artist title) = Ok None ->
          track_info net delivering query w
          = {| ran_state := create_session w;
               ran_sent := [searching_track title artist; no_track];
               ran_outcome := Ok tt |})
         /\ (forall t names,
                snd (search_track net w artist title) = Ok (Some t) ->
                track_tags t = map JStr names ->
                exists embed,
                  track_info net delivering query w
                  = {| ran_state := create_session w;
                       ran_sent := [searching_track title artist; Rich embed];
                       ran_outcome := Ok tt |}
                  /\ embed_fields embed = track_fields t names
                  /\ embed_url embed = Some (track_url t))
         /\ (forall t v,
                snd (search_track net w artist title) = Ok (Some t) ->
                In v (track_tags t) ->
                (forall s, v <> JStr s) ->
                track_info net delivering query w
                = {| ran_state := create_session w;
                     ran_sent := [searching_track title artist];
                     ran_outcome := Raise TypeError |})).
Proof.
  split.
  - intros artist Hp Hna. unfold track_info. run_cmd. rewrite Hp.
    destruct artist as [[|c rest]|]; try discriminate; reflexivity.
  - intros artist Hp Hne. destruct artist as [|c rest]; [congruence|].
    split; [|split].
    + intros Hs. unfold track_info. run_cmd. rewrite Hp. run_cmd.
      rewrite Hs. reflexivity.
    + intros t names Hs Ht. eexists. split; [|split].
      * unfold track_info. run_cmd. rewrite Hp. run_cmd. rewrite Hs.
        run_cmd. rewrite (track_embed_fields t names Ht). reflexivity.
      * reflexivity.
      * reflexivity.
    + intros t v Hs Hin Hv.
      unfold track_info. run_cmd. rewrite Hp. run_cmd. rewrite Hs.
      run_cmd. rewrite (track_embed_raises t v Hin Hv). reflexivity.
Qed.

End TrackInfo.

Lemma track_info_replies_witness :
  track_parse (lit "Hello - Adele") = Ok (lit "Hello", Some (lit "Adele"))
  /\ (forall b : Builtins,
         track_info (answering (recordings_response [JObj hello_recording])) delivering
                    (lit "Hello") (startup None)
         = {| ran_state := startup None;
              ran_sent := [track_usage];
              ran_outcome := Ok tt |})
  /\ (forall b : Builtins,
         exists embed,
           track_info (answering (recordings_response [JObj hello_recording])) delivering
                      (lit "Hello - Adele") (startup None)
           = {| ran_state := create_session (startup None);
                ran_sent := [ searching_track (lit "Hello") (lit "Adele");
                              Rich embed ];
                ran_outcome := Ok tt |}
           /\ embed_fields embed
              = [ plain_field (lit "Album") (lit "25 (2015-11-20)") true;
                  plain_field (lit "Duration") (lit "3:35") true;
                  plain_field (lit "Tags") (lit "pop, soul, ballad") false ]).
Proof.
  split; [vm_compute; reflexivity|]. split; intros b.
  - apply (proj1 (@track_info_replies b _ (startup None) (lit "Hello")
                    (lit "Hello")) None).
    + vm_compute. reflexivity.
    + reflexivity.
  - destruct (proj2 (@track_info_replies
                       b (answering (recordings_response [JObj hello_recording]))
                       (startup None) (lit "Hello - Adele") (lit "Hello"))
                    (lit "Adele")) as (_ & H & _).
    + vm_compute. reflexivity.
    + discriminate.
    + destruct (H hello_track [lit "pop"; lit "soul"; lit "ballad"])
        as (embed & Hrun & Hfields & _).
      * vm_compute. reflexivity.
      * reflexivity.
      * exists embed. split; [exact Hrun|]. rewrite Hfields.
        vm_compute. reflexivity.
Defined.

(** *** Numbered lists *)

Lemma nth_error_enumerate {A} (l : list A) (k i : nat) (x : A) :
  nth_error l i = Some x ->
  nth_error (combine (seq k (length l)) l) i = Some (k + i, x).
Proof.
  revert k i; induction l as [|y l IH]; intros k [|i] H; try discriminate.
  - injection H as ->. cbn. now rewrite Nat.add_0_r.
  - cbn [length seq combine nth_error] in *. rewrite (IH (S k) i H).
    do 2 f_equal. lia.
Qed.

Lemma length_enumerate {A} (l : list A) :
  length (enumerate_from_1 l) = length l.
Proof.
  unfold enumerate_from_1. rewrite length_combine, length_seq. lia.
Qed.

Lemma in_enumerate {A} (l : list A) (k : nat) (x : A) :
  In x l -> exists i, In (i, x) (combine (seq k (length l)) l).
Proof.
  revert k; induction l as [|y l IH]; intros k []; cbn [length seq combine].
  - subst. exists k. now left.
  - destruct (IH (S k) H) as [i Hi]. exists i. now right.
Qed.

Lemma enumerate_in {A} (l : list A) (k i : nat) (x : A) :
  In (i, x) (combine (seq k (length l)) l) -> In x l.
Proof. apply in_combine_r. Qed.

(** *** [trending_command] *)

Section Trending.
Context {builtins : Builtins}.
Variable net : network.

Lemma trending_field_shaped (i : nat) (e : json) :
  chart_shaped e = true -> trending_field i e = Ok (trending_line i e).
Proof.
  unfold trending_line, trending_field, chart_shaped, chart_title, chart_artist.
  intros H. apply andb_true_iff in H as [Ht Ha].
  destruct e; try discriminate. cbn [py_getitem bind ret].
  destruct (dict_lookup (lit "artist") fields) as [[]|]; try discriminate.
  cbn [py_getitem bind ret].
  destruct (dict_lookup (lit "name") fields0); try discriminate.
  destruct (dict_lookup (lit "title") fields); try discriminate.
  reflexivity.
Qed.

Lemma trending_field_unshaped (i : nat) (e : json) :
  chart_shaped e = false -> exists x, trending_field i e = Raise x.
Proof.
  unfold chart_shaped, chart_title, chart_artist, trending_field.
  intros H.
  destruct e; try (eexists; reflexivity). cbn [py_getitem bind ret].
  destruct (dict_lookup (lit "artist") fields) as [[]|];
    try (eexists; reflexivity).
  cbn [py_getitem bind ret].
  destruct (dict_lookup (lit "name") fields0); try (eexists; reflexivity).
  cbn [bind].
  destruct (dict_lookup (lit "title") fields); try (eexists; reflexivity).
  discriminate.
Qed.

Lemma trending_command_run (w : world) (now : Z) (v : json) :
  snd (get_trending net w) = Ok v ->
  trending_command net delivering now w
  = let r := (if negb (py_truthy v)
              then send delivering no_trending
              else
                first_ten <- lift (py_slice_to 10 v) ;;
                tracks <- lift (py_iter first_ten) ;;
                fields <- lift (py_map (fun it => trending_field (fst it) (snd it))
                                       (enumerate_from_1 tracks)) ;;
                send delivering
                     (Rich {| embed_title := lit "Currently Trending";
                              embed_description := None;
                              embed_color := gold;
                              embed_url := None;
                              embed_timestamp := Some now;
                              embed_footer :=
                                Some (lit "Use /lyrics to get lyrics for any of these songs");
                              embed_fields := fields |}))%cmd
               (create_session w) in
    {| ran_state := ran_state r;
       ran_sent := fetching_trending :: ran_sent r;
       ran_outcome := ran_outcome r |}.
Proof.
  intros H. unfold trending_command, fetching_trending, no_trending.
  cbv zeta. run_cmd. rewrite H. cbn [app].
  change (fst (get_trending net w)) with (create_session w).
  reflexivity.
Qed.

(** X11.  With every message delivered:
    [trending_command] sends the progress line and then: the error
    line when the call failed or the chart is empty; one embed, stamped
    with the time of the call, with a field ["i. title"] / ["by artist"]
    for each of the first ten entries, in the chart's order, when each of
    them has a title and an artist with a name.  An entry among the first
    ten without one of them makes the command raise after the progress
    line: unlike the adapters, the command has no handler. *)
Theorem trending_command_replies (w : world) (now : Z) :
  (failed (net (chart_request w)) ->
   trending_command net delivering now w
   = {| ran_state := create_session w;
        ran_sent := [fetching_trending; no_trending];
        ran_outcome := Ok tt |})
  /\ (forall body entries,
         net (chart_request w) = Replied 200 (Ok body) ->
         chart_of body entries ->
         (entries = [] ->
          trending_command net delivering now w
          = {| ran_state := create_session w;
               ran_sent := [fetching_trending; no_trending];
               ran_outcome := Ok tt |})
         /\ (entries <> [] ->
             forallb chart_shaped (firstn 10 entries) = true ->
             exists embed,
               trending_command net delivering now w
               = {| ran_state := create_session w;
                    ran_sent := [fetching_trending; Rich embed];
                    ran_outcome := Ok tt |}
               /\ embed_timestamp embed = Some now
               /\ length (embed_fields embed) = Nat.min 10 (length entries)
               /\ forall i e,
                    i < 10 ->
                    nth_error entries i = Some e ->
                    nth_error (embed_fields embed) i
                    = Some (trending_line (S i) e))
         /\ (forall e,
                In e (firstn 10 entries) ->
                chart_shaped e = false ->
                exists x,
                  trending_command net delivering now w
                  = {| ran_state := create_session w;
                       ran_sent := [fetching_trending];
                       ran_outcome := Raise x |})).
Proof.
  split.
  - intros Hf.
    rewrite (trending_command_run w now _ (@get_trending_failed net w Hf)).
    reflexivity.
  - intros body entries Hnet Hbody.
    pose proof (@get_trending_chart net w body entries Hnet Hbody) as Hrun.
    rewrite (trending_command_run w now _ Hrun). clear Hrun.
    split; [|split].
    + intros ->. reflexivity.
    + intros Hne Hall.
      assert (py_truthy (JArr (firstn 10 entries)) = true) as Ht.
      { destruct entries; [congruence | reflexivity]. }
      rewrite Ht. cbn [negb]. run_cmd. cbn [py_slice_to py_iter ret].
      run_cmd. rewrite firstn_firstn. cbn [Nat.min].
      rewrite (py_map_ok (fun it => trending_field (fst it) (snd it))
                         (fun it => trending_line (fst it) (snd it))).
      2:{ intros [i e] Hin. apply trending_field_shaped.
          rewrite forallb_forall in Hall. apply Hall.
          eapply enumerate_in, Hin. }
      eexists. split; [reflexivity|]. cbn [embed_timestamp embed_fields].
      split; [reflexivity|]. split.
      * now rewrite length_map, length_enumerate, length_firstn.
      * intros i e Hi He. unfold enumerate_from_1.
        rewrite nth_error_map.
        rewrite (nth_error_enumerate (firstn 10 entries) 1 i e).
        -- reflexivity.
        -- now rewrite nth_error_firstn, (proj2 (Nat.ltb_lt i 10) Hi).
    + intros e Hin Hbad.
      assert (py_truthy (JArr (firstn 10 entries)) = true) as Ht.
      { destruct entries; [destruct Hin | reflexivity]. }
      rewrite Ht. cbn [negb]. run_cmd. cbn [py_slice_to py_iter ret].
      run_cmd. rewrite firstn_firstn. cbn [Nat.min].
      destruct (in_enumerate (firstn 10 entries) 1 e Hin) as [i Hi].
      destruct (@py_map_raises _ _ (fun it => trending_field (fst it) (snd it))
                              (enumerate_from_1 (firstn 10 entries)) (i, e) Hi
                              (trending_field_unshaped i e Hbad)) as [x ->].
      exists x. reflexivity.
Qed.

End Trending.

Lemma trending_command_replies_witness :
  chart_of (chart_response 12) (map chart_entry (seq 0 12))
  /\ (forall (b : Builtins) (now : Z),
         exists embed,
           trending_command (answering (chart_response 12)) delivering now (startup None)
           = {| ran_state := create_session (startup None);
                ran_sent := [fetching_trending; Rich embed];
                ran_outcome := Ok tt |}
           /\ length (embed_fields embed) = 10
           /\ nth_error (embed_fields embed) 0
              = Some {| field_name := lit "1. Track";
                        field_value := lit "by Artist";
                        field_inline := false |})
  /\ (forall (b : Builtins) (now : Z),
         trending_command (fun _ => Replied 503 (Ok (chart_response 12))) delivering
                          now (startup None)
         = {| ran_state := create_session (startup None);
              ran_sent := [fetching_trending; no_trending];
              ran_outcome := Ok tt |})
  /\ (forall (b : Builtins) (now : Z),
         exists x,
           trending_command
             (answering
                (JObj [(lit "tracks",
                        JObj [(lit "data",
                               JArr [JObj [(lit "title", JStr (lit "Track"))]])])])) delivering
             now (startup None)
           = {| ran_state := create_session (startup None);
                ran_sent := [fetching_trending];
                ran_outcome := Raise x |}).
Proof.
  split; [apply chart_response_lists|]. split; [|split]; intros b now.
  - destruct (proj2 (@trending_command_replies
                       b (answering (chart_response 12)) (startup None) now)
                    _ _ eq_refl (chart_response_lists 12)) as (_ & H & _).
    destruct H as (embed & Hrun & _ & Hlen & Hnth);
      [discriminate | reflexivity |].
    exists embed. split; [exact Hrun|]. split; [exact Hlen|].
    apply (Hnth 0 (chart_entry 0)); [lia | reflexivity].
  - apply (proj1 (@trending_command_replies
                    b (fun _ => Replied 503 (Ok (chart_response 12)))
                    (startup None) now)).
    left. discriminate.
  - destruct (proj2 (@trending_command_replies
                       b (answering
                            (JObj [(lit "tracks",
                                    JObj [(lit "data",
                                           JArr [JObj [(lit "title",
                                                        JStr (lit "Track"))]])])]))
                       (startup None) now)
                    _ [JObj [(lit "title", JStr (lit "Track"))]] eq_refl)
      as (_ & _ & H).
    + eexists _, _. repeat split; reflexivity.
    + apply (H (JObj [(lit "title", JStr (lit "Track"))]));
        [now left | reflexivity].
Defined.

(** *** [recommend_command] and [mood_command] *)

Section TopTracksCommands.
Context {builtins : Builtins} {casing : Casing}.
Variable net : network.
Variable ch : channel.

Lemma recommend_command_run (w : world) (genre : pystr) (found : list json) :
  snd (get_recommendations net w (str_lower genre)) = Ok found ->
  recommend_command net ch genre w
  = replies ch w (create_session w) (getting_recommendations genre)
      [ match found with
        | [] => no_recommendations genre
        | _ :: _ =>
            Rich {| embed_title := musical_note ++ lit " " ++ str_title genre
                                   ++ lit " Recommendations";
                    embed_description := None;
                    embed_color := green;
                    embed_url := None;
                    embed_timestamp := None;
                    embed_footer := None;
                    embed_fields := numbered_fields (map py_format found) |}
        end ].
Proof.
  intros H. unfold recommend_command, replies, getting_recommendations,
    no_recommendations.
  unfold cmd_bind, send, call. cbn [deliver].
  destruct (ch (Text (lit "Getting " ++ genre ++ lit " recommendations...")));
    [reflexivity|].
  cbn [ran_state ran_sent ran_outcome fst snd app]. rewrite H.
  change (fst (get_recommendations net w (str_lower genre)))
    with (create_session w).
  destruct found as [|x found]; cbn [length Nat.eqb];
    match goal with
    | |- context [ch ?m] => destruct (ch m)
    end; reflexivity.
Qed.

Lemma mood_command_run (w : world) (mood : pystr) (found : list pystr) :
  snd (get_mood_songs net w (str_lower mood)) = Ok found ->
  mood_command net ch mood w
  = replies ch w (create_session w) (finding_songs mood)
      [ match found with
        | [] => no_mood_songs mood
        | _ :: _ =>
            Rich {| embed_title := headphone ++ lit " " ++ str_title mood
                                   ++ lit " Mood Songs";
                    embed_description := None;
                    embed_color := purple;
                    embed_url := None;
                    embed_timestamp := None;
                    embed_footer := None;
                    embed_fields := numbered_fields found |}
        end ].
Proof.
  intros H.
  assert (Text (cross_mark ++ lit " No songs found for " ++ mood
                ++ lit ". Try: " ++ join (lit ", ") common_moods)
          = no_mood_songs mood) as Hm by reflexivity.
  unfold mood_command, replies, finding_songs. rewrite Hm.
  unfold cmd_bind, send, call. cbn [deliver].
  destruct (ch (Text (lit "Finding " ++ mood ++ lit " songs...")));
    [reflexivity|].
  cbn [ran_state ran_sent ran_outcome fst snd app]. rewrite H.
  change (fst (get_mood_songs net w (str_lower mood)))
    with (create_session w).
  destruct found as [|x found]; cbn [length Nat.eqb];
    match goal with
    | |- context [ch ?m] => destruct (ch m)
    end; reflexivity.
Qed.

(** X12.  Whatever [ctx.send] does, [recommend_command] raises nothing of
    its own.  It hands the progress line to [ctx.send], asks the adapter
    for the genre in lower case, hands one reply, and ends as the two sends
    end: normally when both messages are delivered, otherwise with the
    exception of the first send that raises (and when that is the progress
    line, the adapter is not called and no session is opened).  The reply
    is the not-found line when the call failed, when the API key is unset,
    when the list is empty and when one entry of the list lacks its name;
    it is an embed with one numbered field for each entry, in order and
    without a cap, when every entry has a name. *)
Theorem recommend_command_replies (w : world) (genre : pystr) :
  (exists reply,
      recommend_command net ch genre w
      = replies ch w (create_session w) (getting_recommendations genre)
                [reply])
  /\ (failed (answer net (top_tracks_request w (str_lower genre)))
      \/ lastfm_api_key w = None ->
      recommend_command net ch genre w
      = replies ch w (create_session w) (getting_recommendations genre)
                [no_recommendations genre])
  /\ (forall body entries,
         answer net (top_tracks_request w (str_lower genre))
         = Replied 200 (Ok body) ->
         top_tracks_of body entries ->
         (entries = [] \/ (exists e, In e entries /\ nameless e) ->
          recommend_command net ch genre w
          = replies ch w (create_session w) (getting_recommendations genre)
                    [no_recommendations genre])
         /\ (entries <> [] ->
             forallb named entries = true ->
             exists embed,
               recommend_command net ch genre w
               = replies ch w (create_session w)
                         (getting_recommendations genre) [Rich embed]
               /\ embed_fields embed
                  = numbered_fields
                      (map (fun e => or_empty (entry_name e)) entries))).
Proof.
  split; [|split].
  - destruct (@top_tracks_total _ net w (str_lower genre)) as [[found Hf] _].
    rewrite (recommend_command_run w genre _ Hf). eexists. reflexivity.
  - intros Hf.
    assert (snd (get_recommendations net w (str_lower genre)) = Ok []) as H.
    { destruct Hf as [Hf | Hkey].
      - now destruct (@top_tracks_failed _ net w (str_lower genre) Hf).
      - now destruct (@top_tracks_without_key _ net w (str_lower genre) Hkey). }
    now rewrite (recommend_command_run w genre _ H).
  - intros body entries Hnet Hbody. split.
    + intros [-> | (e & Hin & He)].
      * rewrite (recommend_command_run w genre _
                   (@recommendations_of_named _ net w _ body [] Hnet Hbody
                                              eq_refl)).
        reflexivity.
      * destruct (@top_tracks_incomplete _ net w (str_lower genre) body
                    entries e Hnet Hbody Hin) as [H _].
        now rewrite (recommend_command_run w genre _ (H He)).
    + intros Hne Hall.
      rewrite (recommend_command_run w genre _
                 (@recommendations_of_named _ net w _ body entries Hnet Hbody
                                            Hall)).
      destruct entries as [|e entries]; [congruence|].
      eexists. split; [reflexivity|]. cbn [embed_fields].
      now rewrite map_map.
Qed.

(** X13.  Whatever [ctx.send] does, [mood_command] raises nothing of its
    own.  It hands the progress line to [ctx.send], asks the adapter for
    the mood in lower case, hands one reply, and ends as the two sends end:
    normally when both messages are delivered, otherwise with the exception
    of the first send that raises.  The reply is the not-found line, which
    lists the five common moods, when the call failed, when the API key is
    unset, when the list is empty and when one entry lacks its name or its
    artist; it is an embed with one numbered field ["name - artist"] for
    each entry, in order and without a cap, when every entry is well
    formed. *)
Theorem mood_command_replies (w : world) (mood : pystr) :
  (exists reply,
      mood_command net ch mood w
      = replies ch w (create_session w) (finding_songs mood) [reply])
  /\ (failed (answer net (top_tracks_request w (str_lower mood)))
      \/ lastfm_api_key w = None ->
      mood_command net ch mood w
      = replies ch w (create_session w) (finding_songs mood)
                [no_mood_songs mood])
  /\ (forall body entries,
         answer net (top_tracks_request w (str_lower mood))
         = Replied 200 (Ok body) ->
         top_tracks_of body entries ->
         (entries = []
          \/ (exists e, In e entries /\ (nameless e \/ artistless e)) ->
          mood_command net ch mood w
          = replies ch w (create_session w) (finding_songs mood)
                    [no_mood_songs mood])
         /\ (entries <> [] ->
             forallb well_formed_track entries = true ->
             mood_command net ch mood w
             = replies ch w (create_session w) (finding_songs mood)
                 [Rich {| embed_title := headphone ++ lit " " ++ str_title mood
                                         ++ lit " Mood Songs";
                          embed_description := None;
                          embed_color := purple;
                          embed_url := None;
                          embed_timestamp := None;
                          embed_footer := None;
                          embed_fields :=
                            numbered_fields
                              (map name_dash_artist entries) |}])).
Proof.
  split; [|split].
  - destruct (@top_tracks_total _ net w (str_lower mood)) as [_ [found Hf]].
    rewrite (mood_command_run w mood _ Hf). eexists. reflexivity.
  - intros Hf.
    assert (snd (get_mood_songs net w (str_lower mood)) = Ok []) as H.
    { destruct Hf as [Hf | Hkey].
      - now destruct (@top_tracks_failed _ net w (str_lower mood) Hf).
      - now destruct (@top_tracks_without_key _ net w (str_lower mood) Hkey). }
    now rewrite (mood_command_run w mood _ H).
  - intros body entries Hnet Hbody. split.
    + intros [-> | (e & Hin & He)].
      * destruct (@top_tracks_well_formed _ net w (str_lower mood) body []
                    Hnet Hbody eq_refl) as [_ H].
        now rewrite (mood_command_run w mood _ H).
      * destruct (@top_tracks_incomplete _ net w (str_lower mood) body
                    entries e Hnet Hbody Hin) as [_ H].
        now rewrite (mood_command_run w mood _ (H He)).
    + intros Hne Hall.
      destruct (@top_tracks_well_formed _ net w (str_lower mood) body entries
                  Hnet Hbody Hall) as [_ H].
      rewrite (mood_command_run w mood _ H).
      destruct entries as [|e entries]; [congruence | reflexivity].
Qed.

End TopTracksCommands.

Lemma twenty_six_entries :
  top_tracks_of (top_tracks_response (map numbered_entry (seq 1 26)))
                (map numbered_entry (seq 1 26))
  /\ forallb well_formed_track (map numbered_entry (seq 1 26)) = true
  /\ forallb named (map numbered_entry (seq 1 26)) = true
  /\ length (map numbered_entry (seq 1 26)) = 26.
Proof.
  split; [apply top_tracks_response_lists|]. repeat split.
Qed.

Lemma recommend_command_replies_witness :
  forallb named six_songs = true
  /\ (forall (b : Builtins) (c : Casing),
         exists embed,
           recommend_command (answering (top_tracks_response six_songs))
                             delivering (lit "Rock") configured
           = {| ran_state := create_session configured;
                ran_sent := [getting_recommendations (lit "Rock"); Rich embed];
                ran_outcome := Ok tt |}
           /\ embed_fields embed
              = numbered_fields [ lit "One"; lit "Two"; lit "Three";
                                  lit "Four"; lit "Five"; lit "Six" ])
  /\ (forall (b : Builtins) (c : Casing),
         recommend_command (answering (top_tracks_response six_songs))
                           delivering (lit "Rock") (startup None)
         = {| ran_state := create_session (startup None);
              ran_sent := [ getting_recommendations (lit "Rock");
                            no_recommendations (lit "Rock") ];
              ran_outcome := Ok tt |})
  /\ (forall (b : Builtins) (c : Casing),
         recommend_command
           (answering (top_tracks_response (map numbered_entry (seq 1 26))))
           discord_limits (lit "Rock") configured
         = {| ran_state := create_session configured;
              ran_sent := [getting_recommendations (lit "Rock")];
              ran_outcome := Raise HTTPException |})
  /\ (forall (b : Builtins) (c : Casing),
         recommend_command (answering (top_tracks_response six_songs))
                           refusing (lit "Rock") configured
         = {| ran_state := configured;
              ran_sent := [];
              ran_outcome := Raise HTTPException |}).
Proof.
  split; [reflexivity|]. split; [|split; [|split]]; intros b c.
  - destruct (proj2 (proj2 (@recommend_command_replies
                              b c (answering (top_tracks_response six_songs))
                              delivering configured (lit "Rock")))
                    _ _ eq_refl (top_tracks_response_lists six_songs))
      as [_ H].
    destruct H as (embed & -> & Hf); [discriminate | reflexivity |].
    exists embed. split; [reflexivity | exact Hf].
  - rewrite (proj1 (proj2 (@recommend_command_replies
                             b c (answering (top_tracks_response six_songs))
                             delivering (startup None) (lit "Rock")))).
    + reflexivity.
    + right. reflexivity.
  - destruct twenty_six_entries as (Hlist & _ & Hnamed & _).
    destruct (proj2 (proj2 (@recommend_command_replies
                              b c
                              (answering
                                 (top_tracks_response
                                    (map numbered_entry (seq 1 26))))
                              discord_limits configured (lit "Rock")))
                    _ _ eq_refl Hlist)
      as [_ H].
    destruct H as (embed & -> & Hf); [discriminate | exact Hnamed |].
    unfold replies. cbn [deliver discord_limits]. rewrite Hf.
    reflexivity.
  - destruct (proj1 (@recommend_command_replies
                       b c (answering (top_tracks_response six_songs))
                       refusing configured (lit "Rock")))
      as [reply ->].
    reflexivity.
Defined.

Lemma mood_command_replies_witness :
  forallb well_formed_track two_songs = true
  /\ (forall (b : Builtins) (c : Casing),
         exists embed,
           mood_command (answering (top_tracks_response two_songs))
                        delivering (lit "Happy") configured
           = {| ran_state := create_session configured;
                ran_sent := [finding_songs (lit "Happy"); Rich embed];
                ran_outcome := Ok tt |}
           /\ embed_fields embed
              = numbered_fields [ lit "Song A - Artist X";
                                  lit "Song B - Artist Y" ])
  /\ (forall (b : Builtins) (c : Casing),
         mood_command (fun _ => GetRaises TimeoutError) delivering
                      (lit "Happy") configured
         = {| ran_state := create_session configured;
              ran_sent := [ finding_songs (lit "Happy");
                            no_mood_songs (lit "Happy") ];
              ran_outcome := Ok tt |})
  /\ (forall (b : Builtins) (c : Casing),
         mood_command
           (answering (top_tracks_response (map numbered_entry (seq 1 26))))
           discord_limits (lit "Happy") configured
         = {| ran_state := create_session configured;
              ran_sent := [finding_songs (lit "Happy")];
              ran_outcome := Raise HTTPException |}).
Proof.
  split; [reflexivity|]. split; [|split]; intros b c.
  - destruct (proj2 (proj2 (@mood_command_replies
                              b c (answering (top_tracks_response two_songs))
                              delivering configured (lit "Happy")))
                    _ _ eq_refl (top_tracks_response_lists two_songs))
      as [_ H].
    rewrite H; [|discriminate | reflexivity].
    eexists. split; reflexivity.
  - rewrite (proj1 (proj2 (@mood_command_replies
                             b c (fun _ => GetRaises TimeoutError)
                             delivering configured (lit "Happy")))).
    + reflexivity.
    + left. exact I.
  - destruct twenty_six_entries as (Hlist & Hwf & _ & _).
    destruct (proj2 (proj2 (@mood_command_replies
                              b c
                              (answering
                                 (top_tracks_response
                                    (map numbered_entry (seq 1 26))))
                              discord_limits configured (lit "Happy")))
                    _ _ eq_refl Hlist)
      as [_ H].
    rewrite H; [|discriminate | exact Hwf].
    reflexivity.
Defined.

(** *** The commands and the state of the session *)

Lemma close_session_settings (w : world) : same_settings w (close_session w).
Proof.
  unfold same_settings, close_session.
  destruct (session (api w)); [|repeat split].
  destruct (the_session w) as [s|]; [|repeat split].
  destruct (closed s); repeat split.
Qed.

Lemma create_session_settings (w : world) : same_settings w (create_session w).
Proof.
  unfold same_settings.
  destruct (create_session_api w) as (-> & -> & -> & -> & ->).
  repeat split.
Qed.

Section SessionState.
Context {builtins : Builtins} {casing : Casing}.
Variable net : network.

Lemma adapters_same_settings (w w' : world) (artist title tag : pystr) :
  same_settings w w' ->
  snd (get_lyrics net w artist title) = snd (get_lyrics net w' artist title)
  /\ snd (search_track net w artist title)
     = snd (search_track net w' artist title)
  /\ snd (get_trending net w) = snd (get_trending net w')
  /\ snd (get_recommendations net w tag) = snd (get_recommendations net w' tag)
  /\ snd (get_mood_songs net w tag) = snd (get_mood_songs net w' tag).
Proof.
  intros (Hb & Hl & Ht & Hf & Hk).
  unfold get_lyrics, fetch_json, search_track, get_trending,
    get_recommendations, get_mood_songs, top_tracks_params.
  to_network w. to_network w'.
  rewrite Hb, Hl, Ht, Hf.
  destruct (create_session_api w) as (_ & _ & _ & _ & ->).
  destruct (create_session_api w') as (_ & _ & _ & _ & ->).
  rewrite Hk. repeat split.
Qed.

(** X14.  With every message delivered:
    what a command sends and how it ends does not depend on the
    state of the session, only on the URLs and the API key: every adapter
    opens a session when there is none or it is closed.  Closing the
    session, as [on_disconnect] does, and opening it change neither the
    URLs nor the key, so each command replies after a disconnect as it
    would have before. *)
Theorem commands_ignore_session_state :
  (forall w, same_settings w (ran_state (on_disconnect w))
             /\ same_settings w (create_session w)
             /\ session_open (ran_state (on_disconnect w)) = false)
  /\ (forall w w',
         same_settings w w' ->
         (forall query,
             same_reply (lyrics_command net delivering query w)
                        (lyrics_command net delivering query w'))
         /\ (forall query,
                same_reply (track_info net delivering query w) (track_info net delivering query w'))
         /\ (forall now,
                same_reply (trending_command net delivering now w)
                           (trending_command net delivering now w'))
         /\ (forall genre,
                same_reply (recommend_command net delivering genre w)
                           (recommend_command net delivering genre w'))
         /\ (forall mood,
                same_reply (mood_command net delivering mood w)
                           (mood_command net delivering mood w'))).
Proof.
  split.
  { intros w. split; [apply close_session_settings|].
    split; [apply create_session_settings | apply close_session_closes]. }
  intros w w' H. unfold same_reply. repeat apply conj.
  - intros query. unfold lyrics_command, send_lyrics. run_cmd.
    destruct (lyrics_query query) as [[title artist]|e];
      [|split; reflexivity].
    cbn [ran_sent ran_outcome ran_state app].
    destruct (adapters_same_settings w w' artist title [] H) as (-> & _).
    destruct (snd (get_lyrics net w' artist title)) as [lyrics|e];
      [|split; reflexivity].
    destruct (negb (py_truthy lyrics)); [split; reflexivity|].
    destruct (lyrics_chunks lyrics); [|split; reflexivity].
    cbn [ran_sent ran_outcome ran_state app].
    rewrite !send_each_run. cbn [ran_sent ran_outcome ran_state app].
    destruct (py_len lyrics) as [n|e]; [|split; reflexivity].
    destruct (Nat.ltb lyrics_limit n); split; reflexivity.
  - intros query. unfold track_info. run_cmd.
    destruct (track_parse query) as [[title [[|c artist]|]]|e];
      try (split; reflexivity).
    cbn [ran_sent ran_outcome ran_state app].
    destruct (adapters_same_settings w w' (c :: artist) title [] H)
      as (_ & -> & _).
    destruct (snd (search_track net w' (c :: artist) title)) as [[t|]|e];
      try (split; reflexivity).
    destruct (track_embed t); split; reflexivity.
  - intros now. unfold trending_command. run_cmd.
    destruct (adapters_same_settings w w' [] [] [] H) as (_ & _ & -> & _).
    destruct (snd (get_trending net w')) as [v|e]; [|split; reflexivity].
    destruct (negb (py_truthy v)); [split; reflexivity|].
    destruct (py_slice_to 10 v) as [t|e]; [|split; reflexivity].
    cbn [ran_sent ran_outcome ran_state app].
    destruct (py_iter t) as [l|e]; [|split; reflexivity].
    cbn [ran_sent ran_outcome ran_state app].
    destruct (py_map _ _); split; reflexivity.
  - intros genre. unfold recommend_command. run_cmd.
    destruct (adapters_same_settings w w' [] [] (str_lower genre) H)
      as (_ & _ & _ & -> & _).
    destruct (snd (get_recommendations net w' (str_lower genre))) as [l|e];
      [|split; reflexivity].
    destruct (Nat.eqb (length l) 0); split; reflexivity.
  - intros mood. unfold mood_command. run_cmd.
    destruct (adapters_same_settings w w' [] [] (str_lower mood) H)
      as (_ & _ & _ & _ & ->).
    destruct (snd (get_mood_songs net w' (str_lower mood))) as [l|e];
      [|split; reflexivity].
    destruct (Nat.eqb (length l) 0); split; reflexivity.
Qed.

End SessionState.

Lemma commands_ignore_session_state_witness :
  session_open (create_session (startup None)) = true
  /\ session_open (ran_state (on_disconnect (create_session (startup None))))
     = false
  /\ forall (b : Builtins) (c : Casing) (net : network) (now : Z),
      same_reply
        (trending_command net delivering now (create_session (startup None)))
        (trending_command net delivering now
           (ran_state (on_disconnect (create_session (startup None))))).
Proof.
  split; [reflexivity|]. split; [reflexivity|]. intros b c net now.
  destruct (proj2 (@commands_ignore_session_state b c net)
                  (create_session (startup None))
                  (ran_state (on_disconnect (create_session (startup None)))))
    as (_ & _ & H & _).
  - repeat split.
  - apply H.
Defined.

(** *** [playlist_command] *)

Lemma N_of_ascii_inj (a b : ascii) : N_of_ascii a = N_of_ascii b -> a = b.
Proof.
  intros H. rewrite <- (ascii_N_embedding a), <- (ascii_N_embedding b).
  now rewrite H.
Qed.

Lemma lit_inj (s t : string) : lit s = lit t -> s = t.
Proof.
  unfold lit. intros H.
  rewrite <- (string_of_list_ascii_of_string s),
          <- (string_of_list_ascii_of_string t).
  f_equal. revert H.
  generalize (list_ascii_of_string s) (list_ascii_of_string t).
  induction l as [|a l IH]; intros [|b l'] H; try discriminate.
  - reflexivity.
  - cbn [map] in H. injection H as Hab Hl.
    f_equal; [now apply N_of_ascii_inj | now apply IH].
Qed.

(** [str] of an integer tells the integers apart. *)
Lemma str_of_Z_inj (a b : Z) : str_of_Z a = str_of_Z b -> a = b.
Proof.
  unfold str_of_Z. intros H. apply lit_inj in H.
  assert (Some (Z.to_int a) = Some (Z.to_int b)) as Hi.
  { rewrite <- (NilEmpty.isi (Z.to_int a)), <- (NilEmpty.isi (Z.to_int b)).
    now rewrite H. }
  injection Hi as Hi.
  rewrite <- (DecimalZ.of_to a), <- (DecimalZ.of_to b). now rewrite Hi.
Qed.

Lemma pl_lookup_set_same (key : pystr) (v : list pystr) (d : playlists) :
  pl_lookup key (pl_set key v d) = Some v.
Proof.
  induction d as [|[k v'] d IH]; cbn [pl_set pl_lookup].
  - now rewrite str_eqb_refl.
  - destruct (str_eqb k key) eqn:E; cbn [pl_lookup]; now rewrite E.
Qed.

Lemma pl_lookup_set_other (key key' : pystr) (v : list pystr) (d : playlists) :
  key <> key' -> pl_lookup key' (pl_set key v d) = pl_lookup key' d.
Proof.
  intros Hne. induction d as [|[k v'] d IH]; cbn [pl_set pl_lookup].
  - now rewrite str_eqb_neq.
  - destruct (str_eqb k key) eqn:E; cbn [pl_lookup].
    + apply str_eqb_eq in E. subst k. now rewrite str_eqb_neq.
    + now rewrite IH.
Qed.

Lemma song_in_iff (song : pystr) (l : list pystr) :
  song_in song l = true <-> In song l.
Proof.
  unfold song_in. rewrite existsb_exists. split.
  - intros (x & Hx & E). apply str_eqb_eq in E. now subst.
  - intros H. exists song. split; [assumption | apply str_eqb_refl].
Qed.

(** The guard [song in playlists[user_id]] keeps [remove] from raising. *)
Lemma list_remove_present (song : pystr) (l : list pystr) :
  song_in song l = true -> list_remove song l = Ok (without_first song l).
Proof.
  unfold song_in.
  induction l as [|s l IH]; cbn [existsb list_remove without_first];
    [discriminate|].
  intros H. destruct (str_eqb s song) eqn:E; [reflexivity|].
  assert (str_eqb song s = false) as E'.
  { apply str_eqb_neq. intros ->. now rewrite str_eqb_refl in E. }
  rewrite E' in H. cbn [orb] in H. now rewrite (IH H).
Qed.

Lemma without_first_split (song : pystr) (before after : list pystr) :
  ~ In song before ->
  without_first song (before ++ song :: after) = before ++ after.
Proof.
  induction before as [|s before IH]; intros Hn; cbn [app without_first].
  - now rewrite str_eqb_refl.
  - rewrite str_eqb_neq by (intros ->; apply Hn; now left).
    rewrite IH; [reflexivity|]. intros H. apply Hn. now right.
Qed.

Lemma ensured_lookup (who : author) (d : playlists) :
  pl_lookup (str_of_Z (author_id who)) (ensured (str_of_Z (author_id who)) d)
  = Some (songs_of who d).
Proof.
  unfold ensured, songs_of.
  destruct (pl_lookup (str_of_Z (author_id who)) d) eqn:E.
  - exact E.
  - apply pl_lookup_set_same.
Qed.

(** The command never reaches the [KeyError] of [playlists[user_id]] nor
    the [ValueError] of [remove]: it updates the dict and hands one message
    to [ctx.send]. *)
Lemma playlist_command_hands (ch : channel) (who : author)
      (action song : option pystr) (d : playlists) :
  playlist_command ch who action song d
  = {| ran_state := fst (playlist_run who action song d);
       ran_sent := fst (deliver ch [snd (playlist_run who action song d)]);
       ran_outcome := snd (deliver ch [snd (playlist_run who action song d)]) |}.
Proof.
  unfold playlist_command, playlist_run, playlist_added, playlist_removed,
    playlist_missing, playlist_cleared, playlist_empty, playlist_shown.
  unfold cmd_bind at 1.
  assert (ensure_playlist (str_of_Z (author_id who)) d
          = {| ran_state := ensured (str_of_Z (author_id who)) d;
               ran_sent := []; ran_outcome := Ok tt |}) as ->.
  { unfold ensure_playlist, ensured. run_cmd.
    destruct (pl_lookup (str_of_Z (author_id who)) d); reflexivity. }
  cbn [ran_state ran_sent ran_outcome app].
  pose proof (ensured_lookup who d) as Hl.
  set (d0 := ensured (str_of_Z (author_id who)) d) in *.
  set (uid := str_of_Z (author_id who)) in *.
  assert (forall A (k : list pystr -> cmd playlists A),
             cmd_bind (my_playlist uid) k d0 = k (songs_of who d) d0) as Hmine.
  { intros A k. unfold my_playlist. run_cmd. unfold pl_get. rewrite Hl.
    cbn [ret]. destruct (k (songs_of who d) d0). reflexivity. }
  assert (forall (m : message) (s : playlists),
             send ch m s
             = {| ran_state := s;
                  ran_sent := fst (deliver ch [m]);
                  ran_outcome := snd (deliver ch [m]) |}) as Hsend.
  { intros m s. unfold send. cbn [deliver]. now destruct (ch m). }
  destruct (is_action action (lit "add") && given song).
  { rewrite Hmine. unfold set_my_playlist, cmd_bind, get_state, put_state.
    cbn [ran_state ran_sent ran_outcome fst snd app].
    now rewrite Hsend. }
  destruct (is_action action (lit "remove") && given song).
  { rewrite Hmine.
    destruct (song_in (song_text song) (songs_of who d)) eqn:Hin.
    - unfold set_my_playlist, cmd_bind, get_state, put_state, lift.
      cbn [ran_state ran_sent ran_outcome fst snd app].
      rewrite (list_remove_present _ _ Hin).
      cbn [ran_state ran_sent ran_outcome fst snd app].
      now rewrite Hsend.
    - cbn [fst snd]. now rewrite Hsend. }
  destruct (is_action action (lit "clear")).
  { unfold set_my_playlist, cmd_bind, get_state, put_state.
    cbn [ran_state ran_sent ran_outcome fst snd app].
    now rewrite Hsend. }
  destruct (is_action action (lit "view")
            || match action with None => true | Some _ => false end).
  { rewrite Hmine.
    destruct (songs_of who d); cbn [length Nat.eqb negb fst snd];
      now rewrite Hsend. }
  cbn [fst snd]. now rewrite Hsend.
Qed.

Lemma playlist_command_run (who : author) (action song : option pystr)
      (d : playlists) :
  playlist_command delivering who action song d
  = {| ran_state := fst (playlist_run who action song d);
       ran_sent := [snd (playlist_run who action song d)];
       ran_outcome := Ok tt |}.
Proof. now rewrite playlist_command_hands, deliver_all. Qed.

Lemma songs_of_set (who : author) (songs : list pystr) (d : playlists) :
  songs_of who (pl_set (str_of_Z (author_id who)) songs d) = songs.
Proof. unfold songs_of. now rewrite pl_lookup_set_same. Qed.

Lemma songs_of_ensured (who : author) (d : playlists) :
  songs_of who (ensured (str_of_Z (author_id who)) d) = songs_of who d.
Proof. unfold songs_of at 1. now rewrite ensured_lookup. Qed.

Lemma given_song (song : pystr) : song <> [] -> given (Some song) = true.
Proof. destruct song; [congruence | reflexivity]. Qed.

Lemma songs_of_other (who other : author) (songs : list pystr) (d : playlists) :
  author_id who <> author_id other ->
  songs_of other (pl_set (str_of_Z (author_id who)) songs d) = songs_of other d.
Proof.
  intros Hne. unfold songs_of. rewrite pl_lookup_set_other; [reflexivity|].
  intros H. now apply str_of_Z_inj in H.
Qed.

Lemma songs_of_other_ensured (who other : author) (d : playlists) :
  author_id who <> author_id other ->
  songs_of other (ensured (str_of_Z (author_id who)) d) = songs_of other d.
Proof.
  intros Hne. unfold ensured.
  destruct (pl_lookup (str_of_Z (author_id who)) d); [reflexivity|].
  now apply songs_of_other.
Qed.

(** X15.  Whatever [ctx.send] does, [playlist_command] raises nothing of
    its own: the [KeyError] of [playlists[user_id]] and the [ValueError] of
    [remove] are never reached.  For every action, song and stored
    playlists it first updates the playlists, in a way that does not depend
    on the channel and leaves the caller with an entry, then hands exactly
    one message to [ctx.send], and ends as that send ends: normally when
    the message is delivered, with the exception of [ctx.send] when it is
    refused. *)
Theorem playlist_command_raises_only_from_send
        (who : author) (action song : option pystr) (d : playlists) :
  exists m,
    ran_sent (playlist_command delivering who action song d) = [m]
    /\ forall ch,
         ran_sent (playlist_command ch who action song d)
         = fst (deliver ch [m])
         /\ ran_outcome (playlist_command ch who action song d)
            = snd (deliver ch [m])
         /\ ran_state (playlist_command ch who action song d)
            = ran_state (playlist_command delivering who action song d)
         /\ exists songs,
              pl_lookup (str_of_Z (author_id who))
                        (ran_state (playlist_command ch who action song d))
              = Some songs.
Proof.
  exists (snd (playlist_run who action song d)).
  split; [now rewrite playlist_command_run|].
  intros ch. rewrite playlist_command_run, playlist_command_hands.
  cbn [ran_sent ran_outcome ran_state].
  split; [reflexivity|]. split; [reflexivity|]. split; [reflexivity|].
  unfold playlist_run.
  repeat match goal with
         | |- context [if ?c then _ else _] => destruct c
         end; cbn [fst]; eexists;
    first [apply pl_lookup_set_same | apply ensured_lookup].
Qed.

Lemma playlist_command_raises_only_from_send_witness :
  length (songs_of ana long_playlist) = 26
  /\ ran_outcome (playlist_command discord_limits ana (the_action "view")
                                   None long_playlist)
     = Raise HTTPException
  /\ ran_sent (playlist_command discord_limits ana (the_action "view")
                                None long_playlist)
     = []
  /\ ran_outcome (playlist_command discord_limits ana (the_action "add")
                                   (Some (lit "AntiHero")) long_playlist)
     = Ok tt.
Proof.
  split; [reflexivity|].
  destruct (playlist_command_raises_only_from_send
              ana (the_action "view") None long_playlist) as (m & Hm & Hview).
  destruct (playlist_command_raises_only_from_send
              ana (the_action "add") (Some (lit "AntiHero")) long_playlist)
    as (m' & Hm' & Hadd).
  assert (m = playlist_shown ana (map str_of_nat (seq 1 26))) as ->
      by (vm_compute in Hm; injection Hm as <-; reflexivity).
  assert (m' = playlist_added (lit "AntiHero")) as ->
      by (vm_compute in Hm'; injection Hm' as <-; reflexivity).
  destruct (Hview discord_limits) as (-> & -> & _).
  destruct (Hadd discord_limits) as (_ & -> & _).
  repeat split.
Defined.

(** X16.  With every message delivered:
    [/playlist add song] puts the song at the end of the caller's
    playlist, duplicates allowed, and confirms it.  A [remove] of the same
    song right after gives the playlist back when the song was not in it
    before; when it was, the earlier occurrence is the one that goes and
    the song ends up last. *)
Theorem playlist_add_appends (who : author) (song : pystr) (d : playlists) :
  song <> [] ->
  let r := playlist_command delivering who (the_action "add") (Some song) d in
  let r' := playlist_command delivering who (the_action "remove") (Some song)
                             (ran_state r) in
  songs_of who (ran_state r) = songs_of who d ++ [song]
  /\ ran_sent r = [playlist_added song]
  /\ (~ In song (songs_of who d) ->
      songs_of who (ran_state r') = songs_of who d)
  /\ (forall before after,
         songs_of who d = before ++ song :: after ->
         ~ In song before ->
         songs_of who (ran_state r') = before ++ after ++ [song]).
Proof.
  intros Hne r r'. subst r r'. rewrite !playlist_command_run.
  cbn [ran_state ran_sent].
  assert (playlist_run who (the_action "add") (Some song) d
          = (pl_set (str_of_Z (author_id who)) (songs_of who d ++ [song])
                    (ensured (str_of_Z (author_id who)) d),
             playlist_added song)) as ->.
  { unfold playlist_run, the_action. cbn [is_action]. rewrite str_eqb_refl.
    now rewrite (given_song song Hne). }
  cbn [fst snd]. rewrite songs_of_set.
  split; [reflexivity|]. split; [reflexivity|].
  assert (forall d', In song (songs_of who d') ->
            songs_of who (fst (playlist_run who (the_action "remove")
                                            (Some song) d'))
            = without_first song (songs_of who d')) as Hrem.
  { intros d' Hin. unfold playlist_run, the_action.
    cbn [is_action song_text]. rewrite (given_song song Hne).
    replace (str_eqb (lit "remove") (lit "add")) with false by reflexivity.
    rewrite str_eqb_refl. cbn [andb].
    rewrite (proj2 (song_in_iff song _) Hin). cbn [fst].
    apply songs_of_set. }
  split.
  - intros Hnot. rewrite Hrem; rewrite songs_of_set.
    + rewrite <- (app_nil_r (songs_of who d)) at 2.
      now rewrite without_first_split, app_nil_r.
    + apply in_or_app. right. now left.
  - intros before after Hd Hnot. rewrite Hrem; rewrite songs_of_set.
    + rewrite Hd, <- app_assoc. cbn [app].
      now rewrite without_first_split.
    + apply in_or_app. right. now left.
Qed.

(** X17.  With every message delivered:
    [/playlist remove song] takes the first occurrence of the song
    out of the caller's playlist, keeps the order of the others, and
    confirms it; when the song is not in the playlist, the playlist stays
    as it is and the not-found line is sent. *)
Theorem playlist_remove_first (who : author) (song : pystr) (d : playlists) :
  song <> [] ->
  let r := playlist_command delivering who (the_action "remove") (Some song) d in
  (~ In song (songs_of who d) ->
   songs_of who (ran_state r) = songs_of who d
   /\ ran_sent r = [playlist_missing song])
  /\ (forall before after,
         songs_of who d = before ++ song :: after ->
         ~ In song before ->
         songs_of who (ran_state r) = before ++ after
         /\ ran_sent r = [playlist_removed song]).
Proof.
  intros Hne r. subst r. rewrite playlist_command_run.
  cbn [ran_state ran_sent]. unfold playlist_run, the_action.
  cbn [is_action song_text]. rewrite (given_song song Hne).
  replace (str_eqb (lit "remove") (lit "add")) with false by reflexivity.
  rewrite str_eqb_refl. cbn [andb]. split.
  - intros Hnot.
    destruct (song_in song (songs_of who d)) eqn:E.
    + now apply song_in_iff in E.
    + cbn [fst snd]. now rewrite songs_of_ensured.
  - intros before after Hd Hnot.
    assert (song_in song (songs_of who d) = true) as ->.
    { apply song_in_iff. rewrite Hd. apply in_or_app. right. now left. }
    cbn [fst snd]. rewrite songs_of_set, Hd.
    now rewrite without_first_split.
Qed.

(** X18.  Playlists are kept per user: whatever one user does with
    [/playlist], the playlist of a user with another id is as it was. *)
Theorem playlist_isolated
        (who other : author) (action song : option pystr) (d : playlists) :
  author_id who <> author_id other ->
  songs_of other (ran_state (playlist_command delivering who action song d))
  = songs_of other d.
Proof.
  intros Hne. rewrite playlist_command_run. cbn [ran_state].
  unfold playlist_run.
  repeat match goal with
         | |- context [if ?c then _ else _] => destruct c
         end; cbn [fst];
    rewrite ?(songs_of_other who other _ _ Hne);
    now apply songs_of_other_ensured.
Qed.

(** X19.  With every message delivered:
    [view], and no action at all, leave the playlist as it is and
    show it as a numbered list, or send the hint when it is empty;
    [clear] empties it, with or without a song after it; [add] and
    [remove] without a song change nothing and send the usage text. *)
Theorem playlist_view_and_clear (who : author) (song : option pystr)
        (d : playlists) :
  (forall action,
      action = the_action "view" \/ action = None ->
      let r := playlist_command delivering who action song d in
      songs_of who (ran_state r) = songs_of who d
      /\ (songs_of who d = [] -> ran_sent r = [playlist_empty])
      /\ (songs_of who d <> [] ->
          ran_sent r = [playlist_shown who (songs_of who d)]))
  /\ (let r := playlist_command delivering who (the_action "clear") song d in
      songs_of who (ran_state r) = []
      /\ ran_sent r = [playlist_cleared])
  /\ (forall action,
         action = the_action "add" \/ action = the_action "remove" ->
         py_not song = true ->
         let r := playlist_command delivering who action song d in
         songs_of who (ran_state r) = songs_of who d
         /\ ran_sent r = [Text playlist_usage]).
Proof.
  split; [|split].
  - intros action Ha r. subst r. rewrite playlist_command_run.
    cbn [ran_state ran_sent]. unfold playlist_run.
    assert (is_action action (lit "add") = false
            /\ is_action action (lit "remove") = false
            /\ is_action action (lit "clear") = false
            /\ (is_action action (lit "view")
                || match action with None => true | Some _ => false end)
               = true) as (-> & -> & -> & ->).
    { destruct Ha as [-> | ->]; repeat split; reflexivity. }
    cbn [andb fst snd]. rewrite songs_of_ensured.
    split; [reflexivity|]. split.
    + now intros ->.
    + intros Hne. destruct (songs_of who d); [congruence | reflexivity].
  - intros r. subst r. rewrite playlist_command_run.
    cbn [ran_state ran_sent]. unfold playlist_run, the_action.
    cbn [is_action].
    replace (str_eqb (lit "clear") (lit "add")) with false by reflexivity.
    replace (str_eqb (lit "clear") (lit "remove")) with false by reflexivity.
    rewrite str_eqb_refl. cbn [andb fst snd]. now rewrite songs_of_set.
  - intros action Ha Hs r. subst r. rewrite playlist_command_run.
    cbn [ran_state ran_sent]. unfold playlist_run, given. rewrite Hs.
    cbn [negb]. rewrite !andb_false_r.
    assert (is_action action (lit "clear") = false
            /\ (is_action action (lit "view")
                || match action with None => true | Some _ => false end)
               = false) as (-> & ->).
    { destruct Ha as [-> | ->]; split; reflexivity. }
    cbn [fst snd]. now rewrite songs_of_ensured.
Qed.

(** X20.  The numbered list of an embed has one field for each value, in
    the order of the values; the field at position [i], counted from 0, is
    named [i + 1] followed by a full stop. *)
Theorem numbered_fields_enumerate (values : list pystr) :
  length (numbered_fields values) = length values
  /\ forall i v,
       nth_error values i = Some v ->
       nth_error (numbered_fields values) i
       = Some {| field_name := str_of_nat (S i) ++ lit ".";
                 field_value := v;
                 field_inline := false |}.
Proof.
  unfold numbered_fields. split.
  - now rewrite length_map, length_enumerate.
  - intros i v H. unfold enumerate_from_1.
    rewrite nth_error_map, (nth_error_enumerate values 1 i v H). reflexivity.
Qed.

(** *** The playlist of a user, step by step *)

Lemma playlist_add_appends_witness :
  songs_of ana (ran_state (playlist_command delivering ana (the_action "add")
                                            (Some (lit "AntiHero")) []))
  = [lit "AntiHero"]
  /\ songs_of ana
       (ran_state
          (playlist_command delivering ana (the_action "remove") (Some (lit "AntiHero"))
             (ran_state (playlist_command delivering ana (the_action "add")
                                          (Some (lit "AntiHero")) []))))
     = []
  /\ songs_of ana
       (ran_state
          (playlist_command delivering ana (the_action "remove") (Some (lit "a"))
             (ran_state
                (playlist_command delivering ana (the_action "add") (Some (lit "a"))
                   [(str_of_Z 7, [lit "a"; lit "b"])]))))
     = [lit "b"; lit "a"].
Proof.
  pose proof (playlist_add_appends ana (lit "AntiHero") []
                                   ltac:(discriminate)) as H.
  cbv zeta in H. destruct H as (Hadd & _ & Hback & _).
  pose proof (playlist_add_appends ana (lit "a")
                                   [(str_of_Z 7, [lit "a"; lit "b"])]
                                   ltac:(discriminate)) as H.
  cbv zeta in H. destruct H as (_ & _ & _ & Hdup).
  split; [exact Hadd|]. split.
  - apply Hback. intros [].
  - apply (Hdup [] [lit "b"]); [reflexivity | intros []].
Defined.

Lemma playlist_remove_first_witness :
  songs_of ana
    (ran_state (playlist_command delivering ana (the_action "remove") (Some (lit "a"))
                  [(str_of_Z 7, [lit "b"; lit "a"; lit "c"; lit "a"])]))
  = [lit "b"; lit "c"; lit "a"]
  /\ ran_sent (playlist_command delivering ana (the_action "remove") (Some (lit "z"))
                 [(str_of_Z 7, [lit "b"])])
     = [playlist_missing (lit "z")].
Proof.
  split.
  - pose proof (playlist_remove_first
                  ana (lit "a")
                  [(str_of_Z 7, [lit "b"; lit "a"; lit "c"; lit "a"])]
                  ltac:(discriminate)) as H.
    cbv zeta in H. destruct H as [_ H].
    apply (H [lit "b"] [lit "c"; lit "a"]); [reflexivity|].
    intros [H'|[]]. discriminate H'.
  - pose proof (playlist_remove_first ana (lit "z") [(str_of_Z 7, [lit "b"])]
                                      ltac:(discriminate)) as H.
    cbv zeta in H. destruct H as [H _].
    apply H. intros [H'|[]]. discriminate H'.
Defined.

Lemma playlist_isolated_witness :
  songs_of ben (ran_state (playlist_command delivering ana (the_action "clear") None
                             [ (str_of_Z 7, [lit "a"]);
                               (str_of_Z 8, [lit "b"]) ]))
  = [lit "b"]
  /\ songs_of ana (ran_state (playlist_command delivering ana (the_action "clear") None
                                [ (str_of_Z 7, [lit "a"]);
                                  (str_of_Z 8, [lit "b"]) ]))
     = [].
Proof.
  split; [|reflexivity].
  apply (playlist_isolated ana ben (the_action "clear") None
           [ (str_of_Z 7, [lit "a"]); (str_of_Z 8, [lit "b"]) ]).
  discriminate.
Defined.

Lemma playlist_view_and_clear_witness :
  ran_sent (playlist_command delivering ana None None [(str_of_Z 7, [lit "a"; lit "b"])])
  = [playlist_shown ana [lit "a"; lit "b"]]
  /\ ran_sent (playlist_command delivering ana (the_action "view") None []) = [playlist_empty]
  /\ ran_sent (playlist_command delivering ana (the_action "add") None []) = [Text playlist_usage].
Proof.
  split; [|split].
  - pose proof (proj1 (playlist_view_and_clear
                         ana None [(str_of_Z 7, [lit "a"; lit "b"])])
                      None (or_intror eq_refl)) as H.
    cbv zeta in H. destruct H as (_ & _ & H). apply H. discriminate.
  - pose proof (proj1 (playlist_view_and_clear ana None [])
                      (the_action "view") (or_introl eq_refl)) as H.
    cbv zeta in H. destruct H as (_ & H & _). apply H. reflexivity.
  - pose proof (proj2 (proj2 (playlist_view_and_clear ana None []))
                      (the_action "add") (or_introl eq_refl) eq_refl) as H.
    cbv zeta in H. now destruct H as [_ H].
Defined.

Lemma numbered_fields_enumerate_witness :
  nth_error (numbered_fields [lit "a"; lit "b"; lit "c"]) 2
  = Some {| field_name := lit "3."; field_value := lit "c";
            field_inline := false |}.
Proof.
  apply (proj2 (numbered_fields_enumerate [lit "a"; lit "b"; lit "c"]) 2
               (lit "c")).
  reflexivity.
Defined.

Set Implicit Arguments.
